(** * reminder-agent: the task store, the tool dispatcher and the stdio
    JSON-RPC client, embedded from [src/task-service.ts], [src/types.ts],
    [src/mcp-server.ts] and the [MCPClient] class of [src/agent.ts]. *)

From Stdlib Require Import ZArith Ascii String List Lia Bool.
From stdpp Require Import base tactics option list gmap strings pretty.

Local Open Scope Z_scope.

(** ** JavaScript values that cross the process boundary *)

(** A JSON number: request ids are integers, every other numeric value is
    kept by its literal and never equals a key of the pending table. *)
Inductive number :=
| Integer (z : Z)
| NonInteger (literal : string).

#[warnings="-register-all"]
Inductive JSON :=
| JNull
| JBool (b : bool)
| JNumber (n : number)
| JString (s : string)
| JArray (items : list JSON)
| JObject (fields : list (string * JSON)).

(** ** Services of the JavaScript runtime the code calls

    [Date_parse s] is [new Date(s).getTime()], [None] standing for the
    Invalid Date (NaN); [toISOString t] is [new Date(t).toISOString()];
    [startOfLocalDay t] is
    [new Date(d.getFullYear(), d.getMonth(), d.getDate()).getTime()] for
    [d = new Date(t)]; [JSON_parse s] is [JSON.parse(s)], [None] standing
    for the SyntaxError it throws. *)
Class Platform := {
  Date_parse : string -> option Z;
  toISOString : Z -> string;
  startOfLocalDay : Z -> Z;
  JSON_parse : string -> option JSON
}.

(** ** types.ts *)

Inductive Priority := low | medium | high | critical.

Inductive TaskStatus := pending | in_progress | completed | overdue.

#[global] Instance Priority_eq_dec : EqDecision Priority.
Proof. solve_decision. Defined.

#[global] Instance TaskStatus_eq_dec : EqDecision TaskStatus.
Proof. solve_decision. Defined.

(** The record as it exists at run time. [title] and [status] are declared
    mandatory in types.ts, but the tool handlers store [args?.title as string]
    and [args?.status as TaskStatus] unchecked, so both can be [undefined]
    ([None]) in a stored task. *)
Record Task := mkTask {
  task_id : string;
  title : option string;
  description : option string;
  priority : Priority;
  status : option TaskStatus;
  dueDate : option string;
  tags : option (list string);
  createdAt : string;
  updatedAt : string
}.

Record TasksData := mkTasksData {
  data_tasks : list Task;
  lastUpdated : string
}.

Record TaskFilter := mkTaskFilter {
  filter_status : option TaskStatus;
  filter_priority : option Priority;
  filter_tag : option string;
  dueBefore : option string;
  dueAfter : option string
}.

(** [Record<TaskStatus, number>] and [Record<Priority, number>]: one counter
    per key. *)
Record StatusCounts := mkStatusCounts {
  n_pending : nat;
  n_in_progress : nat;
  n_completed : nat;
  n_overdue : nat
}.

Record PriorityCounts := mkPriorityCounts {
  n_low : nat;
  n_medium : nat;
  n_high : nat;
  n_critical : nat
}.

Record TaskSummary := mkTaskSummary {
  total : nat;
  byStatus : StatusCounts;
  byPriority : PriorityCounts;
  overdueTasks : list Task;
  upcomingTasks : list Task;
  todayTasks : list Task
}.

#[global] Instance Task_eq_dec : EqDecision Task.
Proof. solve_decision. Defined.

(** ** The world of the task store: one file, a clock, the console *)

(** The file at [tasksFilePath], as the load finds it. [Unusable]: the
    file cannot be read, is not JSON, or is the JSON [null], so that
    [JSON.parse(readFileSync(..)).tasks] throws. [Malformed]: the file is
    JSON in which [tasks] is nothing that [forEach] can go through: it is
    missing, no array, or an array with a [null] in it; the load assigns
    it, and [updateOverdueStatus] throws a TypeError after it has read the
    clock. [Document]: a [TasksData]. (An array of anything else than
    task objects, which the types exclude, is not represented.) *)
Inductive FileContent :=
| Unusable
| Malformed
| Document (d : TasksData).

Inductive exn :=
| WriteFailed
| ReadFailed
| TasksTypeError.

Inductive LogLine :=
| LoadError (e : exn).

(** [clock n] is what the [n]-th reading of the system clock returns
    ([new Date()] and [Date.now()], in milliseconds); [reads] counts the
    readings made so far. [written] lists the documents handed to a
    successful [writeFileSync], oldest first. *)
Record World := mkWorld {
  disk : option FileContent;
  writable : bool;
  clock : nat -> Z;
  reads : nat;
  console : list LogLine;
  written : list TasksData
}.

(** class TaskService: the private [tasks] array, next to the world it
    acts on. *)
Record State := mkState {
  tasks : list Task;
  world : World
}.

(** Statements of the class as state transformers that either return or
    throw; the state reached is kept in both cases, as a JavaScript
    exception does not roll anything back. *)
Definition M (A : Type) : Type := State -> (exn + A) * State.

Definition ret {A} (a : A) : M A := fun s => (inr a, s).

Definition throw {A} (e : exn) : M A := fun s => (inl e, s).

Definition bind {A B} (k : A -> M B) (m : M A) : M B :=
  fun s => match m s with
           | (inr a, s') => k a s'
           | (inl e, s') => (inl e, s')
           end.

(** [try { m } catch (e) { handler e }] *)
Definition try_catch {A} (m : M A) (handler : exn -> M A) : M A :=
  fun s => match m s with
           | (inr a, s') => (inr a, s')
           | (inl e, s') => handler e s'
           end.

#[global] Instance M_ret : MRet M := @ret.

#[global] Instance M_bind : MBind M := @bind.

Definition get_tasks : M (list Task) := fun s => (inr (tasks s), s).

Definition set_tasks (ts : list Task) : M unit :=
  fun s => (inr tt, mkState ts (world s)).

(** The next reading of the clock. *)
Definition current (w : World) : Z := clock w (reads w).

(** The world after a reading of the clock, after a successful write of
    [d], and after a line on the console. *)
Definition advance (w : World) : World :=
  mkWorld (disk w) (writable w) (clock w) (S (reads w)) (console w) (written w).

Definition store (d : TasksData) (w : World) : World :=
  mkWorld (Some (Document d)) (writable w) (clock w) (reads w) (console w)
    (written w ++ [d]).

Definition report (l : LogLine) (w : World) : World :=
  mkWorld (disk w) (writable w) (clock w) (reads w) (console w ++ [l]) (written w).

(** [new Date()] / [Date.now()] *)
Definition newDate : M Z :=
  fun s => (inr (current (world s)), mkState (tasks s) (advance (world s))).

Definition existsSync : M bool :=
  fun s => (inr (match disk (world s) with Some _ => true | None => false end), s).

(** [JSON.parse(readFileSync(path, 'utf-8'))] with its [.tasks] read:
    [None] when [tasks] is nothing to iterate. *)
Definition readDocument : M (option TasksData) :=
  fun s => match disk (world s) with
           | Some (Document d) => (inr (Some d), s)
           | Some Malformed => (inr None, s)
           | _ => (inl ReadFailed, s)
           end.

(** [writeFileSync(path, JSON.stringify(data, null, 2), 'utf-8')] *)
Definition writeFileSync (d : TasksData) : M unit :=
  fun s =>
    if writable (world s) then (inr tt, mkState (tasks s) (store d (world s)))
    else (inl WriteFailed, s).

Definition console_error (l : LogLine) : M unit :=
  fun s => (inr tt, mkState (tasks s) (report l (world s))).

(** ** task-service.ts: class TaskService *)

(** JavaScript truthiness of an optional string: [undefined] and the empty
    string are falsy. *)
Definition truthy (o : option string) : bool :=
  match o with
  | Some s => negb (String.eqb s "")
  | None => false
  end.

(** Comparisons of [Date] objects; one with an Invalid Date is false. *)
Definition date_ltb (a b : option Z) : bool :=
  match a, b with
  | Some x, Some y => x <? y
  | _, _ => false
  end.

Definition date_leb (a b : option Z) : bool :=
  match a, b with
  | Some x, Some y => x <=? y
  | _, _ => false
  end.

Definition status_is (s : TaskStatus) (task : Task) : bool :=
  bool_decide (status task = Some s).

Definition with_status (task : Task) (s : option TaskStatus) (stamp : string) : Task :=
  mkTask (task_id task) (title task) (description task) (priority task)
    s (dueDate task) (tags task) (createdAt task) stamp.

Definition day_ms : Z := 24 * 60 * 60 * 1000.

(** [Omit<Task, 'id' | 'createdAt' | 'updatedAt'>] *)
Record TaskInput := mkTaskInput {
  in_title : option string;
  in_description : option string;
  in_priority : Priority;
  in_status : option TaskStatus;
  in_dueDate : option string;
  in_tags : option (list string)
}.

(** [arr.find(t => t.id === id)]; the handlers pass [args?.id as string], so
    the [id] looked for can be [undefined] ([None]). *)
Definition has_id (id : option string) (t : Task) : bool :=
  bool_decide (Some (task_id t) = id).

Definition find_task (id : option string) (ts : list Task) : option Task :=
  List.find (has_id id) ts.

(** [task.status = status; task.updatedAt = stamp] on the object that
    [find] returned: the first task with that id. *)
Fixpoint assign_status (id : option string) (s : option TaskStatus) (stamp : string)
    (ts : list Task) : list Task :=
  match ts with
  | [] => []
  | t :: rest =>
      if has_id id t then with_status t s stamp :: rest
      else t :: assign_status id s stamp rest
  end.

(** [findIndex] followed by [splice(index, 1)] *)
Fixpoint findIndex (id : option string) (ts : list Task) : option nat :=
  match ts with
  | [] => None
  | t :: rest =>
      if has_id id t then Some 0%nat
      else option_map S (findIndex id rest)
  end.

Fixpoint splice1 (index : nat) (ts : list Task) : list Task :=
  match index, ts with
  | _, [] => []
  | O, _ :: rest => rest
  | S i, t :: rest => t :: splice1 i rest
  end.

Section TaskService.
Context `{Platform}.

(** The body of the [forEach] callback of [updateOverdueStatus]: the task
    after the call, and whether the callback assigned to it. *)
Definition overdueCallback (now : Z) (task : Task) : Task * bool :=
  if truthy (dueDate task) && negb (status_is completed task) then
    let due := dueDate task ≫= Date_parse in
    if date_ltb due (Some now) && negb (status_is overdue task) then
      (with_status task (Some overdue) (toISOString now), true)
    else (task, false)
  else (task, false).

(** [this.tasks.forEach(...)] with the [hasChanges] flag threaded through *)
Fixpoint forEachOverdue (now : Z) (ts : list Task) (hasChanges : bool)
    : list Task * bool :=
  match ts with
  | [] => ([], hasChanges)
  | task :: rest =>
      let '(task', changed) := overdueCallback now task in
      let '(rest', flag) := forEachOverdue now rest (hasChanges || changed) in
      (task' :: rest', flag)
  end.

Definition saveTasks : M unit :=
  ts ← get_tasks;
  now ← newDate;
  writeFileSync (mkTasksData ts (toISOString now)).

Definition updateOverdueStatus : M unit :=
  now ← newDate;
  ts ← get_tasks;
  let '(ts', hasChanges) := forEachOverdue now ts false in
  set_tasks ts';;
  if hasChanges then saveTasks else ret tt.

Definition sampleTasks (now : Z) : list Task :=
  let tomorrow := now + day_ms in
  let nextWeek := now + 7 * day_ms in
  let yesterday := now - day_ms in
  let stamp := toISOString now in
  [ mkTask "1" (Some "Подготовить отчёт по проекту")
      (Some "Квартальный отчёт для руководства") high (Some in_progress)
      (Some (toISOString tomorrow)) (Some ["работа"; "отчёт"]) stamp stamp;
    mkTask "2" (Some "Созвон с командой")
      (Some "Еженедельный статус-митинг") medium (Some pending)
      (Some (toISOString tomorrow)) (Some ["работа"; "митинг"]) stamp stamp;
    mkTask "3" (Some "Оплатить счета")
      (Some "Коммунальные платежи") high (Some pending)
      (Some (toISOString yesterday)) (Some ["личное"; "финансы"]) stamp stamp;
    mkTask "4" (Some "Изучить новый фреймворк")
      (Some "Посмотреть документацию Angular 17") low (Some pending)
      (Some (toISOString nextWeek)) (Some ["обучение"; "angular"]) stamp stamp;
    mkTask "5" (Some "Code review")
      (Some "Проверить PR от коллеги") critical (Some pending)
      (Some (toISOString now)) (Some ["работа"; "код"]) stamp stamp ].

Definition createSampleTasks : M unit :=
  now ← newDate;
  writeFileSync (mkTasksData (sampleTasks now) (toISOString now));;
  set_tasks (sampleTasks now).

Definition loadTasks : M unit :=
  present ← existsSync;
  (if (present : bool) then ret tt else createSampleTasks);;
  try_catch
    (data ← readDocument;
     match data with
     | Some tasksData =>
         set_tasks (data_tasks tasksData);;
         updateOverdueStatus
     | None =>
         newDate;;
         throw TasksTypeError
     end)
    (fun error =>
       console_error (LoadError error);;
       set_tasks []).

Definition reloadTasks : M unit := loadTasks.

Definition getAllTasks : M (list Task) :=
  reloadTasks;; get_tasks.

Definition applyFilter (filter : TaskFilter) (result : list Task) : list Task :=
  let result :=
    match filter_status filter with
    | Some s => List.filter (status_is s) result
    | None => result
    end in
  let result :=
    match filter_priority filter with
    | Some p => List.filter (fun t => bool_decide (priority t = p)) result
    | None => result
    end in
  let result :=
    if truthy (filter_tag filter) then
      List.filter
        (fun t => match tags t, filter_tag filter with
                  | Some l, Some tag => bool_decide (tag ∈ l)
                  | _, _ => false
                  end) result
    else result in
  let result :=
    if truthy (dueBefore filter) then
      let before := dueBefore filter ≫= Date_parse in
      List.filter
        (fun t => truthy (dueDate t) && date_leb (dueDate t ≫= Date_parse) before)
        result
    else result in
  if truthy (dueAfter filter) then
    let after := dueAfter filter ≫= Date_parse in
    List.filter
      (fun t => truthy (dueDate t) && date_leb after (dueDate t ≫= Date_parse))
      result
  else result.

Definition getTasks (filter : option TaskFilter) : M (list Task) :=
  reloadTasks;;
  result ← get_tasks;
  mret (match filter with
        | Some f => applyFilter f result
        | None => result
        end).

Definition getTaskById (id : option string) : M (option Task) :=
  reloadTasks;;
  ts ← get_tasks;
  mret (find_task id ts).

(** [summary.byStatus[task.status]++]: a status outside the four keys (an
    [undefined] one) makes a key of its own and leaves the four counters. *)
Definition bumpStatus (s : option TaskStatus) (c : StatusCounts) : StatusCounts :=
  match s with
  | Some pending =>
      mkStatusCounts (S (n_pending c)) (n_in_progress c) (n_completed c) (n_overdue c)
  | Some in_progress =>
      mkStatusCounts (n_pending c) (S (n_in_progress c)) (n_completed c) (n_overdue c)
  | Some completed =>
      mkStatusCounts (n_pending c) (n_in_progress c) (S (n_completed c)) (n_overdue c)
  | Some overdue =>
      mkStatusCounts (n_pending c) (n_in_progress c) (n_completed c) (S (n_overdue c))
  | None => c
  end.

Definition bumpPriority (p : Priority) (c : PriorityCounts) : PriorityCounts :=
  match p with
  | low => mkPriorityCounts (S (n_low c)) (n_medium c) (n_high c) (n_critical c)
  | medium => mkPriorityCounts (n_low c) (S (n_medium c)) (n_high c) (n_critical c)
  | high => mkPriorityCounts (n_low c) (n_medium c) (S (n_high c)) (n_critical c)
  | critical => mkPriorityCounts (n_low c) (n_medium c) (n_high c) (S (n_critical c))
  end.

(** The body of the [forEach] callback of [getSummary] *)
Definition summaryCallback (now tomorrow todayStart todayEnd : Z)
    (summary : TaskSummary) (task : Task) : TaskSummary :=
  let counts := bumpStatus (status task) (byStatus summary) in
  let prios := bumpPriority (priority task) (byPriority summary) in
  let overdues :=
    if status_is overdue task then overdueTasks summary ++ [task]
    else overdueTasks summary in
  let due := dueDate task ≫= Date_parse in
  let todays :=
    if truthy (dueDate task)
       && (date_leb (Some todayStart) due && date_ltb due (Some todayEnd)
           && negb (status_is completed task))
    then todayTasks summary ++ [task] else todayTasks summary in
  let upcoming :=
    if truthy (dueDate task)
       && (date_leb (Some now) due && date_leb due (Some tomorrow)
           && negb (status_is completed task))
    then upcomingTasks summary ++ [task] else upcomingTasks summary in
  mkTaskSummary (total summary) counts prios overdues upcoming todays.

Definition emptySummary (n : nat) : TaskSummary :=
  mkTaskSummary n (mkStatusCounts 0 0 0 0) (mkPriorityCounts 0 0 0 0) [] [] [].

Definition getSummary : M TaskSummary :=
  reloadTasks;;
  now ← newDate;
  ts ← get_tasks;
  let tomorrow := now + day_ms in
  let todayStart := startOfLocalDay now in
  let todayEnd := todayStart + day_ms in
  mret (fold_left (summaryCallback now tomorrow todayStart todayEnd) ts
          (emptySummary (length ts))).

Definition addTask (task : TaskInput) : M Task :=
  nowDate ← newDate;
  let now := toISOString nowDate in
  idStamp ← newDate;
  let newTask :=
    mkTask (pretty idStamp) (in_title task) (in_description task)
      (in_priority task) (in_status task) (in_dueDate task) (in_tags task)
      now now in
  ts ← get_tasks;
  set_tasks (ts ++ [newTask]);;
  saveTasks;;
  mret newTask.

Definition updateTaskStatus (id : option string) (s : option TaskStatus)
    : M (option Task) :=
  ts ← get_tasks;
  match find_task id ts with
  | None => mret None
  | Some task =>
      now ← newDate;
      let stamp := toISOString now in
      set_tasks (assign_status id s stamp ts);;
      saveTasks;;
      mret (Some (with_status task s stamp))
  end.

Definition deleteTask (id : option string) : M bool :=
  ts ← get_tasks;
  match findIndex id ts with
  | None => mret false
  | Some index =>
      set_tasks (splice1 index ts);;
      saveTasks;;
      mret true
  end.

(** [new TaskService(path)] *)
Definition constructor : M unit := loadTasks.

End TaskService.

(** ** The words of the specification about the task store *)

Section TaskStoreSpec.
Context `{Platform}.

(** The due timestamp of a task that has one. *)
Definition due_time (t : Task) : option Z :=
  if truthy (dueDate t) then dueDate t ≫= Date_parse else None.

(** "a due timestamp strictly in the past, a status other than completed
    and not already overdue" *)
Definition falls_overdue (now : Z) (t : Task) : Prop :=
  (exists due, due_time t = Some due /\ due < now)
  /\ status t <> Some completed /\ status t <> Some overdue.

(** What a load makes of one task of the document. *)
Definition derived (now : Z) (t t' : Task) : Prop :=
  (falls_overdue now t -> t' = with_status t (Some overdue) (toISOString now))
  /\ (~ falls_overdue now t -> t' = t).

(** [updatedAt >= createdAt], as instants. *)
Definition stamps_ordered (t : Task) : Prop :=
  exists c u, Date_parse (createdAt t) = Some c
              /\ Date_parse (updatedAt t) = Some u /\ c <= u.

(** [createdAt] is an instant not later than [now]. *)
Definition created_by (now : Z) (t : Task) : Prop :=
  exists c, Date_parse (createdAt t) = Some c /\ c <= now.

(** The record [addTask] builds from its argument and two clock readings. *)
Definition added (w : World) (input : TaskInput) : Task :=
  mkTask (pretty (current (advance w))) (in_title input) (in_description input)
    (in_priority input) (in_status input) (in_dueDate input) (in_tags input)
    (toISOString (current w)) (toISOString (current w)).

Definition not_completed (t : Task) : bool :=
  negb (bool_decide (status t = Some completed)).

(** The task is due within the closed interval [from, to]. *)
Definition due_within (from to : Z) (t : Task) : bool :=
  match due_time t with
  | Some due => (from <=? due) && (due <=? to)
  | None => false
  end.

(** The task is due within the half-open interval [from, to). *)
Definition due_within_day (from to : Z) (t : Task) : bool :=
  match due_time t with
  | Some due => (from <=? due) && (due <? to)
  | None => false
  end.

Definition count_status (s : TaskStatus) (ts : list Task) : nat :=
  length (List.filter (fun t => bool_decide (status t = Some s)) ts).

Definition count_priority (p : Priority) (ts : list Task) : nat :=
  length (List.filter (fun t => bool_decide (priority t = p)) ts).

(** The aggregate of the amended statement, for the collection [ts] at
    the instant [now]: the today list holds the tasks not completed and due
    in the 24 hours that begin at the local midnight before [now]. *)
Definition summary_spec (now : Z) (ts : list Task) : TaskSummary :=
  mkTaskSummary (length ts)
    (mkStatusCounts (count_status pending ts) (count_status in_progress ts)
       (count_status completed ts) (count_status overdue ts))
    (mkPriorityCounts (count_priority low ts) (count_priority medium ts)
       (count_priority high ts) (count_priority critical ts))
    (List.filter (fun t => bool_decide (status t = Some overdue)) ts)
    (List.filter (fun t => due_within now (now + day_ms) t && not_completed t) ts)
    (List.filter
       (fun t => due_within_day (startOfLocalDay now) (startOfLocalDay now + day_ms) t
                 && not_completed t) ts).

(** "due within the current local calendar day's [00:00, 24:00) window":
    the due timestamp lies on the local day of [now], that is, the local
    midnight before it is the local midnight before [now]. *)
Definition due_on_local_day (now : Z) (t : Task) : bool :=
  match due_time t with
  | Some due => startOfLocalDay due =? startOfLocalDay now
  | None => false
  end.

(** The aggregate as the specification words it: as [summary_spec], with
    the today list holding the tasks not completed and due on the local
    calendar day of [now]. *)
Definition summary_claimed (now : Z) (ts : list Task) : TaskSummary :=
  mkTaskSummary (length ts)
    (mkStatusCounts (count_status pending ts) (count_status in_progress ts)
       (count_status completed ts) (count_status overdue ts))
    (mkPriorityCounts (count_priority low ts) (count_priority medium ts)
       (count_priority high ts) (count_priority critical ts))
    (List.filter (fun t => bool_decide (status t = Some overdue)) ts)
    (List.filter (fun t => due_within now (now + day_ms) t && not_completed t) ts)
    (List.filter (fun t => due_on_local_day now t && not_completed t) ts).

(** The local day of [now] has 24 hours: its instants are those of the
    24 hours that begin at its local midnight. *)
Definition day_of_24_hours (now : Z) : Prop :=
  forall u,
    startOfLocalDay u = startOfLocalDay now
    <-> startOfLocalDay now <= u < startOfLocalDay now + day_ms.

(** A summary with the counters and lists of a second one added to it. *)
Definition merged (a b : TaskSummary) : TaskSummary :=
  mkTaskSummary (total a)
    (mkStatusCounts
       (n_pending (byStatus a) + n_pending (byStatus b))
       (n_in_progress (byStatus a) + n_in_progress (byStatus b))
       (n_completed (byStatus a) + n_completed (byStatus b))
       (n_overdue (byStatus a) + n_overdue (byStatus b)))
    (mkPriorityCounts
       (n_low (byPriority a) + n_low (byPriority b))
       (n_medium (byPriority a) + n_medium (byPriority b))
       (n_high (byPriority a) + n_high (byPriority b))
       (n_critical (byPriority a) + n_critical (byPriority b)))
    (overdueTasks a ++ overdueTasks b)
    (upcomingTasks a ++ upcomingTasks b)
    (todayTasks a ++ todayTasks b).

End TaskStoreSpec.

(** ** mcp-server.ts: the CallToolRequest handler *)

(** [request.params.arguments]: every property may be missing; one that
    is there has the type its [inputSchema] declares. *)
Record ToolArguments := mkToolArguments {
  arg_id : option string;
  arg_title : option string;
  arg_description : option string;
  arg_priority : option Priority;
  arg_status : option TaskStatus;
  arg_dueDate : option string;
  arg_tags : option (list string);
  arg_tag : option string
}.

Record CallToolRequest := mkCallToolRequest {
  name : string;
  arguments : option ToolArguments
}.

(** What [JSON.stringify(_, null, 2)] is applied to in the handler. *)
Inductive Serializable :=
| STasks (l : list Task)
| STask (t : Task)
| SSummary (s : TaskSummary).

(** The [text] of a content item: a literal, a literal followed by the
    JSON rendering of a value, or the text made from a caught error. *)
Inductive Text :=
| Txt (s : string)
| TxtJson (prefix : string) (v : Serializable)
| TxtError (e : exn).

(** [{ content: [{ type: 'text', text }], isError }]; [isError] is [None]
    when the property is not set. *)
Record ToolResult := mkToolResult {
  content : list Text;
  isError : option bool
}.

Definition error_flagged (r : ToolResult) : Prop := isError r = Some true.

(** The one-character string written [\n] in the source. *)
Definition newline : string := String "010" EmptyString.

(** The names of the [tools] array. *)
Definition tool_names : list string :=
  [ "get_tasks"; "get_task_summary"; "get_task_by_id"; "add_task";
    "update_task_status"; "delete_task"; "get_overdue_tasks"; "get_today_tasks" ].

Section Dispatcher.
Context `{Platform}.

Definition handleCall (request : CallToolRequest) : M ToolResult :=
  let args := arguments request in
  let name := name request in
  if String.eqb name "get_tasks" then
    let filter :=
      mkTaskFilter (args ≫= arg_status) (args ≫= arg_priority)
        (if truthy (args ≫= arg_tag) then args ≫= arg_tag else None)
        None None in
    ts ← getTasks (Some filter);
    mret (mkToolResult [TxtJson "" (STasks ts)] None)
  else if String.eqb name "get_task_summary" then
    summary ← getSummary;
    mret (mkToolResult [TxtJson "" (SSummary summary)] None)
  else if String.eqb name "get_task_by_id" then
    found ← getTaskById (args ≫= arg_id);
    mret (match found with
          | None => mkToolResult [Txt "Задача не найдена"] (Some true)
          | Some task => mkToolResult [TxtJson "" (STask task)] None
          end)
  else if String.eqb name "add_task" then
    newTask ← addTask
      (mkTaskInput (args ≫= arg_title) (args ≫= arg_description)
         (default medium (args ≫= arg_priority))
         (Some pending) (args ≫= arg_dueDate) (args ≫= arg_tags));
    mret (mkToolResult [TxtJson ("Задача создана:" +:+ newline) (STask newTask)] None)
  else if String.eqb name "update_task_status" then
    updated ← updateTaskStatus (args ≫= arg_id) (args ≫= arg_status);
    mret (match updated with
          | None => mkToolResult [Txt "Задача не найдена"] (Some true)
          | Some task => mkToolResult [TxtJson ("Статус обновлён:" +:+ newline) (STask task)] None
          end)
  else if String.eqb name "delete_task" then
    deleted ← deleteTask (args ≫= arg_id);
    mret (mkToolResult
            [Txt (if (deleted : bool) then "Задача удалена" else "Задача не найдена")]
            (Some (negb deleted)))
  else if String.eqb name "get_overdue_tasks" then
    summary ← getSummary;
    mret (mkToolResult [TxtJson "" (STasks (overdueTasks summary))] None)
  else if String.eqb name "get_today_tasks" then
    summary ← getSummary;
    mret (mkToolResult [TxtJson "" (STasks (todayTasks summary))] None)
  else
    mret (mkToolResult [Txt ("Неизвестный инструмент: " +:+ name)] (Some true)).

(** [server.setRequestHandler(CallToolRequestSchema, ...)]: the switch
    inside [try], the error result built in [catch]. *)
Definition callToolHandler (request : CallToolRequest) : M ToolResult :=
  try_catch (handleCall request)
    (fun error => mret (mkToolResult [TxtError error] (Some true))).

End Dispatcher.

(** ** agent.ts: class MCPClient *)

(** What a suspended [sendRequest] call is resumed with. *)
Inductive Reason :=
| RemoteMessage (m : JSON)
| RemoteStringified (e : JSON)
| RequestTimeout (text : string).

Inductive Outcome :=
| Resolved (result : option JSON)
| Rejected (reason : Reason).

(** A line written to the child's stdin: [JSON.stringify] of a request
    object, or of the [notifications/initialized] message. *)
Inductive Line :=
| RequestLine (id : Z) (method : string) (params : option JSON)
| NotificationLine (method : string).

Inductive ClientLog :=
| LogRequest (method : string)
| LogResponse (message : JSON)
| LogParseError (line : string).

(** The closure passed to [setTimeout] in [sendRequest]: it holds the
    request's [id], its [method] and the [reject] of its promise. *)
Record Timer := mkTimer {
  timer_id : Z;
  timer_method : string;
  timer_promise : nat
}.

(** The fields of the class. A promise is named by its allocation number;
    the [{ resolve, reject }] pair stored in [pendingRequests] is the
    promise it settles. [serverProcess] is [None] for [null], else the
    lines written to the child's stdin, oldest first. *)
Record MCPClient := mkMCPClient {
  serverProcess : option (list Line);
  messageId : Z;
  pendingRequests : gmap Z nat;
  buffer : string
}.

(** The client inside the event loop: [promises] counts the promises
    created by [sendRequest], [settled] lists the calls made to a
    [resolve] or a [reject] (oldest first), [timers] the timeouts set and
    not yet run, [logged] the calls to [log]. *)
Record Runtime := mkRuntime {
  client : MCPClient;
  promises : nat;
  settled : list (nat * Outcome);
  timers : list Timer;
  logged : list ClientLog
}.

(** [++n] on a JavaScript number: exact below 2^53, where adding one to
    a double stops changing it. *)
Definition js_incr (n : Z) : Z := if n <? 2 ^ 53 then n + 1 else n.

(** Truthiness of a parsed value ([None] is [undefined]). *)
Definition truthy_json (v : option JSON) : bool :=
  match v with
  | None => false
  | Some JNull => false
  | Some (JBool b) => b
  | Some (JNumber (Integer z)) => negb (z =? 0)
  | Some (JNumber (NonInteger _)) => true
  | Some (JString s) => negb (String.eqb s "")
  | Some (JArray _) => true
  | Some (JObject _) => true
  end.

(** The last field named [key] of an object literal, as [JSON.parse]
    keeps the last of duplicated keys. *)
Fixpoint lookup_field (key : string) (fields : list (string * JSON)) : option JSON :=
  match fields with
  | [] => None
  | (k, v) :: rest =>
      match lookup_field key rest with
      | Some later => Some later
      | None => if String.eqb k key then Some v else None
      end
  end.

(** [v.key] for the keys the client reads ([id], [error], [result],
    [message]), none of which a primitive or an array has: [None] when
    the access throws a TypeError ([v] is [null]), [Some None] when it
    yields [undefined]. *)
Definition get_property (v : JSON) (key : string) : option (option JSON) :=
  match v with
  | JNull => None
  | JObject fields => Some (lookup_field key fields)
  | _ => Some None
  end.

(** The key of [pendingRequests] a value is equal to, if any: the table
    is keyed by the integers [sendRequest] issued. *)
Definition key_of (v : JSON) : option Z :=
  match v with
  | JNumber (Integer z) => Some z
  | _ => None
  end.

(** [s.split('\n')]: never empty. *)
Fixpoint split_newline (s : string) : list string :=
  match s with
  | EmptyString => [EmptyString]
  | String c rest =>
      if Ascii.eqb c "010" then EmptyString :: split_newline rest
      else match split_newline rest with
           | l :: ls => String c l :: ls
           | [] => [String c EmptyString]
           end
  end.

(** The white space of ECMAScript that [trim] removes, on the UTF-8
    bytes of the text: TAB, LF, VT, FF, CR and SP; U+00A0; U+1680,
    U+2000 to U+200A, U+2028, U+2029, U+202F, U+205F, U+3000 and U+FEFF. *)
Definition is_whitespace (c : ascii) : bool :=
  let n := nat_of_ascii c in
  ((9 <=? n)%nat && (n <=? 13)%nat) || (n =? 32)%nat.

Definition two_byte_space (c1 c2 : ascii) : bool :=
  (nat_of_ascii c1 =? 194)%nat && (nat_of_ascii c2 =? 160)%nat.

Definition three_byte_space (c1 c2 c3 : ascii) : bool :=
  let a := nat_of_ascii c1 in
  let b := nat_of_ascii c2 in
  let c := nat_of_ascii c3 in
  ((a =? 225) && (b =? 154) && (c =? 128))%nat
  || ((a =? 226) && (b =? 128)
      && (((128 <=? c) && (c <=? 138)) || (c =? 168) || (c =? 169) || (c =? 175)))%nat
  || ((a =? 226) && (b =? 129) && (c =? 159))%nat
  || ((a =? 227) && (b =? 128) && (c =? 128))%nat
  || ((a =? 239) && (b =? 187) && (c =? 191))%nat.

(** [!line.trim()] *)
Fixpoint is_blank (s : string) : bool :=
  match s with
  | EmptyString => true
  | String c1 rest1 =>
      if is_whitespace c1 then is_blank rest1
      else
        match rest1 with
        | String c2 rest2 =>
            if two_byte_space c1 c2 then is_blank rest2
            else
              match rest2 with
              | String c3 rest3 =>
                  if three_byte_space c1 c2 c3 then is_blank rest3 else false
              | EmptyString => false
              end
        | EmptyString => false
        end
  end.

Definition log (l : ClientLog) (rt : Runtime) : Runtime :=
  mkRuntime (client rt) (promises rt) (settled rt) (timers rt) (logged rt ++ [l]).

Definition settle (p : nat) (o : Outcome) (rt : Runtime) : Runtime :=
  mkRuntime (client rt) (promises rt) (settled rt ++ [(p, o)]) (timers rt) (logged rt).

Definition set_pending (m : gmap Z nat) (rt : Runtime) : Runtime :=
  let c := client rt in
  mkRuntime (mkMCPClient (serverProcess c) (messageId c) m (buffer c))
    (promises rt) (settled rt) (timers rt) (logged rt).

Definition set_buffer (b : string) (rt : Runtime) : Runtime :=
  let c := client rt in
  mkRuntime (mkMCPClient (serverProcess c) (messageId c) (pendingRequests c) b)
    (promises rt) (settled rt) (timers rt) (logged rt).

(** [this.serverProcess?.stdin?.write(line)] *)
Definition write_stdin (l : Line) (rt : Runtime) : Runtime :=
  let c := client rt in
  mkRuntime
    (mkMCPClient (option_map (fun lines => lines ++ [l]) (serverProcess c))
       (messageId c) (pendingRequests c) (buffer c))
    (promises rt) (settled rt) (timers rt) (logged rt).

(** [String(v)], as [new Error(v)] applies it to its argument; [false]
    when the conversion throws a TypeError. A parsed object converts (to
    ["[object Object]"]) unless it has a property of its own named
    [toString], which is then no function, and [valueOf] gives no
    primitive either; an array converts when each of its elements does,
    [null] giving the empty string; a primitive always converts. *)
Fixpoint convertible (v : JSON) : bool :=
  match v with
  | JObject fields =>
      match lookup_field "toString" fields with
      | Some _ => false
      | None => true
      end
  | JArray items => forallb convertible items
  | _ => true
  end.

(** [new Error(message.error.message || JSON.stringify(message.error))]
    for a truthy [message.error]; [None] when the constructor throws,
    which it does on a truthy [message] that does not convert to a
    string. *)
Definition remote_reason (error : JSON) : option Reason :=
  match get_property error "message" with
  | Some (Some m) =>
      if truthy_json (Some m) then
        if convertible m then Some (RemoteMessage m) else None
      else Some (RemoteStringified error)
  | _ => Some (RemoteStringified error)
  end.

(** How a statement inside the [try] ends: normally, or by a throw that
    the [catch] receives; either way with the client as it then is. *)
Inductive Completion :=
| Completed (rt : Runtime)
| Threw (rt : Runtime).

(** The statement
    [if (message.id !== undefined && this.pendingRequests.has(message.id)) {...}]
    of [processBuffer]. It throws at its first property access when the
    message is [null], and, with the entry already deleted, when the
    error of the message cannot be made. *)
Definition dispatch (message : JSON) (rt : Runtime) : Completion :=
  match get_property message "id" with
  | None => Threw rt
  | Some id =>
      match id ≫= key_of with
      | None => Completed rt
      | Some k =>
          match pendingRequests (client rt) !! k with
          | None => Completed rt
          | Some p =>
              let rt := set_pending (delete k (pendingRequests (client rt))) rt in
              let error := mjoin (get_property message "error") in
              if truthy_json error then
                match error ≫= remote_reason with
                | Some reason => Completed (settle p (Rejected reason) rt)
                | None => Threw rt
                end
              else
                Completed
                  (settle p (Resolved (mjoin (get_property message "result"))) rt)
          end
      end
  end.

Section MCPClient.
Context `{Platform}.

(** The body of the [for (const line of lines)] loop *)
Definition processLine (rt : Runtime) (line : string) : Runtime :=
  if is_blank line then rt
  else
    match JSON_parse line with
    | None => log (LogParseError line) rt
    | Some message =>
        match dispatch message (log (LogResponse message) rt) with
        | Completed rt' => rt'
        | Threw rt' => log (LogParseError line) rt'
        end
    end.

Definition processBuffer (rt : Runtime) : Runtime :=
  let lines := split_newline (buffer (client rt)) in
  let rt := set_buffer (default "" (last lines)) rt in
  fold_left processLine (removelast lines) rt.

(** The ['data'] listener of the child's stdout; [data] is the text of
    the chunk, [data.toString()]. *)
Definition onData (data : string) (rt : Runtime) : Runtime :=
  processBuffer (set_buffer (buffer (client rt) +:+ data) rt).

End MCPClient.

Definition sendRequest (method : string) (params : option JSON) (rt : Runtime) : Runtime :=
  let c := client rt in
  let p := promises rt in
  let id := js_incr (messageId c) in
  let rt :=
    mkRuntime
      (mkMCPClient (serverProcess c) id (<[id := p]> (pendingRequests c)) (buffer c))
      (S p) (settled rt) (timers rt) (logged rt) in
  let rt := log (LogRequest method) rt in
  let rt := write_stdin (RequestLine id method params) rt in
  mkRuntime (client rt) (promises rt) (settled rt)
    (timers rt ++ [mkTimer id method p]) (logged rt).

(** The callback given to [setTimeout] *)
Definition timeoutCallback (t : Timer) (rt : Runtime) : Runtime :=
  match pendingRequests (client rt) !! timer_id t with
  | Some _ =>
      let rt := set_pending (delete (timer_id t) (pendingRequests (client rt))) rt in
      settle (timer_promise t)
        (Rejected (RequestTimeout ("Request timeout for method: " +:+ timer_method t)))
        rt
  | None => rt
  end.

(** The event loop runs the [n]-th waiting timer, if there is one. *)
Definition fireTimer (n : nat) (rt : Runtime) : Runtime :=
  match timers rt !! n with
  | Some t =>
      timeoutCallback t
        (mkRuntime (client rt) (promises rt) (settled rt)
           (take n (timers rt) ++ drop (S n) (timers rt)) (logged rt))
  | None => rt
  end.

Definition disconnect (rt : Runtime) : Runtime :=
  let c := client rt in
  mkRuntime (mkMCPClient None (messageId c) (pendingRequests c) (buffer c))
    (promises rt) (settled rt) (timers rt) (logged rt).

(** [spawn(...)] in [connect] *)
Definition spawn (rt : Runtime) : Runtime :=
  let c := client rt in
  mkRuntime (mkMCPClient (Some []) (messageId c) (pendingRequests c) (buffer c))
    (promises rt) (settled rt) (timers rt) (logged rt).

(** The second half of [initialize]: the notification, with no id. *)
Definition notifyInitialized (rt : Runtime) : Runtime :=
  write_stdin (NotificationLine "notifications/initialized") rt.

(** What can happen to a client: the child is spawned, [sendRequest] is
    called, the notification is sent, a chunk arrives on the child's
    stdout, a timer runs, [disconnect] is called. *)
Inductive Event :=
| Spawn
| Request (method : string) (params : option JSON)
| Notify
| Data (chunk : string)
| TimerFires (n : nat)
| Disconnect.

Definition step `{Platform} (rt : Runtime) (e : Event) : Runtime :=
  match e with
  | Spawn => spawn rt
  | Request method params => sendRequest method params rt
  | Notify => notifyInitialized rt
  | Data chunk => onData chunk rt
  | TimerFires n => fireTimer n rt
  | Disconnect => disconnect rt
  end.

Definition run `{Platform} (rt : Runtime) (es : list Event) : Runtime :=
  fold_left step es rt.

(** [new MCPClient()] *)
Definition newClient : Runtime :=
  mkRuntime (mkMCPClient None 0 ∅ "") 0 [] [] [].

(** ** What an observer of the client sees *)

(** The methods of the requests made so far, in call order. *)
Definition requested (rt : Runtime) : list string :=
  omap (fun l => match l with LogRequest m => Some m | _ => None end) (logged rt).

(** The messages the framer handed over, and the lines it rejected. *)
Definition responses (rt : Runtime) : list JSON :=
  omap (fun l => match l with LogResponse m => Some m | _ => None end) (logged rt).

Definition parse_errors (rt : Runtime) : list string :=
  omap (fun l => match l with LogParseError s => Some s | _ => None end) (logged rt).

(** The outcomes delivered to the promise [p], oldest first. *)
Definition outcomes (p : nat) (rt : Runtime) : list Outcome :=
  omap (fun s => if decide (fst s = p) then Some (snd s) else None) (settled rt).

(** The id [sendRequest] gives to its [p]-th call, counting from 0. *)
Definition request_id (p : nat) : Z := Z.of_nat p + 1.

(** The timeout of the promise [p] has not run yet. *)
Definition waiting (p : nat) (rt : Runtime) : Prop :=
  exists t, t ∈ timers rt /\ timer_promise t = p.

(** The text of the error a request for [method] times out with. *)
Definition timeout_text (method : string) : string :=
  "Request timeout for method: " +:+ method.

(** Nothing can settle the promise [p] any more: it has no outcome, and
    no entry of the table and no waiting timer is its own. *)
Definition abandoned (p : nat) (rt : Runtime) : Prop :=
  (p < promises rt)%nat
  /\ outcomes p rt = []
  /\ (forall k, pendingRequests (client rt) !! k <> Some p)
  /\ (forall t, t ∈ timers rt -> timer_promise t <> p).

(** The key of the pending table that a parsed message names, if any. *)
Definition named_key (message : JSON) : option Z :=
  match get_property message "id" with
  | Some (Some v) => key_of v
  | _ => None
  end.

(** The error of the message is truthy and [new Error(...)] throws on
    it. *)
Definition error_unmakeable (message : JSON) : bool :=
  match mjoin (get_property message "error") with
  | Some error =>
      truthy_json (Some error)
      && match remote_reason error with
         | Some _ => false
         | None => true
         end
  | None => false
  end.

(** The request of the promise [p] was dropped: a message naming its id
    was handed over whose error could not be made. *)
Definition dropped (p : nat) (rt : Runtime) : Prop :=
  exists message,
    LogResponse message ∈ logged rt
    /\ named_key message = Some (request_id p)
    /\ error_unmakeable message = true.

(** What holds of a client while its counter is exact: the counter is
    the number of calls; an entry of the table and a waiting timer belong
    to the call whose id they carry; an outcome was delivered to a call
    made, a timeout naming the method of that call; and each call has
    one outcome and no entry, or no outcome, its entry, and its timer
    waiting, or, once dropped, neither an outcome nor an entry. *)
Record consistent (rt : Runtime) : Prop := mkConsistent {
  counter_exact : messageId (client rt) = Z.of_nat (promises rt);
  requested_all : length (requested rt) = promises rt;
  pending_own :
    forall k p, pendingRequests (client rt) !! k = Some p ->
                k = request_id p /\ (p < promises rt)%nat;
  timers_own :
    forall t, t ∈ timers rt ->
              timer_id t = request_id (timer_promise t)
              /\ requested rt !! timer_promise t = Some (timer_method t);
  settled_own :
    forall p o, (p, o) ∈ settled rt ->
                (p < promises rt)%nat
                /\ forall text, o = Rejected (RequestTimeout text) ->
                                exists method, requested rt !! p = Some method
                                               /\ text = timeout_text method;
  settled_once :
    forall p, (p < promises rt)%nat ->
              ((exists o, outcomes p rt = [o])
               /\ pendingRequests (client rt) !! request_id p = None)
              \/ (outcomes p rt = []
                  /\ pendingRequests (client rt) !! request_id p = Some p
                  /\ waiting p rt)
              \/ (outcomes p rt = []
                  /\ pendingRequests (client rt) !! request_id p = None
                  /\ dropped p rt)
}.


(** What one complete line contributes to [responses]. *)
Definition emitted `{Platform} (line : string) : option JSON :=
  if is_blank line then None else JSON_parse line.

(** The line is logged as a parse error whatever the pending table holds:
    it is not blank and does not parse, or parses to [null]. *)
Definition rejected `{Platform} (line : string) : option string :=
  if is_blank line then None
  else match JSON_parse line with
       | None => Some line
       | Some JNull => Some line
       | Some _ => None
       end.

(** The two chunks of the scenario,
    [{"jsonrpc":"2.0","id":1,"resu] and [lt":5}\n], the line they make,
    and the message it denotes. *)
Definition dq : string := String "034" EmptyString.

Definition first_chunk : string :=
  "{" +:+ dq +:+ "jsonrpc" +:+ dq +:+ ":" +:+ dq +:+ "2.0" +:+ dq +:+ ","
  +:+ dq +:+ "id" +:+ dq +:+ ":1," +:+ dq +:+ "resu".

Definition second_chunk : string := "lt" +:+ dq +:+ ":5}" +:+ newline.

Definition scenario_line : string :=
  first_chunk +:+ "lt" +:+ dq +:+ ":5}".

Definition scenario_message : JSON :=
  JObject [("jsonrpc", JString "2.0"); ("id", JNumber (Integer 1));
           ("result", JNumber (Integer 5))].

(** ** A runtime to execute the model on: ISO-8601 dates in UTC and a
    JSON reader for ASCII text (no [\u] escapes). The theorems below hold
    for every [Platform]; this one serves to run the code on concrete
    inputs. *)
Module Reference.

Definition is_digit (c : ascii) : bool :=
  let n := nat_of_ascii c in (48 <=? n)%nat && (n <=? 57)%nat.

Definition digit_value (c : ascii) : Z := Z.of_nat (nat_of_ascii c) - 48.

(** Exactly [n] decimal digits at the head of [s]: their value and the
    rest of [s]. *)
Fixpoint read_digits (n : nat) (acc : Z) (s : string) : option (Z * string) :=
  match n with
  | O => Some (acc, s)
  | S n' =>
      match s with
      | String c rest =>
          if is_digit c then read_digits n' (10 * acc + digit_value c) rest else None
      | EmptyString => None
      end
  end.

Definition expect (c : ascii) (s : string) : option string :=
  match s with
  | String c' rest => if Ascii.eqb c c' then Some rest else None
  | EmptyString => None
  end.

(** Days since 1970-01-01 of a date of the proleptic Gregorian calendar,
    and back. *)
Definition days_from_civil (y m d : Z) : Z :=
  let y := if m <=? 2 then y - 1 else y in
  let era := y / 400 in
  let yoe := y - era * 400 in
  let doy := (153 * (if 2 <? m then m - 3 else m + 9) + 2) / 5 + d - 1 in
  let doe := yoe * 365 + yoe / 4 - yoe / 100 + doy in
  era * 146097 + doe - 719468.

Definition civil_from_days (z : Z) : Z * Z * Z :=
  let z := z + 719468 in
  let era := z / 146097 in
  let doe := z - era * 146097 in
  let yoe := (doe - doe / 1460 + doe / 36524 - doe / 146096) / 365 in
  let doy := doe - (365 * yoe + yoe / 4 - yoe / 100) in
  let mp := (5 * doy + 2) / 153 in
  let d := doy - (153 * mp + 2) / 5 + 1 in
  let m := if mp <? 10 then mp + 3 else mp - 9 in
  (if m <=? 2 then yoe + era * 400 + 1 else yoe + era * 400, m, d).

(** [YYYY-MM-DDTHH:mm:ssZ], with or without [.sss] before the [Z]. *)
Definition iso_parse (s : string) : option Z :=
  '(y, s) ← read_digits 4 0 s;
  s ← expect "-" s;
  '(m, s) ← read_digits 2 0 s;
  s ← expect "-" s;
  '(d, s) ← read_digits 2 0 s;
  s ← expect "T" s;
  '(hh, s) ← read_digits 2 0 s;
  s ← expect ":" s;
  '(mm, s) ← read_digits 2 0 s;
  s ← expect ":" s;
  '(ss, s) ← read_digits 2 0 s;
  '(ms, s) ← match expect "." s with
              | Some s' => read_digits 3 0 s'
              | None => Some (0, s)
              end;
  s ← expect "Z" s;
  if String.eqb s "" then
    if (1 <=? m) && (m <=? 12) && (1 <=? d) && (d <=? 31)
       && (hh <=? 23) && (mm <=? 59) && (ss <=? 59)
    then Some (days_from_civil y m d * day_ms
               + hh * 3600000 + mm * 60000 + ss * 1000 + ms)
    else None
  else None.

(** [n] written with at least [width] digits. *)
Definition pad (width : nat) (n : Z) : string :=
  let digits := pretty (Z.to_N n) in
  String.concat "" (replicate (width - String.length digits) "0") +:+ digits.

Definition iso_print (t : Z) : string :=
  let '(y, m, d) := civil_from_days (t / day_ms) in
  let r := t mod day_ms in
  pad 4 y +:+ "-" +:+ pad 2 m +:+ "-" +:+ pad 2 d +:+ "T"
  +:+ pad 2 (r / 3600000) +:+ ":" +:+ pad 2 (r / 60000 mod 60) +:+ ":"
  +:+ pad 2 (r / 1000 mod 60) +:+ "." +:+ pad 3 (r mod 1000) +:+ "Z".

(** Midnight of the day of [t], for a machine whose time zone is UTC. *)
Definition utc_midnight (t : Z) : Z := t - t mod day_ms.

Fixpoint skip_ws (s : string) : string :=
  match s with
  | String c rest =>
      let n := nat_of_ascii c in
      if (n =? 32)%nat || (n =? 9)%nat || (n =? 10)%nat || (n =? 13)%nat
      then skip_ws rest else s
  | EmptyString => s
  end.

(** A run of digits at the head of [s]: the digits and the rest. *)
Fixpoint span_digits (s : string) : string * string :=
  match s with
  | String c rest =>
      if is_digit c then
        let '(ds, rest') := span_digits rest in (String c ds, rest')
      else (EmptyString, s)
  | EmptyString => (EmptyString, s)
  end.

Fixpoint digits_value (acc : Z) (s : string) : Z :=
  match s with
  | String c rest => digits_value (10 * acc + digit_value c) rest
  | EmptyString => acc
  end.

(** A JSON number at the head of [s]. *)
Definition read_number (s : string) : option (number * string) :=
  let '(neg, s1) := match expect "-" s with
                    | Some s' => (true, s')
                    | None => (false, s)
                    end in
  let '(int, s2) := span_digits s1 in
  if String.eqb int "" then None
  else if (1 <? String.length int)%nat && String.prefix "0" int then None
  else
    let '(frac, s3) :=
      match expect "." s2 with
      | Some s' => let '(f, r) := span_digits s' in (Some f, r)
      | None => (None, s2)
      end in
    let '(exp, s4) :=
      match s3 with
      | String c rest =>
          if Ascii.eqb c "e" || Ascii.eqb c "E" then
            let '(eneg, r1) :=
              match rest with
              | String sign r =>
                  if Ascii.eqb sign "-" then (true, r)
                  else if Ascii.eqb sign "+" then (false, r)
                  else (false, rest)
              | EmptyString => (false, rest)
              end in
            let '(e, r2) := span_digits r1 in
            (Some (if eneg then - digits_value 0 e else digits_value 0 e, e), r2)
          else (None, s3)
      | EmptyString => (None, s3)
      end in
    match frac, exp with
    | Some EmptyString, _ => None
    | _, Some (_, EmptyString) => None
    | _, _ =>
        let f := default "" frac in
        let e := default 0 (fst <$> exp) in
        let mantissa := digits_value 0 (int +:+ f) in
        let shift := e - Z.of_nat (String.length f) in
        let signed (v : Z) := if neg then - v else v in
        let literal :=
          String.substring 0 (String.length s - String.length s4) s in
        if 0 <=? shift then Some (Integer (signed (mantissa * 10 ^ shift)), s4)
        else if mantissa mod 10 ^ (- shift) =? 0
             then Some (Integer (signed (mantissa / 10 ^ (- shift))), s4)
             else Some (NonInteger literal, s4)
    end.

(** The characters of a string literal after its opening quote, up to
    the closing one; escapes other than [\u] are decoded. *)
Fixpoint read_string (s : string) : option (string * string) :=
  match s with
  | EmptyString => None
  | String c rest =>
      let n := nat_of_ascii c in
      if (n =? 34)%nat then Some (EmptyString, rest)
      else if (n <? 32)%nat then None
      else if (n =? 92)%nat then
        match rest with
        | String e rest' =>
            let k := nat_of_ascii e in
            let decoded :=
              if (k =? 34)%nat || (k =? 92)%nat || (k =? 47)%nat then Some e
              else if (k =? 98)%nat then Some "008"%char
              else if (k =? 102)%nat then Some "012"%char
              else if (k =? 110)%nat then Some "010"%char
              else if (k =? 114)%nat then Some "013"%char
              else if (k =? 116)%nat then Some "009"%char
              else None in
            match decoded, read_string rest' with
            | Some d, Some (body, after) => Some (String d body, after)
            | _, _ => None
            end
        | EmptyString => None
        end
      else
        match read_string rest with
        | Some (body, after) => Some (String c body, after)
        | None => None
        end
  end.

(** A JSON value at the head of [s] (after white space), the elements of
    an array after its first, and the members of an object after its
    first; [fuel] bounds the nesting and the number of items. *)
Fixpoint read_value (fuel : nat) (s : string) : option (JSON * string) :=
  match fuel with
  | O => None
  | S fuel =>
      let s := skip_ws s in
      if String.prefix "null" s then Some (JNull, String.substring 4 (String.length s) s)
      else if String.prefix "true" s
           then Some (JBool true, String.substring 4 (String.length s) s)
      else if String.prefix "false" s
           then Some (JBool false, String.substring 5 (String.length s) s)
      else
        match s with
        | EmptyString => None
        | String c rest =>
            let n := nat_of_ascii c in
            if (n =? 34)%nat then
              '(body, after) ← read_string rest; Some (JString body, after)
            else if (n =? 91)%nat then
              match skip_ws rest with
              | String c' after =>
                  if Ascii.eqb c' "]" then Some (JArray [], after)
                  else
                    '(v, after) ← read_value fuel rest;
                    '(vs, after) ← read_elements fuel after;
                    Some (JArray (v :: vs), after)
              | EmptyString => None
              end
            else if (n =? 123)%nat then
              match skip_ws rest with
              | String c' after =>
                  if Ascii.eqb c' "}" then Some (JObject [], after)
                  else
                    '(kv, after) ← read_member fuel rest;
                    '(kvs, after) ← read_members fuel after;
                    Some (JObject (kv :: kvs), after)
              | EmptyString => None
              end
            else
              '(x, after) ← read_number s; Some (JNumber x, after)
        end
  end
with read_elements (fuel : nat) (s : string) : option (list JSON * string) :=
  match fuel with
  | O => None
  | S fuel =>
      match skip_ws s with
      | String c rest =>
          if Ascii.eqb c "]" then Some ([], rest)
          else if Ascii.eqb c "," then
            '(v, after) ← read_value fuel rest;
            '(vs, after) ← read_elements fuel after;
            Some (v :: vs, after)
          else None
      | EmptyString => None
      end
  end
with read_member (fuel : nat) (s : string) : option ((string * JSON) * string) :=
  match fuel with
  | O => None
  | S fuel =>
      match skip_ws s with
      | String c rest =>
          if (nat_of_ascii c =? 34)%nat then
            '(key, after) ← read_string rest;
            after ← expect ":" (skip_ws after);
            '(v, after) ← read_value fuel after;
            Some ((key, v), after)
          else None
      | EmptyString => None
      end
  end
with read_members (fuel : nat) (s : string) : option (list (string * JSON) * string) :=
  match fuel with
  | O => None
  | S fuel =>
      match skip_ws s with
      | String c rest =>
          if Ascii.eqb c "}" then Some ([], rest)
          else if Ascii.eqb c "," then
            '(kv, after) ← read_member fuel rest;
            '(kvs, after) ← read_members fuel after;
            Some (kv :: kvs, after)
          else None
      | EmptyString => None
      end
  end.

(** The whole of [s] read as one JSON value. *)
Definition json_parse (s : string) : option JSON :=
  '(v, rest) ← read_value (S (String.length s)) s;
  if String.eqb (skip_ws rest) "" then Some v else None.

#[export] Instance platform : Platform := {
  Date_parse := iso_parse;
  toISOString := iso_print;
  startOfLocalDay := utc_midnight;
  JSON_parse := json_parse
}.

End Reference.

(** ** A runtime in a time zone that changes its clock: Central European
    time in the autumn of 2026 *)
Module Berlin.

(** 2026-10-25T01:00:00Z, when the clocks go back from 03:00 to 02:00:
    local time is two hours ahead of UTC before it, one hour from then
    on. *)
Definition change : Z := 1792890000000.

Definition hour_ms : Z := 60 * 60 * 1000.

Definition offset (t : Z) : Z := if t <? change then 2 * hour_ms else hour_ms.

(** [new Date(d.getFullYear(), d.getMonth(), d.getDate()).getTime()] for
    [d = new Date(t)]: the instant at which the local date of [t]
    began. *)
Definition local_midnight (t : Z) : Z :=
  let wall := t + offset t in
  let wall_midnight := wall - wall mod day_ms in
  if wall_midnight - 2 * hour_ms <? change then wall_midnight - 2 * hour_ms
  else wall_midnight - hour_ms.

Definition platform : Platform := {|
  Date_parse := Reference.iso_parse;
  toISOString := Reference.iso_print;
  startOfLocalDay := local_midnight;
  JSON_parse := Reference.json_parse
|}.

(** Noon of 2026-10-25 in Berlin, 11:00 UTC; a task due at 23:30 of that
    day in Berlin, 22:30 UTC; a store holding that task, whose clock
    stays at that noon. *)
Definition noon : Z := 1792926000000.

Definition fixed (n : nat) : Z := noon.

Definition late_task : Task :=
  mkTask "1" (Some "X") None high (Some pending)
    (Some "2026-10-25T22:30:00Z") None
    "2026-10-01T00:00:00.000Z" "2026-10-01T00:00:00.000Z".

Definition store : State :=
  mkState []
    (mkWorld (Some (Document (mkTasksData [late_task] ""))) true fixed 0 [] []).

End Berlin.

(** ** Concrete states and runs *)
Module Sample.

(** 2026-11-02T16:00:00.000Z, a clock that advances by a millisecond at
    each reading, and one that is read twice within a millisecond. *)
Definition today : Z := 1793635200000.

Definition ticking (n : nat) : Z := today + Z.of_nat n.

Definition frozen (n : nat) : Z := today.

Definition old_task : Task :=
  mkTask "1" (Some "X") None high (Some pending)
    (Some "2020-01-01T00:00:00Z") None
    "2019-12-01T00:00:00.000Z" "2019-12-01T00:00:00.000Z".

Definition document : TasksData :=
  mkTasksData [old_task] "2019-12-01T00:00:00.000Z".

(** A store before its first load, the same store with the document in
    memory, and that one on a file system that refuses to write. *)
Definition on_disk : State :=
  mkState [] (mkWorld (Some (Document document)) true ticking 0 [] []).

Definition loaded : State :=
  mkState [old_task] (mkWorld (Some (Document document)) true ticking 0 [] []).

Definition read_only : State :=
  mkState [old_task] (mkWorld (Some (Document document)) false ticking 0 [] []).

Definition input : TaskInput :=
  mkTaskInput (Some "X") None high (Some pending) None None.

(** An empty store whose clock stays within one millisecond. *)
Definition quick : State :=
  mkState [] (mkWorld (Some (Document (mkTasksData [] ""))) true frozen 0 [] []).

(** A task whose document says it was created in 2030. *)
Definition future_task : Task :=
  mkTask "1" (Some "X") None high (Some pending) None None
    "2030-01-01T00:00:00.000Z" "2030-01-01T00:00:00.000Z".

Definition postdated : State :=
  mkState [future_task]
    (mkWorld (Some (Document (mkTasksData [future_task] ""))) true ticking 0 [] []).

(** [add_task] called with no arguments at all. *)
Definition bare_add : CallToolRequest := mkCallToolRequest "add_task" None.

(** A client that made one request, and a run in which the response
    arrives in two chunks before the timer of the request runs. *)
Definition asked : Runtime := sendRequest "tools/list" None (spawn newClient).

Definition answered : list Event :=
  [Spawn; Request "tools/list" None; Data first_chunk; Data second_chunk;
   TimerFires 0].

(** The line [{"id":1,"error":{"message":{"toString":1}}}], the message
    it denotes, and a run in which it answers the one request made,
    whose timer runs afterwards. *)
Definition unmakeable_line : string :=
  "{" +:+ dq +:+ "id" +:+ dq +:+ ":1," +:+ dq +:+ "error" +:+ dq +:+ ":{"
  +:+ dq +:+ "message" +:+ dq +:+ ":{" +:+ dq +:+ "toString" +:+ dq +:+ ":1}}}".

Definition unmakeable_message : JSON :=
  JObject [("id", JNumber (Integer 1));
           ("error",
            JObject [("message", JObject [("toString", JNumber (Integer 1))])])].

Definition lost : list Event :=
  [Spawn; Request "tools/list" None; Data (unmakeable_line +:+ newline);
   TimerFires 0].

End Sample.

(** ** More words about the task store *)

Section TaskStoreWords.
Context `{Platform}.

(** The task passes every predicate the filter gives: exact status, exact
    priority, tag membership, due at or before a bound, due at or after
    a bound. *)
Definition matches (filter : TaskFilter) (t : Task) : bool :=
  (match filter_status filter with
   | Some s => status_is s t
   | None => true
   end)
  && (match filter_priority filter with
      | Some p => bool_decide (priority t = p)
      | None => true
      end)
  && (if truthy (filter_tag filter) then
        match tags t, filter_tag filter with
        | Some l, Some tag => bool_decide (tag ∈ l)
        | _, _ => false
        end
      else true)
  && (if truthy (dueBefore filter) then
        truthy (dueDate t)
        && date_leb (dueDate t ≫= Date_parse) (dueBefore filter ≫= Date_parse)
      else true)
  && (if truthy (dueAfter filter) then
        truthy (dueDate t)
        && date_leb (dueAfter filter ≫= Date_parse) (dueDate t ≫= Date_parse)
      else true).

(** The file holds the collection that is in memory. *)
Definition written_through (st : State) : Prop :=
  exists stamp, disk (world st) = Some (Document (mkTasksData (tasks st) stamp)).

End TaskStoreWords.


(** ** More words about the tool handler *)

(** The cases of the [switch] that call only [getTasks], [getSummary] or
    [getTaskById]. *)
Definition reading_tools : list string :=
  [ "get_tasks"; "get_task_summary"; "get_task_by_id";
    "get_overdue_tasks"; "get_today_tasks" ].

(** Two states of the store that differ at most in the number of clock
    readings made. *)
Definition same_store (a b : State) : Prop :=
  tasks a = tasks b
  /\ disk (world a) = disk (world b)
  /\ writable (world a) = writable (world b)
  /\ console (world a) = console (world b)
  /\ written (world a) = written (world b).

(** [{ status: 'overdue' }] as the arguments of a call *)
Definition overdue_only : ToolArguments :=
  mkToolArguments None None None None (Some overdue) None None None.

(** ** More words about the client *)

(** The requests written to the child's stdin so far, oldest first, each
    with its id and its method. *)
Definition written_requests (rt : Runtime) : list (Z * string) :=
  omap (fun l => match l with
                 | RequestLine id method _ => Some (id, method)
                 | NotificationLine _ => None
                 end)
    (default [] (serverProcess (client rt))).



(** What holds of the requests on the wire: their ids increase, and each
    is the id of a call made, with the method of that call. *)
Definition wire_in_order (rt : Runtime) : Prop :=
  (forall i j a b,
     (i < j)%nat ->
     written_requests rt !! i = Some a ->
     written_requests rt !! j = Some b ->
     a.1 < b.1)
  /\ Forall (fun r => 1 <= r.1 <= messageId (client rt)
                      /\ requested rt !! Z.to_nat (r.1 - 1) = Some r.2)
       (written_requests rt).

(** ** agent.ts: [MCPClient.connect] and [MCPClient.initialize] *)

(** The [params] of the [initialize] request. *)
Definition initializeParams : JSON :=
  JObject [("protocolVersion", JString "2024-11-05");
           ("capabilities", JObject [("tools", JObject [])]);
           ("clientInfo", JObject [("name", JString "reminder-agent");
                                   ("version", JString "1.0.0")])].

(** What the promise of [connect] is rejected with: the error of the
    child's ['error'] event, or what [initialize] threw. *)
Inductive ConnectFailure :=
| ChildError (message : string)
| InitializeFailed (reason : Reason).

(** A call of the [resolve] or of the [reject] of the promise of
    [connect]; the promise takes the first. *)
Inductive ConnectCall :=
| ConnectResolve
| ConnectReject (failure : ConnectFailure).

(** A client inside [connect]: [startup] says that the timer of 500 ms
    has not run yet, [awaited] is the promise [initialize] is suspended
    on, [connect_calls] lists the calls made of [resolve] and [reject],
    oldest first. *)
Record Connecting := mkConnecting {
  runtime : Runtime;
  startup : bool;
  awaited : option nat;
  connect_calls : list ConnectCall
}.

(** The synchronous part of [connect]: the child is spawned, the
    listeners are registered and the timer is set. *)
Definition connect (rt : Runtime) : Connecting :=
  mkConnecting (spawn rt) true None [].

(** The callback of the timer up to its [await]: [initialize] makes its
    request and is suspended. *)
Definition startupCallback (c : Connecting) : Connecting :=
  mkConnecting (sendRequest "initialize" (Some initializeParams) (runtime c))
    false (Some (promises (runtime c))) (connect_calls c).

(** The rest of [initialize] and of the callback, run once the request is
    settled: the notification and [resolve()], or [reject(error)]. *)
Definition resumeInitialize (c : Connecting) : Connecting :=
  match awaited c with
  | Some p =>
      match outcomes p (runtime c) with
      | [] => c
      | Resolved _ :: _ =>
          mkConnecting (notifyInitialized (runtime c)) (startup c) None
            (connect_calls c ++ [ConnectResolve])
      | Rejected reason :: _ =>
          mkConnecting (runtime c) (startup c) None
            (connect_calls c ++ [ConnectReject (InitializeFailed reason)])
      end
  | None => c
  end.

(** What can happen during [connect]: the timer of 500 ms runs, the child
    emits ['error'], a chunk arrives on its stdout, the timer of a
    request runs. (A chunk on its stderr is only logged.) *)
Inductive ConnectEvent :=
| StartupTimer
| ChildFails (message : string)
| Stdout (chunk : string)
| RequestTimer (n : nat).

(** One turn of the event loop: the listener or callback, then the
    continuations that became ready. *)
Definition connect_step `{Platform} (c : Connecting) (e : ConnectEvent) : Connecting :=
  resumeInitialize
    match e with
    | StartupTimer => if startup c then startupCallback c else c
    | ChildFails message =>
        mkConnecting (runtime c) (startup c) (awaited c)
          (connect_calls c ++ [ConnectReject (ChildError message)])
    | Stdout chunk =>
        mkConnecting (onData chunk (runtime c)) (startup c) (awaited c)
          (connect_calls c)
    | RequestTimer n =>
        mkConnecting (fireTimer n (runtime c)) (startup c) (awaited c)
          (connect_calls c)
    end.

(** The calls the callback of the timer made on the promise of
    [connect]. *)
Definition verdicts (c : Connecting) : list ConnectCall :=
  List.filter
    (fun call => match call with
                 | ConnectReject (ChildError _) => false
                 | _ => true
                 end)
    (connect_calls c).

(** The two lines of the handshake. *)
Definition initialize_line : Line :=
  RequestLine 1 "initialize" (Some initializeParams).

Definition initialized_line : Line :=
  NotificationLine "notifications/initialized".

(** The four stages of a connection: before the timer; the request
    made and not settled; the request resolved, the notification sent
    and [resolve] called; the request rejected and [reject] called. *)
Definition before_startup (c : Connecting) : Prop :=
  startup c = true
  /\ awaited c = None
  /\ promises (runtime c) = 0%nat
  /\ serverProcess (client (runtime c)) = Some []
  /\ verdicts c = [].

Definition initializing (c : Connecting) : Prop :=
  awaited c = Some 0%nat
  /\ outcomes 0 (runtime c) = []
  /\ serverProcess (client (runtime c)) = Some [initialize_line]
  /\ verdicts c = [].

Definition connected (c : Connecting) (result : option JSON) : Prop :=
  awaited c = None
  /\ outcomes 0 (runtime c) = [Resolved result]
  /\ serverProcess (client (runtime c)) = Some [initialize_line; initialized_line]
  /\ verdicts c = [ConnectResolve].

Definition refused (c : Connecting) (reason : Reason) : Prop :=
  awaited c = None
  /\ outcomes 0 (runtime c) = [Rejected reason]
  /\ serverProcess (client (runtime c)) = Some [initialize_line]
  /\ verdicts c = [ConnectReject (InitializeFailed reason)].

Definition in_handshake (c : Connecting) : Prop :=
  consistent (runtime c)
  /\ (before_startup c
      \/ (startup c = false
          /\ promises (runtime c) = 1%nat
          /\ requested (runtime c) = ["initialize"]
          /\ (initializing c
              \/ (exists result, connected c result)
              \/ (exists reason, refused c reason)))).



(** What an [async] method of the client ends with when it throws: the
    reason its [sendRequest] was rejected with, which the [await]
    rethrows, or the TypeError of a property access on [undefined] or
    [null], or of a call of something that is no function. *)
Inductive Failure :=
| Passed (reason : Reason)
| TypeError.

(** [v || d] *)
Definition or_else (v : option JSON) (d : JSON) : JSON :=
  match v with
  | Some x => if truthy_json v then x else d
  | None => d
  end.

(** [result.key] on the value a request was resolved with; [None] when
    the access throws, on [undefined] and on [null]. The keys read below
    ([tools], [content], [text], [name], [description], [inputSchema])
    are, like those of [get_property], properties of no primitive and of
    no array. *)
Definition result_property (result : option JSON) (key : string)
    : option (option JSON) :=
  result ≫= fun r => get_property r key.

(** [item?.text] *)
Definition optional_text (item : option JSON) : option JSON :=
  item ≫= fun i => mjoin (get_property i "text").

(** [content?.[0]?.text]: the first element of an array, the property
    ["0"] of an object; the element of a string is a string, which has no
    [text], and a number or a boolean has no element. *)
Definition first_text (content : option JSON) : option JSON :=
  match content with
  | Some (JArray items) => optional_text (head items)
  | Some (JObject fields) => optional_text (lookup_field "0" fields)
  | _ => None
  end.

(** The two halves of [listTools] and of [callTool]: the request made,
    and what the method does once the request is settled. *)
Definition listTools (rt : Runtime) : Runtime :=
  sendRequest "tools/list" (Some (JObject [])) rt.

Definition listTools_resumed (o : Outcome) : Failure + JSON :=
  match o with
  | Rejected reason => inl (Passed reason)
  | Resolved result =>
      match result_property result "tools" with
      | None => inl TypeError
      | Some tools => inr (or_else tools (JArray []))
      end
  end.

Definition callTool (name : string) (args : JSON) (rt : Runtime) : Runtime :=
  sendRequest "tools/call"
    (Some (JObject [("name", JString name); ("arguments", args)])) rt.

Definition callTool_resumed (o : Outcome) : Failure + JSON :=
  match o with
  | Rejected reason => inl (Passed reason)
  | Resolved result =>
      match result_property result "content" with
      | None => inl TypeError
      | Some content => inr (or_else (first_text content) (JString ""))
      end
  end.

(** An element of [this.tools]:
    [{ type: 'function', function: { name, description, parameters } }] *)
Record CompletionTool := mkCompletionTool {
  tool_name : option JSON;
  tool_description : option JSON;
  tool_parameters : option JSON
}.

(** The callback of [mcpTools.map(...)] in [ReminderAgent.initialize];
    [None] when a property access throws. *)
Definition toCompletionTool (tool : JSON) : option CompletionTool :=
  name ← get_property tool "name";
  description ← get_property tool "description";
  parameters ← get_property tool "inputSchema";
  Some (mkCompletionTool name description parameters).

(** [mcpTools.map(...)]: only an array has a [map]. *)
Definition convertTools (mcpTools : JSON) : Failure + list CompletionTool :=
  match mcpTools with
  | JArray items =>
      match mapM toCompletionTool items with
      | Some tools => inr tools
      | None => inl TypeError
      end
  | _ => inl TypeError
  end.

(** [ReminderAgent.initialize] once [listTools] is settled. *)
Definition loadTools (o : Outcome) : Failure + list CompletionTool :=
  match listTools_resumed o with
  | inl failure => inl failure
  | inr mcpTools => convertTools mcpTools
  end.

(** ** agent.ts: class ReminderAgent, the tool loop *)

Module Agent.

(** An element of [message.tool_calls]: [{ id, function: { name, arguments } }] *)
Record ToolCall := mkToolCall {
  call_id : string;
  function_name : string;
  function_arguments : string
}.

(** [response.choices[i].message]; [message_content] is [None] for [null]. *)
Record AssistantMessage := mkAssistantMessage {
  message_content : option string;
  tool_calls : option (list ToolCall)
}.

(** A response of the chat completion API, by the messages of its
    [choices]. *)
Definition ChatCompletion : Type := list AssistantMessage.

(** What is thrown inside the [try] of the loop: the SyntaxError of
    [JSON.parse] on the arguments, or what [callTool] throws. *)
Inductive CallError :=
| ArgumentsSyntaxError (raw : string)
| CallFailed (failure : Failure).

(** The [content] of a tool message: what [callTool] returned, or the
    text made of the message of the error caught. *)
Inductive ToolContent :=
| Returned (v : JSON)
| ErrorText (e : CallError).

Inductive Message :=
| SystemMessage (text : string)
| UserMessage (text : string)
| AssistantTurn (message : AssistantMessage)
| ToolMessage (tool_call_id : string) (result : ToolContent).

(** The two services the loop awaits. [create n tools messages] is the
    answer of the [n]-th call of [openai.chat.completions.create], [None]
    when the call throws; [tool_outcome n name args] is how the request
    of the [n]-th [callTool] is settled, by a response or by its
    timer. *)
Record Services := mkServices {
  create : nat -> list CompletionTool -> list Message -> option ChatCompletion;
  tool_outcome : nat -> string -> JSON -> Outcome
}.

(** The agent between two steps: its tool table, and what it has done so
    far: the conversations sent to the model, the tool calls announced on
    the console and the calls made of [callTool], each oldest first. *)
Record Session := mkSession {
  tools : list CompletionTool;
  sent : list (list Message);
  announced : list string;
  called : list (string * JSON)
}.

Definition summaryPrompt : string :=
  "Ты - помощник по управлению задачами. У тебя есть доступ к инструментам для работы с задачами.

Твоя задача - предоставить краткую и информативную сводку по текущим задачам пользователя.

При создании сводки:
1. Сначала получи общую сводку через get_task_summary
2. Если есть просроченные или критические задачи - выдели их особо
3. Покажи задачи на сегодня
4. Дай краткие рекомендации по приоритетам

Отвечай на русском языке. Будь кратким, но информативным.".

Definition summaryQuestion : string :=
  "Пожалуйста, дай мне сводку по моим текущим задачам. Что срочно, что просрочено, на что обратить внимание?".

Definition chatPrompt : string :=
  "Ты - помощник по управлению задачами. У тебя есть доступ к инструментам для работы с задачами.
Отвечай на русском языке. Будь полезным и кратким.".

(** [response.choices[0]?.message?.tool_calls?.length]: the message and
    its calls when the length is truthy. *)
Definition requested_calls (response : ChatCompletion)
    : option (AssistantMessage * list ToolCall) :=
  match head response with
  | Some message =>
      match tool_calls message with
      | Some (toolCall :: rest) => Some (message, toolCall :: rest)
      | _ => None
      end
  | None => None
  end.

(** [response.choices[0]?.message?.content || fallback] *)
Definition answer (fallback : string) (response : ChatCompletion) : string :=
  match head response ≫= message_content with
  | Some text => if String.eqb text "" then fallback else text
  | None => fallback
  end.

(** How a call of [getSummary] or of [chat] ends: with the text it
    returns, or with what a call of the model threw. *)
Inductive Ending :=
| Answered (text : string)
| CreateFailed.

Section ReminderAgent.
Context `{Platform}.
Variable services : Services.

(** [await this.openai.chat.completions.create({ ..., tools: this.tools, messages })] *)
Definition complete (messages : list Message) (s : Session)
    : option ChatCompletion * Session :=
  (create services (length (sent s)) (tools s) messages,
   mkSession (tools s) (sent s ++ [messages]) (announced s) (called s)).

(** [JSON.parse(toolCall.function.arguments || '{}')], [None] when it
    throws. *)
Definition parsed_arguments (toolCall : ToolCall) : option JSON :=
  JSON_parse (if String.eqb (function_arguments toolCall) "" then "{}"
              else function_arguments toolCall).

(** The body of [for (const toolCall of assistantMessage.tool_calls!)]:
    the result pushed as the content of the tool message. *)
Definition runToolCall (toolCall : ToolCall) (s : Session) : ToolContent * Session :=
  let s :=
    mkSession (tools s) (sent s) (announced s ++ [function_name toolCall]) (called s) in
  let raw :=
    if String.eqb (function_arguments toolCall) "" then "{}"
    else function_arguments toolCall in
  match JSON_parse raw with
  | None => (ErrorText (ArgumentsSyntaxError raw), s)
  | Some args =>
      let outcome :=
        tool_outcome services (length (called s)) (function_name toolCall) args in
      let s :=
        mkSession (tools s) (sent s) (announced s)
          (called s ++ [(function_name toolCall, args)]) in
      match callTool_resumed outcome with
      | inr result => (Returned result, s)
      | inl failure => (ErrorText (CallFailed failure), s)
      end
  end.

Definition answerToolCalls (toolCalls : list ToolCall) (messages : list Message)
    (s : Session) : list Message * Session :=
  fold_left
    (fun acc toolCall =>
       let '(result, s) := runToolCall toolCall (snd acc) in
       (fst acc ++ [ToolMessage (call_id toolCall) result], s))
    toolCalls (messages, s).

(** The [while] loop, for at most [fuel] rounds; [None] when the model
    still asks for tools after them. *)
Fixpoint toolLoop (fuel : nat) (fallback : string) (messages : list Message)
    (response : ChatCompletion) (s : Session)
    : option (Ending * list Message * Session) :=
  match requested_calls response with
  | None => Some (Answered (answer fallback response), messages, s)
  | Some (assistantMessage, toolCalls) =>
      match fuel with
      | O => None
      | S fuel =>
          let messages := messages ++ [AssistantTurn assistantMessage] in
          let '(messages, s) := answerToolCalls toolCalls messages s in
          match complete messages s with
          | (Some response, s) => toolLoop fuel fallback messages response s
          | (None, s) => Some (CreateFailed, messages, s)
          end
      end
  end.

(** The common shape of [getSummary] and [chat] *)
Definition converse (fuel : nat) (fallback : string) (messages : list Message)
    (s : Session) : option (Ending * list Message * Session) :=
  match complete messages s with
  | (Some response, s) => toolLoop fuel fallback messages response s
  | (None, s) => Some (CreateFailed, messages, s)
  end.

Definition getSummary (fuel : nat) (s : Session)
    : option (Ending * list Message * Session) :=
  converse fuel "Не удалось получить сводку"
    [SystemMessage summaryPrompt; UserMessage summaryQuestion] s.

Definition chat (fuel : nat) (userMessage : string) (s : Session)
    : option (Ending * list Message * Session) :=
  converse fuel "Нет ответа"
    [SystemMessage chatPrompt; UserMessage userMessage] s.

End ReminderAgent.

(** Every assistant message is followed by one tool message for each of
    its calls, with the ids of the calls and in their order, and no tool
    message stands anywhere else; [expected] lists the ids still to be
    answered at the head of the conversation. *)
Fixpoint answered_from (expected : list string) (messages : list Message) : bool :=
  match messages with
  | [] => bool_decide (expected = [])
  | ToolMessage id _ :: rest =>
      match expected with
      | next :: later => bool_decide (id = next) && answered_from later rest
      | [] => false
      end
  | AssistantTurn message :: rest =>
      bool_decide (expected = [])
      && answered_from (call_id <$> default [] (tool_calls message)) rest
  | _ :: rest => bool_decide (expected = []) && answered_from [] rest
  end.

Definition well_answered (messages : list Message) : Prop :=
  answered_from [] messages = true.

End Agent.

(** ** More concrete states and runs *)
Module Example.

(** A store on a path that has no file yet. *)
Definition fresh : State :=
  mkState [] (mkWorld None true Sample.ticking 0 [] []).

(** A filter by status and priority, and one with a bound that is no
    date. *)
Definition high_overdue : TaskFilter :=
  mkTaskFilter (Some overdue) (Some high) None None None.

Definition due_before_soon : TaskFilter :=
  mkTaskFilter None None None (Some "soon") None.

(** [get_tasks] called with [{ status: 'overdue' }]. *)
Definition list_overdue : CallToolRequest :=
  mkCallToolRequest "get_tasks" (Some overdue_only).

(** The result of a tool call with one text, flagged as an error, and the
    result of a listing with one tool. *)
Definition tool_result : JSON :=
  JObject [("content", JArray [JObject [("type", JString "text");
                                        ("text", JString "Задача не найдена")]]);
           ("isError", JBool true)].

Definition listing : list (string * JSON) :=
  [("tools", JArray [JObject [("name", JString "get_task_summary");
                              ("description", JString "summary");
                              ("inputSchema", JObject [("type", JString "object")])]])].

(** A model that asks once for the summary tool, with no arguments, and
    answers after it; a server that answers every call with
    [tool_result]; an agent that has done nothing yet. *)
Definition summary_call : Agent.ToolCall :=
  Agent.mkToolCall "call_1" "get_task_summary" "".

Definition services : Agent.Services :=
  Agent.mkServices
    (fun n _ _ =>
       match n with
       | O => Some [Agent.mkAssistantMessage None (Some [summary_call])]
       | S _ => Some [Agent.mkAssistantMessage (Some "Five tasks.") None]
       end)
    (fun _ _ _ => Resolved (Some tool_result)).

Definition idle : Agent.Session := Agent.mkSession [] [] [] [].

(** A connection in which the answer to [initialize] arrives in two
    chunks after the timer of 500 ms has run. *)
Definition handshake : list ConnectEvent :=
  [StartupTimer; Stdout first_chunk; Stdout second_chunk].

End Example.
(** ** Proof tactics *)

(** Unfolds the monad of the store down to the state transformers. *)
Ltac unfold_store :=
  unfold mbind, M_bind, bind, mret, M_ret, ret, try_catch, throw,
    get_tasks, set_tasks, newDate, existsSync, readDocument, writeFileSync,
    console_error in *.

(** Decides the comparisons of the [switch] once the tool name is known. *)
Ltac pick_case :=
  cbv beta iota fix delta [String.eqb Ascii.eqb Bool.eqb].

(** Runs the store on a concrete state, leaving clock readings and their
    renderings as they are. *)
Ltac run_store :=
  lazy - [Sample.ticking Sample.frozen pretty Reference.iso_print]; reflexivity.

(** * Properties *)

(** ** Lookups that find nothing *)

Lemma find_task_absent (id : option string) (ts : list Task) :
  Forall (fun t => Some (task_id t) <> id) ts -> find_task id ts = None.
Proof.
  induction 1 as [|t ts Ht _ IH]; [reflexivity|].
  unfold find_task in *. simpl. unfold has_id at 1.
  rewrite bool_decide_eq_false_2 by assumption. exact IH.
Qed.

Lemma findIndex_absent (id : option string) (ts : list Task) :
  Forall (fun t => Some (task_id t) <> id) ts -> findIndex id ts = None.
Proof.
  induction 1 as [|t ts Ht _ IH]; [reflexivity|].
  simpl. unfold has_id at 1.
  rewrite bool_decide_eq_false_2 by assumption. now rewrite IH.
Qed.

Section TaskServiceFacts.
Context `{Platform}.

(** C7. Deleting an id that no task of the collection has returns [false],
    and updating the status of such an id returns [null] ("not found"); in
    both cases the whole state is the one before the call: the collection,
    the file, and the list of documents written. *)
Theorem missing_id_changes_nothing (st : State) (id : string) (s : option TaskStatus) :
  Forall (fun t => task_id t <> id) (tasks st) ->
  deleteTask (Some id) st = (inr false, st)
  /\ updateTaskStatus (Some id) s st = (inr None, st).
Proof.
  intros Hid.
  assert (Hid' : Forall (fun t => Some (task_id t) <> Some id) (tasks st)).
  { eapply Forall_impl; [exact Hid|]. intros t Ht; simpl in *. congruence. }
  split.
  - unfold deleteTask. unfold_store.
    now rewrite (findIndex_absent _ _ Hid').
  - unfold updateTaskStatus. unfold_store.
    now rewrite (find_task_absent _ _ Hid').
Qed.


(** ** The overdue derivation *)

Lemma forEachOverdue_map (now : Z) (ts : list Task) (flag : bool) :
  forEachOverdue now ts flag
  = (map (fun t => fst (overdueCallback now t)) ts,
     flag || existsb (fun t => snd (overdueCallback now t)) ts).
Proof.
  revert flag. induction ts as [|t ts IH]; intros flag; simpl.
  - now rewrite orb_false_r.
  - destruct (overdueCallback now t) as [t' changed]. rewrite IH. simpl.
    now rewrite orb_assoc.
Qed.

Lemma due_time_callback (t : Task) :
  due_time t = if truthy (dueDate t) then dueDate t ≫= Date_parse else None.
Proof. reflexivity. Qed.

Lemma falls_overdue_cases (now : Z) (t : Task) :
  falls_overdue now t \/ ~ falls_overdue now t.
Proof.
  unfold falls_overdue.
  destruct (decide (status t = Some completed)) as [Hc|Hc]; [right; tauto|].
  destruct (decide (status t = Some overdue)) as [Ho|Ho]; [right; tauto|].
  destruct (due_time t) as [due|]; [|right; intros [(x & Hx & _) _]; discriminate].
  destruct (Z.lt_ge_cases due now) as [Hlt|Hge].
  - left. split; [exists due; tauto|tauto].
  - right. intros [(x & Hx & Hlt) _]. injection Hx as ->. lia.
Qed.

Lemma overdueCallback_falls (now : Z) (t : Task) :
  falls_overdue now t ->
  overdueCallback now t = (with_status t (Some overdue) (toISOString now), true).
Proof.
  intros [(due & Hdue & Hlt) [Hc Ho]]. unfold overdueCallback, status_is.
  unfold due_time in Hdue. destruct (truthy (dueDate t)); [|discriminate].
  rewrite Hdue. simpl.
  rewrite (bool_decide_eq_false_2 _ Hc), (bool_decide_eq_false_2 _ Ho). simpl.
  now rewrite (proj2 (Z.ltb_lt due now) Hlt).
Qed.

Lemma overdueCallback_stays (now : Z) (t : Task) :
  ~ falls_overdue now t -> overdueCallback now t = (t, false).
Proof.
  intros Hn. unfold overdueCallback, status_is.
  destruct (truthy (dueDate t)) eqn:Htr; [|reflexivity].
  destruct (decide (status t = Some completed)) as [Hc|Hc].
  { now rewrite (bool_decide_eq_true_2 _ Hc). }
  rewrite (bool_decide_eq_false_2 _ Hc). simpl.
  destruct (decide (status t = Some overdue)) as [Ho|Ho].
  { rewrite (bool_decide_eq_true_2 _ Ho). simpl. now rewrite andb_false_r. }
  rewrite (bool_decide_eq_false_2 _ Ho). simpl. rewrite andb_true_r.
  destruct (dueDate t ≫= Date_parse) as [due|] eqn:Hdue; [|reflexivity].
  simpl. destruct (Z.ltb_spec due now) as [Hlt|Hge]; [|reflexivity].
  exfalso. apply Hn. split; [|split; assumption].
  exists due. split; [|assumption]. unfold due_time. now rewrite Htr.
Qed.

Lemma overdueCallback_derived (now : Z) (t : Task) :
  derived now t (fst (overdueCallback now t)).
Proof.
  split; intros Hf.
  - now rewrite (overdueCallback_falls _ _ Hf).
  - now rewrite (overdueCallback_stays _ _ Hf).
Qed.

Lemma overdueCallback_changed (now : Z) (t : Task) :
  snd (overdueCallback now t) = true <-> falls_overdue now t.
Proof.
  split.
  - intros Hc. destruct (falls_overdue_cases now t) as [Hf|Hf]; [assumption|].
    rewrite (overdueCallback_stays _ _ Hf) in Hc. discriminate.
  - intros Hf. now rewrite (overdueCallback_falls _ _ Hf).
Qed.


(** ** Running the operations of the store *)

Lemma saveTasks_run (st : State) :
  saveTasks st
  = if writable (world st) then
      (inr tt,
       mkState (tasks st)
         (store (mkTasksData (tasks st) (toISOString (current (world st))))
            (advance (world st))))
    else (inl WriteFailed, mkState (tasks st) (advance (world st))).
Proof. unfold saveTasks. unfold_store. simpl. reflexivity. Qed.

Lemma updateOverdueStatus_run (st : State) :
  updateOverdueStatus st
  = let now := current (world st) in
    let st1 :=
      mkState (map (fun t => fst (overdueCallback now t)) (tasks st))
        (advance (world st)) in
    if existsb (fun t => snd (overdueCallback now t)) (tasks st)
    then saveTasks st1 else (inr tt, st1).
Proof.
  unfold updateOverdueStatus. unfold_store. simpl.
  rewrite forEachOverdue_map. simpl.
  destruct (existsb _ (tasks st)); reflexivity.
Qed.

Lemma loadTasks_document (st : State) (d : TasksData) :
  disk (world st) = Some (Document d) ->
  loadTasks st
  = match updateOverdueStatus (mkState (data_tasks d) (world st)) with
    | (inr tt, st') => (inr tt, st')
    | (inl e, st') => (inr tt, mkState [] (report (LoadError e) (world st')))
    end.
Proof.
  intros Hd. unfold loadTasks. unfold_store. rewrite Hd. simpl. rewrite Hd.
  destruct (updateOverdueStatus _) as [[e|[]] st']; reflexivity.
Qed.


Lemma changed_iff_falls (now : Z) (ts : list Task) :
  existsb (fun t => snd (overdueCallback now t)) ts = true
  <-> Exists (falls_overdue now) ts.
Proof.
  induction ts as [|t ts IH]; simpl.
  - split; [discriminate|]. intros Hex. inversion Hex.
  - rewrite orb_true_iff, IH, overdueCallback_changed.
    split.
    + intros [Ht|Hts]; [now apply Exists_cons_hd|now apply Exists_cons_tl].
    + intros Hex. inversion Hex; subst; tauto.
Qed.

Lemma derived_map (now : Z) (ts : list Task) :
  Forall2 (derived now) ts (map (fun t => fst (overdueCallback now t)) ts).
Proof.
  induction ts as [|t ts IH]; simpl; constructor;
    [apply overdueCallback_derived|exact IH].
Qed.

Lemma derived_keeps_overdue (now : Z) (t t' : Task) :
  derived now t t' -> status t = Some overdue -> t' = t.
Proof.
  intros [_ Hstay] Ho. apply Hstay. intros (_ & _ & Hno). contradiction.
Qed.

(** C2. A load of an existing, readable document (and so each read, which
    reloads first) turns every task that has a due timestamp strictly
    before the clock reading, a status other than completed and not yet
    overdue into an overdue task whose [updatedAt] is that reading; every
    other task, every overdue one among them, is left as it is; when some
    task changed the whole collection is written once, and otherwise
    nothing is written. So a document task with id "1", status pending and
    dueDate 2020-01-01T00:00:00Z is overdue after the load, the clock being
    past that date. *)
Theorem load_derives_overdue (st : State) (d : TasksData) :
  disk (world st) = Some (Document d) ->
  writable (world st) = true ->
  let now := current (world st) in
  exists st',
    loadTasks st = (inr tt, st')
    /\ getAllTasks st = (inr (tasks st'), st')
    /\ Forall2 (derived now) (data_tasks d) (tasks st')
    /\ Forall2 (fun t t' => status t = Some overdue -> t' = t)
         (data_tasks d) (tasks st')
    /\ (Exists (falls_overdue now) (data_tasks d) ->
        exists stamp,
          written (world st')
          = written (world st) ++ [mkTasksData (tasks st') stamp]
          /\ disk (world st') = Some (Document (mkTasksData (tasks st') stamp)))
    /\ (~ Exists (falls_overdue now) (data_tasks d) ->
        written (world st') = written (world st)
        /\ disk (world st') = disk (world st))
    /\ (forall i t,
          data_tasks d !! i = Some t ->
          task_id t = "1" ->
          status t = Some pending ->
          dueDate t = Some "2020-01-01T00:00:00Z" ->
          Date_parse "2020-01-01T00:00:00Z" = Some 1577836800000 ->
          1577836800000 < now ->
          exists t', tasks st' !! i = Some t'
                     /\ task_id t' = "1" /\ status t' = Some overdue).
Proof.
  intros Hdisk Hw now.
  pose (ts' := map (fun t => fst (overdueCallback now t)) (data_tasks d)).
  assert (Hder : Forall2 (derived now) (data_tasks d) ts') by apply derived_map.
  assert (Hscen : forall i t,
          data_tasks d !! i = Some t ->
          task_id t = "1" ->
          status t = Some pending ->
          dueDate t = Some "2020-01-01T00:00:00Z" ->
          Date_parse "2020-01-01T00:00:00Z" = Some 1577836800000 ->
          1577836800000 < now ->
          exists t', ts' !! i = Some t'
                     /\ task_id t' = "1" /\ status t' = Some overdue).
  { intros i t Hi Hid Hst Hdue Hparse Hpast.
    destruct (Forall2_lookup_l _ _ _ _ _ Hder Hi) as (t' & Hi' & [Hfalls _]).
    exists t'. split; [exact Hi'|].
    rewrite Hfalls; [simpl; split; [exact Hid|reflexivity]|].
    split; [|split; rewrite Hst; discriminate].
    exists 1577836800000. split; [|exact Hpast].
    unfold due_time. rewrite Hdue. simpl. exact Hparse. }
  assert (Hkeep : Forall2 (fun t t' => status t = Some overdue -> t' = t)
                    (data_tasks d) ts').
  { eapply Forall2_impl; [exact Hder|]. intros t t'. apply derived_keeps_overdue. }
  assert (Hload : exists st',
    loadTasks st = (inr tt, st') /\ tasks st' = ts'
    /\ (Exists (falls_overdue now) (data_tasks d) ->
        exists stamp,
          written (world st') = written (world st) ++ [mkTasksData ts' stamp]
          /\ disk (world st') = Some (Document (mkTasksData ts' stamp)))
    /\ (~ Exists (falls_overdue now) (data_tasks d) ->
        written (world st') = written (world st)
        /\ disk (world st') = disk (world st))).
  { rewrite (loadTasks_document _ _ Hdisk), updateOverdueStatus_run. simpl.
    fold now. fold ts'.
    destruct (existsb _ (data_tasks d)) eqn:Hch.
    - rewrite saveTasks_run. simpl. rewrite Hw.
      eexists. split; [reflexivity|]. simpl. split; [reflexivity|]. split.
      + intros _. eexists. split; reflexivity.
      + intros Hno. exfalso. apply Hno. now apply changed_iff_falls.
    - eexists. split; [reflexivity|]. simpl. split; [reflexivity|]. split.
      + intros Hex. apply changed_iff_falls in Hex. fold now in Hex. congruence.
      + intros _. split; reflexivity. }
  destruct Hload as (st' & Hl & Hts & Hwr & Hnowr).
  exists st'. rewrite Hts.
  split; [exact Hl|]. split.
  { unfold getAllTasks, reloadTasks. unfold_store. rewrite Hl. simpl.
    now rewrite Hts. }
  repeat split; try assumption.
  - now apply Hnowr.
  - now apply Hnowr.
Qed.


(** ** Adding a task *)

Lemma addTask_run (st : State) (input : TaskInput) :
  addTask input st
  = let w2 := advance (advance (world st)) in
    let ts := tasks st ++ [added (world st) input] in
    if writable (world st) then
      (inr (added (world st) input),
       mkState ts (store (mkTasksData ts (toISOString (current w2))) (advance w2)))
    else (inl WriteFailed, mkState ts (advance w2)).
Proof.
  unfold addTask. unfold_store. simpl. rewrite saveTasks_run. simpl.
  destruct (writable (world st)); reflexivity.
Qed.

(** C4, amended. On a writable document, [addTask] returns the record it
    created: its id is the decimal rendering of the clock reading taken for
    it, its two timestamps are the ISO rendering of one clock reading, and
    the collection with the record at its end is written at once. The id
    differs from every existing id that renders a strictly earlier clock
    reading. An add_task call with title "X" and priority "high" returns
    that record with status pending. *)
Theorem add_creates_and_persists (st : State) (input : TaskInput) :
  writable (world st) = true ->
  let newTask := added (world st) input in
  exists st',
    addTask input st = (inr newTask, st')
    /\ task_id newTask = pretty (current (advance (world st)))
    /\ createdAt newTask = updatedAt newTask
    /\ createdAt newTask = toISOString (current (world st))
    /\ tasks st' = tasks st ++ [newTask]
    /\ (exists stamp,
          disk (world st') = Some (Document (mkTasksData (tasks st') stamp))
          /\ written (world st')
             = written (world st) ++ [mkTasksData (tasks st') stamp])
    /\ (Forall (fun old => exists r : Z, task_id old = pretty r
                                        /\ r < current (advance (world st)))
          (tasks st) ->
        Forall (fun old => task_id old <> task_id newTask) (tasks st))
    /\ (forall args,
          arg_title args = Some "X" ->
          arg_priority args = Some high ->
          exists t st'',
            callToolHandler (mkCallToolRequest "add_task" (Some args)) st
            = (inr (mkToolResult
                      [TxtJson ("Задача создана:" +:+ newline) (STask t)] None),
               st'')
            /\ title t = Some "X" /\ priority t = high
            /\ status t = Some pending /\ createdAt t = updatedAt t
            /\ tasks st'' = tasks st ++ [t]).
Proof.
  intros Hw newTask. rewrite addTask_run. simpl. rewrite Hw.
  eexists. split; [reflexivity|]. simpl.
  repeat split.
  - eexists. split; reflexivity.
  - intros Hold. eapply Forall_impl; [exact Hold|].
    intros old (r & Hr & Hlt) Heq. simpl in Heq. rewrite Hr in Heq.
    apply (inj pretty) in Heq. lia.
  - intros args Htitle Hprio.
    unfold callToolHandler, handleCall. unfold_store. simpl.
    rewrite addTask_run. simpl. rewrite Hw, Htitle, Hprio. simpl.
    eexists. eexists. split; [reflexivity|]. simpl. repeat split.
Qed.


(** ** The summary *)

Lemma today_test (from to : Z) (t : Task) :
  truthy (dueDate t)
  && (date_leb (Some from) (dueDate t ≫= Date_parse)
      && date_ltb (dueDate t ≫= Date_parse) (Some to)
      && negb (status_is completed t))
  = due_within_day from to t && not_completed t.
Proof.
  unfold due_within_day, due_time, not_completed, status_is.
  destruct (truthy (dueDate t)); [|reflexivity].
  destruct (dueDate t ≫= Date_parse); reflexivity.
Qed.

Lemma upcoming_test (from to : Z) (t : Task) :
  truthy (dueDate t)
  && (date_leb (Some from) (dueDate t ≫= Date_parse)
      && date_leb (dueDate t ≫= Date_parse) (Some to)
      && negb (status_is completed t))
  = due_within from to t && not_completed t.
Proof.
  unfold due_within, due_time, not_completed, status_is.
  destruct (truthy (dueDate t)); [|reflexivity].
  destruct (dueDate t ≫= Date_parse); reflexivity.
Qed.

Lemma summary_fold (now : Z) (ts : list Task) (acc : TaskSummary) :
  fold_left
    (summaryCallback now (now + day_ms) (startOfLocalDay now)
       (startOfLocalDay now + day_ms)) ts acc
  = merged acc (summary_spec now ts).
Proof.
  revert acc. induction ts as [|t ts IH]; intros acc.
  - destruct acc as [n [] [] o u d]. unfold merged. simpl.
    rewrite !Nat.add_0_r, !app_nil_r. reflexivity.
  - simpl fold_left. rewrite IH. unfold summaryCallback.
    rewrite today_test, upcoming_test.
    unfold merged, summary_spec, count_status, count_priority, status_is. simpl.
    destruct acc as [n [sp si sc so] [pl pm ph pc] ov up td]. simpl.
    f_equal.
    + destruct (status t) as [[]|]; simpl; f_equal; lia.
    + destruct (priority t); simpl; f_equal; lia.
    + destruct (bool_decide (status t = Some overdue)); simpl;
        now rewrite <- ?app_assoc.
    + destruct (due_within now (now + day_ms) t && not_completed t); simpl;
        now rewrite <- ?app_assoc.
    + destruct (due_within_day _ _ t && not_completed t); simpl;
        now rewrite <- ?app_assoc.
Qed.

Lemma loadTasks_returns (st : State) :
  (exists st1, loadTasks st = (inr tt, st1))
  \/ (disk (world st) = None /\ writable (world st) = false
      /\ loadTasks st = (inl WriteFailed, mkState (tasks st) (advance (world st)))).
Proof.
  destruct (disk (world st)) as [[| |d]|] eqn:Hd.
  - left. unfold loadTasks. unfold_store. rewrite Hd. simpl. rewrite Hd.
    eexists. reflexivity.
  - left. unfold loadTasks. unfold_store. rewrite Hd. simpl. rewrite Hd.
    eexists. reflexivity.
  - left. rewrite (loadTasks_document _ _ Hd).
    destruct (updateOverdueStatus _) as [[e|[]] st']; eexists; reflexivity.
  - destruct (writable (world st)) eqn:Hw.
    + left. unfold loadTasks, createSampleTasks. unfold_store. rewrite Hd. simpl.
      rewrite Hw. simpl. rewrite updateOverdueStatus_run.
      cbv zeta. cbn [tasks world].
      match goal with
      | |- context [existsb ?f ?l] => destruct (existsb f l)
      end.
      * rewrite saveTasks_run. simpl. rewrite Hw. eexists. reflexivity.
      * eexists. reflexivity.
    + right. split; [reflexivity|]. split; [reflexivity|].
      unfold loadTasks, createSampleTasks. unfold_store. rewrite Hd. simpl.
      now rewrite Hw.
Qed.

Lemma getSummary_run (st : State) :
  getSummary st
  = match loadTasks st with
    | (inr tt, st1) =>
        (inr (summary_spec (current (world st1)) (tasks st1)),
         mkState (tasks st1) (advance (world st1)))
    | (inl e, st1) => (inl e, st1)
    end.
Proof.
  unfold getSummary, reloadTasks. unfold_store.
  destruct (loadTasks st) as [[e|[]] st1]; [reflexivity|]. simpl.
  now rewrite summary_fold.
Qed.

(** The two today windows select the same tasks on a local day of 24
    hours. *)
Lemma today_windows_agree (now : Z) (t : Task) :
  day_of_24_hours now ->
  due_within_day (startOfLocalDay now) (startOfLocalDay now + day_ms) t
  = due_on_local_day now t.
Proof.
  intros Hdays. unfold due_within_day, due_on_local_day.
  destruct (due_time t) as [due|]; [|reflexivity].
  destruct (Z.eqb_spec (startOfLocalDay due) (startOfLocalDay now)) as [Heq|Hne].
  - apply Hdays in Heq. apply andb_true_iff. split; [apply Z.leb_le|apply Z.ltb_lt]; lia.
  - apply not_true_is_false. intros Hin. apply andb_true_iff in Hin as [Hle Hlt].
    apply Z.leb_le in Hle. apply Z.ltb_lt in Hlt.
    apply Hne, Hdays. lia.
Qed.

(** C6, amended. Whenever its reload returns, [getSummary] reads the
    clock and returns, for the reloaded collection at that reading: the
    number of tasks, one counter for each of the four statuses and each
    of the four priorities, the overdue tasks, the tasks not completed and
    due within the 24 hours from the reading, and those not completed and
    due in the 24 hours that begin at the local midnight before the
    reading. The reload returns in every state but one: no file and no
    way to write the starter set. On a local day of 24 hours the last
    list is the one of the local calendar day. *)
Theorem summary_meets_spec (st : State) :
  ((exists st1,
       loadTasks st = (inr tt, st1)
       /\ getSummary st
          = (inr (summary_spec (current (world st1)) (tasks st1)),
             mkState (tasks st1) (advance (world st1))))
   \/ (disk (world st) = None /\ writable (world st) = false
       /\ exists st1, getSummary st = (inl WriteFailed, st1)))
  /\ (forall now,
        day_of_24_hours now ->
        forall ts, summary_spec now ts = summary_claimed now ts).
Proof.
  split.
  - destruct (loadTasks_returns st) as [(st1 & Hl)|(Hd & Hw & Hl)].
    + left. exists st1. split; [exact Hl|]. now rewrite getSummary_run, Hl.
    + right. split; [exact Hd|]. split; [exact Hw|].
      eexists. now rewrite getSummary_run, Hl.
  - intros now Hdays ts. unfold summary_spec, summary_claimed. f_equal.
    apply List.filter_ext. intros t. now rewrite today_windows_agree.
Qed.

(** ** Status updates and deletions *)

Lemma updateTaskStatus_run (st : State) (id : option string) (s : option TaskStatus) :
  updateTaskStatus id s st
  = match find_task id (tasks st) with
    | None => (inr None, st)
    | Some task =>
        let stamp := toISOString (current (world st)) in
        let st1 := mkState (assign_status id s stamp (tasks st)) (advance (world st)) in
        match saveTasks st1 with
        | (inr _, st') => (inr (Some (with_status task s stamp)), st')
        | (inl e, st') => (inl e, st')
        end
    end.
Proof.
  unfold updateTaskStatus. unfold_store.
  destruct (find_task id (tasks st)); [|reflexivity]. simpl.
  destruct (saveTasks _) as [[e|[]] st']; reflexivity.
Qed.

Lemma deleteTask_run (st : State) (id : option string) :
  deleteTask id st
  = match findIndex id (tasks st) with
    | None => (inr false, st)
    | Some index =>
        match saveTasks (mkState (splice1 index (tasks st)) (world st)) with
        | (inr _, st') => (inr true, st')
        | (inl e, st') => (inl e, st')
        end
    end.
Proof.
  unfold deleteTask. unfold_store.
  destruct (findIndex id (tasks st)); [|reflexivity]. simpl.
  destruct (saveTasks _) as [[e|[]] st']; reflexivity.
Qed.

Lemma saveTasks_tasks (st : State) : tasks (snd (saveTasks st)) = tasks st.
Proof. rewrite saveTasks_run. destruct (writable (world st)); reflexivity. Qed.

(** ** The order of the two timestamps *)

Lemma restamped_ordered (now : Z) (t : Task) (s : option TaskStatus) :
  Date_parse (toISOString now) = Some now ->
  created_by now t ->
  stamps_ordered (with_status t s (toISOString now)).
Proof.
  intros Hiso (c & Hc & Hle). exists c, now. simpl. tauto.
Qed.

Lemma assign_status_ordered (now : Z) (id : option string) (s : option TaskStatus)
    (ts : list Task) :
  Date_parse (toISOString now) = Some now ->
  Forall (fun t => stamps_ordered t /\ created_by now t) ts ->
  Forall stamps_ordered (assign_status id s (toISOString now) ts).
Proof.
  intros Hiso. induction 1 as [|t ts [Ho Hc] Hts IH]; simpl; [constructor|].
  destruct (has_id id t).
  - constructor; [now apply restamped_ordered|].
    eapply Forall_impl; [exact Hts|]. intros x Hx; simpl in Hx. tauto.
  - constructor; assumption.
Qed.

Lemma derivation_ordered (now : Z) (ts : list Task) :
  Date_parse (toISOString now) = Some now ->
  Forall (fun t => stamps_ordered t /\ created_by now t) ts ->
  Forall stamps_ordered (map (fun t => fst (overdueCallback now t)) ts).
Proof.
  intros Hiso. induction 1 as [|t ts [Ho Hc] _ IH]; simpl; constructor; [|exact IH].
  destruct (falls_overdue_cases now t) as [Hf|Hf].
  - rewrite (overdueCallback_falls _ _ Hf). now apply restamped_ordered.
  - now rewrite (overdueCallback_stays _ _ Hf).
Qed.

Lemma updateOverdueStatus_tasks (st : State) :
  tasks (snd (updateOverdueStatus st))
  = map (fun t => fst (overdueCallback (current (world st)) t)) (tasks st).
Proof.
  rewrite updateOverdueStatus_run. cbv zeta.
  destruct (existsb _ (tasks st)); [|reflexivity].
  now rewrite saveTasks_tasks.
Qed.

(** C8, amended. An operation that stamps a task with its clock reading
    keeps [updatedAt >= createdAt] on every task of the collection when no
    task was created after that reading: so do [addTask] (which needs the
    order of the existing tasks only), [updateTaskStatus] and the overdue
    derivation, alone and inside a load of a document. The reading is one
    that the runtime's ISO rendering gives back. *)
Theorem stamps_stay_ordered (st : State) :
  let now := current (world st) in
  Date_parse (toISOString now) = Some now ->
  (Forall stamps_ordered (tasks st) ->
     forall input, Forall stamps_ordered (tasks (snd (addTask input st))))
  /\ (Forall (fun t => stamps_ordered t /\ created_by now t) (tasks st) ->
       (forall id s, Forall stamps_ordered (tasks (snd (updateTaskStatus id s st))))
       /\ Forall stamps_ordered (tasks (snd (updateOverdueStatus st))))
  /\ (forall d,
        disk (world st) = Some (Document d) ->
        Forall (fun t => stamps_ordered t /\ created_by now t) (data_tasks d) ->
        Forall stamps_ordered (tasks (snd (loadTasks st)))).
Proof.
  intros now Hiso. split; [|split].
  - intros Hord input. rewrite addTask_run. cbv zeta.
    assert (Hnew : Forall stamps_ordered (tasks st ++ [added (world st) input])).
    { apply Forall_app. split; [exact Hord|]. constructor; [|constructor].
      exists now, now. simpl. fold now. split; [exact Hiso|]. split; [exact Hiso|lia]. }
    destruct (writable (world st)); exact Hnew.
  - intros Hok. split.
    + intros id s. rewrite updateTaskStatus_run.
      destruct (find_task id (tasks st)) as [task|].
      * cbv zeta.
        match goal with
        | |- context [saveTasks ?s1] =>
            pose proof (saveTasks_tasks s1) as Hs; destruct (saveTasks s1) as [[e|u] st']
        end; simpl in *; rewrite Hs; now apply assign_status_ordered.
      * simpl. eapply Forall_impl; [exact Hok|]. intros x Hx; simpl in Hx. tauto.
    + rewrite updateOverdueStatus_tasks. now apply derivation_ordered.
  - intros d Hd Hok. rewrite (loadTasks_document _ _ Hd).
    pose proof (updateOverdueStatus_tasks (mkState (data_tasks d) (world st))) as Ht.
    destruct (updateOverdueStatus _) as [[e|[]] st']; simpl in *.
    + constructor.
    + rewrite Ht. now apply derivation_ordered.
Qed.

(** ** Failures of the file system *)

(** C9, amended. A document that cannot be read or parsed makes the load
    log the error and leave an empty collection, before the clock is
    read; a document that parses but holds no tasks to go through does
    the same after one reading of the clock; and so does a failed write
    of the overdue derivation inside a load; none throws. A failed write
    inside [addTask], [updateTaskStatus] or [deleteTask] is not logged by
    the store and empties nothing: the call throws, the change made in
    memory stays, and the tool handler turns the exception into an
    error-flagged result. *)
Theorem persistence_failures (st : State) :
  (disk (world st) = Some Unusable ->
     loadTasks st
     = (inr tt, mkState [] (report (LoadError ReadFailed) (world st))))
  /\ (disk (world st) = Some Malformed ->
      loadTasks st
      = (inr tt, mkState [] (report (LoadError TasksTypeError) (advance (world st)))))
  /\ (forall d,
        disk (world st) = Some (Document d) ->
        writable (world st) = false ->
        Exists (falls_overdue (current (world st))) (data_tasks d) ->
        loadTasks st
        = (inr tt,
           mkState [] (report (LoadError WriteFailed) (advance (advance (world st))))))
  /\ (writable (world st) = false ->
       (forall input,
          exists st',
            addTask input st = (inl WriteFailed, st')
            /\ tasks st' = tasks st ++ [added (world st) input]
            /\ console (world st') = console (world st))
       /\ (forall id s task,
             find_task id (tasks st) = Some task ->
             exists st',
               updateTaskStatus id s st = (inl WriteFailed, st')
               /\ tasks st'
                  = assign_status id s (toISOString (current (world st))) (tasks st)
               /\ console (world st') = console (world st))
       /\ (forall id index,
             findIndex id (tasks st) = Some index ->
             exists st',
               deleteTask id st = (inl WriteFailed, st')
               /\ tasks st' = splice1 index (tasks st)
               /\ console (world st') = console (world st))
       /\ (forall args,
             exists st',
               callToolHandler (mkCallToolRequest "add_task" args) st
               = (inr (mkToolResult [TxtError WriteFailed] (Some true)), st')
               /\ length (tasks st') = S (length (tasks st)))).
Proof.
  split; [|split; [|split]].
  - intros Hd. unfold loadTasks. unfold_store. rewrite Hd. simpl. now rewrite Hd.
  - intros Hd. unfold loadTasks. unfold_store. rewrite Hd. simpl. now rewrite Hd.
  - intros d Hd Hw Hex. rewrite (loadTasks_document _ _ Hd), updateOverdueStatus_run.
    cbv zeta. cbn [tasks world].
    rewrite (proj2 (changed_iff_falls _ _) Hex), saveTasks_run. simpl.
    now rewrite Hw.
  - intros Hw. repeat split.
    + intros input. rewrite addTask_run. cbv zeta. rewrite Hw.
      eexists. split; [reflexivity|]. split; reflexivity.
    + intros id s task Hfind. rewrite updateTaskStatus_run, Hfind. cbv zeta.
      rewrite saveTasks_run. simpl. rewrite Hw.
      eexists. split; [reflexivity|]. split; reflexivity.
    + intros id index Hfind. rewrite deleteTask_run, Hfind, saveTasks_run. simpl.
      rewrite Hw. eexists. split; [reflexivity|]. split; reflexivity.
    + intros args. unfold callToolHandler, handleCall. unfold_store. simpl.
      rewrite addTask_run. cbv zeta. rewrite Hw. simpl.
      eexists. split; [reflexivity|]. simpl. rewrite length_app. simpl. lia.
Qed.


(** ** The tool handler *)

Lemma callToolHandler_catches (request : CallToolRequest) (st : State) :
  callToolHandler request st
  = match handleCall request st with
    | (inr r, st') => (inr r, st')
    | (inl e, st') => (inr (mkToolResult [TxtError e] (Some true)), st')
    end.
Proof.
  unfold callToolHandler. unfold_store.
  destruct (handleCall request st) as [[e|r] st']; reflexivity.
Qed.

Lemma handleCall_unknown (request : CallToolRequest) (st : State) :
  name request ∉ tool_names ->
  handleCall request st
  = (inr (mkToolResult [Txt ("Неизвестный инструмент: " +:+ name request)] (Some true)),
     st).
Proof.
  intros Hname. unfold handleCall.
  repeat match goal with
  | |- context [String.eqb (name request) ?s] =>
      destruct (String.eqb_spec (name request) s) as [Heq|_];
      [exfalso; apply Hname; rewrite Heq; unfold tool_names; set_solver|]
  end.
  reflexivity.
Qed.

Lemma find_task_undefined (ts : list Task) : find_task None ts = None.
Proof.
  apply find_task_absent. apply Forall_forall. discriminate.
Qed.

Lemma findIndex_undefined (ts : list Task) : findIndex None ts = None.
Proof.
  apply findIndex_absent. apply Forall_forall. discriminate.
Qed.

Lemma handleCall_without_id (request : CallToolRequest) (st : State) :
  name request = "get_task_by_id" \/ name request = "update_task_status"
  \/ name request = "delete_task" ->
  arguments request ≫= arg_id = None ->
  forall r st', handleCall request st = (inr r, st') -> error_flagged r.
Proof.
  intros Hname Hid r st'. unfold handleCall. rewrite Hid.
  destruct Hname as [Hn|[Hn|Hn]]; rewrite Hn; pick_case; unfold_store.
  - unfold getTaskById, reloadTasks. unfold_store.
    destruct (loadTasks st) as [[e|[]] st1]; [discriminate|]. simpl.
    rewrite find_task_undefined. intros [= <- _]. reflexivity.
  - rewrite updateTaskStatus_run, find_task_undefined. unfold_store.
    intros [= <- _]. reflexivity.
  - rewrite deleteTask_run, findIndex_undefined. unfold_store.
    intros [= <- _]. reflexivity.
Qed.

(** C5, amended. The handler checks the presence of no argument. It
    always returns a result: what the store throws becomes an
    error-flagged result. An unknown tool name gives an error-flagged result
    and changes nothing. A lookup, status update or deletion without an id
    gives an error-flagged result, as no task has the id [undefined]. A
    creation without title or without priority is carried out on a
    writable document: the task gets the title given or none, the priority
    given or medium, and the result is not error-flagged. *)
Theorem handler_never_throws (request : CallToolRequest) (st : State) :
  exists r st',
    callToolHandler request st = (inr r, st')
    /\ (forall e st1, handleCall request st = (inl e, st1) ->
          r = mkToolResult [TxtError e] (Some true) /\ st' = st1)
    /\ (name request ∉ tool_names -> error_flagged r /\ st' = st)
    /\ (name request = "get_task_by_id" \/ name request = "update_task_status"
        \/ name request = "delete_task" ->
        arguments request ≫= arg_id = None ->
        error_flagged r)
    /\ (name request = "add_task" ->
        writable (world st) = true ->
        isError r = None
        /\ exists t, tasks st' = tasks st ++ [t]
                     /\ title t = arguments request ≫= arg_title
                     /\ priority t = default medium (arguments request ≫= arg_priority)).
Proof.
  rewrite callToolHandler_catches.
  destruct (handleCall request st) as [[e|r] st1] eqn:Hcall.
  - eexists. eexists. split; [reflexivity|]. split; [|split; [|split]].
    + intros e' st2 [= <- <-]. split; reflexivity.
    + intros Hname. rewrite (handleCall_unknown _ _ Hname) in Hcall. discriminate.
    + intros _ _. reflexivity.
    + intros Hname Hw. exfalso. revert Hcall. unfold handleCall. rewrite Hname.
      pick_case. unfold_store. rewrite addTask_run. cbv zeta. rewrite Hw. discriminate.
  - exists r, st1. split; [reflexivity|]. split; [|split; [|split]].
    + intros e' st2 [=].
    + intros Hname. rewrite (handleCall_unknown _ _ Hname) in Hcall.
      injection Hcall as <- <-. split; reflexivity.
    + intros Hname Hid. exact (handleCall_without_id _ _ Hname Hid _ _ Hcall).
    + intros Hname Hw. revert Hcall. unfold handleCall. rewrite Hname.
      pick_case. unfold_store. rewrite addTask_run. cbv zeta. rewrite Hw. intros [= <- <-].
      split; [reflexivity|]. eexists. split; [reflexivity|]. split; reflexivity.
Qed.

End TaskServiceFacts.

(** ** The framer *)

Lemma split_newline_nonempty (s : string) : split_newline s <> [].
Proof.
  destruct s as [|c s]; simpl; [discriminate|].
  destruct (Ascii.eqb c "010"); [discriminate|].
  destruct (split_newline s); discriminate.
Qed.

Lemma removelast_cons {A} (x : A) (l : list A) :
  l <> [] -> removelast (x :: l) = x :: removelast l.
Proof. destruct l; [congruence|reflexivity]. Qed.

Lemma last_cons_nonempty {A} (x : A) (l : list A) :
  l <> [] -> last (x :: l) = last l.
Proof. destruct l; [congruence|reflexivity]. Qed.

Lemma removelast_app_nonempty {A} (l k : list A) :
  k <> [] -> removelast (l ++ k) = l ++ removelast k.
Proof.
  intros Hk. induction l as [|x l IH]; [reflexivity|].
  simpl app. rewrite removelast_cons, IH; [reflexivity|].
  destruct l; simpl; [exact Hk|discriminate].
Qed.

Lemma last_app_nonempty {A} (l k : list A) :
  k <> [] -> last (l ++ k) = last k.
Proof.
  intros Hk. induction l as [|x l IH]; [reflexivity|].
  simpl app. rewrite last_cons_nonempty; [exact IH|].
  destruct l; simpl; [exact Hk|discriminate].
Qed.

(** Splitting a text that arrives in two pieces: the complete lines of the
    first piece, then the lines of its unfinished tail followed by the
    second piece. *)
Lemma split_newline_app (a b : string) :
  split_newline (a +:+ b)
  = removelast (split_newline a)
    ++ split_newline (default "" (last (split_newline a)) +:+ b).
Proof.
  induction a as [|c a IH]; [reflexivity|].
  simpl. destruct (Ascii.eqb c "010") eqn:Hc.
  - rewrite IH, removelast_cons, last_cons_nonempty
      by apply split_newline_nonempty.
    reflexivity.
  - rewrite IH. pose proof (split_newline_nonempty a) as Hne.
    destruct (split_newline a) as [|l [|l' ls]]; [congruence| |].
    + simpl. rewrite Hc. reflexivity.
    + rewrite removelast_cons, last_cons_nonempty by discriminate.
      reflexivity.
Qed.

(** ** Dispatching one message *)

Lemma remote_reason_not_timeout (error : JSON) (reason : Reason) :
  remote_reason error = Some reason -> forall text, reason <> RequestTimeout text.
Proof.
  unfold remote_reason.
  destruct (get_property error "message") as [[m|]|];
    try destruct (truthy_json (Some m)); try destruct (convertible m);
    intros [= <-]; discriminate.
Qed.

(** The four ways [dispatch] can go: the message is [null] and the
    property access throws; the message names no key of the table and
    nothing happens; it names the key [k] of the promise [p], and the
    entry is deleted and [p] settled, never with a timeout; or it names
    that key with an error that cannot be made, and the entry is deleted
    and the statement throws. *)
Lemma dispatch_cases (message : JSON) (rt : Runtime) :
  (message = JNull /\ dispatch message rt = Threw rt)
  \/ (message <> JNull
      /\ (forall k, named_key message = Some k ->
                    pendingRequests (client rt) !! k = None)
      /\ dispatch message rt = Completed rt)
  \/ (exists k p o,
        named_key message = Some k
        /\ pendingRequests (client rt) !! k = Some p
        /\ (forall text, o <> Rejected (RequestTimeout text))
        /\ error_unmakeable message = false
        /\ dispatch message rt
           = Completed
               (settle p o (set_pending (delete k (pendingRequests (client rt))) rt)))
  \/ (exists k p,
        named_key message = Some k
        /\ pendingRequests (client rt) !! k = Some p
        /\ error_unmakeable message = true
        /\ dispatch message rt
           = Threw (set_pending (delete k (pendingRequests (client rt))) rt)).
Proof.
  destruct message as [|b|n|str|items|fields];
    try (right; left; split; [discriminate|]; split; [discriminate|reflexivity]).
  - left. split; reflexivity.
  - assert (Herr : error_unmakeable (JObject fields)
                   = match lookup_field "error" fields with
                     | Some e =>
                         truthy_json (Some e)
                         && match remote_reason e with
                            | Some _ => false
                            | None => true
                            end
                     | None => false
                     end) by reflexivity.
    rewrite Herr. clear Herr. unfold dispatch, named_key.
    cbn [get_property mbind option_bind mjoin option_join].
    destruct (lookup_field "id" fields) as [v|];
      cbn [mbind option_bind];
      [|right; left; split; [discriminate|]; split; [discriminate|reflexivity]].
    destruct (key_of v) as [k|];
      [|right; left; split; [discriminate|]; split; [discriminate|reflexivity]].
    destruct (pendingRequests (client rt) !! k) as [p|] eqn:Hk.
    + cbv zeta. destruct (lookup_field "error" fields) as [e|].
      * destruct (truthy_json (Some e)) eqn:He; cbn [andb mbind option_bind].
        -- destruct (remote_reason e) as [reason|] eqn:Hreason.
           ++ right. right. left. exists k, p, (Rejected reason).
              split; [reflexivity|]. split; [exact Hk|]. split.
              { intros text [= ->].
                exact (remote_reason_not_timeout _ _ Hreason text eq_refl). }
              split; reflexivity.
           ++ right. right. right. exists k, p.
              split; [reflexivity|]. split; [exact Hk|]. split; reflexivity.
        -- right. right. left. eexists k, p, _.
           split; [reflexivity|]. split; [exact Hk|].
           split; [|split; reflexivity]. discriminate.
      * right. right. left. eexists k, p, _.
        split; [reflexivity|]. split; [exact Hk|].
        split; [|split; reflexivity]. discriminate.
    + right. left. split; [discriminate|]. split; [|reflexivity].
      intros k' [= <-]. exact Hk.
Qed.

Lemma set_buffer_twice (x y : string) (rt : Runtime) :
  set_buffer x (set_buffer y rt) = set_buffer x rt.
Proof. reflexivity. Qed.

(** [dispatch] does not look at the buffer. *)
Lemma dispatch_set_buffer (x : string) (message : JSON) (rt : Runtime) :
  dispatch message (set_buffer x rt)
  = match dispatch message rt with
    | Completed rt' => Completed (set_buffer x rt')
    | Threw rt' => Threw (set_buffer x rt')
    end.
Proof.
  unfold dispatch.
  destruct (get_property message "id") as [id|]; [|reflexivity].
  destruct (id ≫= key_of) as [k|]; [|reflexivity].
  change (pendingRequests (client (set_buffer x rt))) with (pendingRequests (client rt)).
  destruct (pendingRequests (client rt) !! k); [|reflexivity].
  cbv zeta. destruct (truthy_json (mjoin (get_property message "error"))).
  - destruct (mjoin (get_property message "error") ≫= remote_reason); reflexivity.
  - reflexivity.
Qed.

Section ClientFacts.
Context `{Platform}.

Lemma processLine_set_buffer (x : string) (rt : Runtime) (line : string) :
  processLine (set_buffer x rt) line = set_buffer x (processLine rt line).
Proof.
  unfold processLine. destruct (is_blank line); [reflexivity|].
  destruct (JSON_parse line) as [message|]; [|reflexivity].
  change (log (LogResponse message) (set_buffer x rt))
    with (set_buffer x (log (LogResponse message) rt)).
  rewrite dispatch_set_buffer.
  destruct (dispatch message (log (LogResponse message) rt)); reflexivity.
Qed.

Lemma fold_processLine_set_buffer (x : string) (lines : list string) (rt : Runtime) :
  fold_left processLine lines (set_buffer x rt)
  = set_buffer x (fold_left processLine lines rt).
Proof.
  revert rt. induction lines as [|l lines IH]; intros rt; [reflexivity|].
  simpl. now rewrite processLine_set_buffer, IH.
Qed.

(** The ways a line can go, on everything but the buffer and the log: a
    blank line, an unparsable one or a message naming no pending request
    changes nothing; a message naming the pending request [k] removes the
    entry and settles its promise, or, when its error cannot be made,
    removes the entry and settles nothing. *)
Lemma processLine_cases (rt : Runtime) (line : string) :
  exists extra,
    logged (processLine rt line) = logged rt ++ extra
    /\ omap (fun l => match l with LogRequest m => Some m | _ => None end) extra = []
    /\ timers (processLine rt line) = timers rt
    /\ promises (processLine rt line) = promises rt
    /\ ((client (processLine rt line) = client rt
         /\ settled (processLine rt line) = settled rt)
        \/ (exists message k p o,
              emitted line = Some message
              /\ named_key message = Some k
              /\ pendingRequests (client rt) !! k = Some p
              /\ (forall text, o <> Rejected (RequestTimeout text))
              /\ client (processLine rt line)
                 = client (set_pending (delete k (pendingRequests (client rt))) rt)
              /\ settled (processLine rt line) = settled rt ++ [(p, o)])
        \/ (exists message k p,
              emitted line = Some message
              /\ named_key message = Some k
              /\ pendingRequests (client rt) !! k = Some p
              /\ error_unmakeable message = true
              /\ LogResponse message ∈ extra
              /\ client (processLine rt line)
                 = client (set_pending (delete k (pendingRequests (client rt))) rt)
              /\ settled (processLine rt line) = settled rt)).
Proof.
  unfold processLine, emitted. destruct (is_blank line).
  { exists []. rewrite app_nil_r. repeat split; try reflexivity. now left. }
  destruct (JSON_parse line) as [message|].
  2:{ exists [LogParseError line]. repeat split; try reflexivity. now left. }
  destruct (dispatch_cases message (log (LogResponse message) rt))
    as [[-> ->]|[(Hnn & Hno & ->)|[(k & p & o & Hk & Hp & Ho & _ & ->)
                                  |(k & p & Hk & Hp & He & ->)]]].
  - exists [LogResponse JNull; LogParseError line]. simpl.
    rewrite <- app_assoc. repeat split; try reflexivity. now left.
  - exists [LogResponse message]. repeat split; try reflexivity. now left.
  - exists [LogResponse message]. repeat split; try reflexivity.
    right. left. exists message, k, p, o. repeat split; assumption.
  - exists [LogResponse message; LogParseError line]. simpl.
    rewrite <- app_assoc. repeat split; try reflexivity.
    right. right. exists message, k, p. repeat split; try assumption.
    apply list_elem_of_here.
Qed.


Lemma append_assoc (a b c : string) : (a +:+ b) +:+ c = a +:+ b +:+ c.
Proof.
  induction a as [|x a IH]; [reflexivity|].
  change (String x ((a +:+ b) +:+ c) = String x (a +:+ b +:+ c)).
  now rewrite IH.
Qed.

Lemma append_empty_r (a : string) : a +:+ "" = a.
Proof.
  induction a as [|x a IH]; [reflexivity|].
  change (String x (a +:+ "") = String x a). now rewrite IH.
Qed.

Lemma processBuffer_set_buffer (rt : Runtime) :
  processBuffer rt
  = let lines := split_newline (buffer (client rt)) in
    set_buffer (default "" (last lines)) (fold_left processLine (removelast lines) rt).
Proof. unfold processBuffer. cbv zeta. now rewrite fold_processLine_set_buffer. Qed.

Lemma buffer_fold_processLine (lines : list string) (rt : Runtime) :
  buffer (client (fold_left processLine lines rt)) = buffer (client rt).
Proof.
  revert rt. induction lines as [|l lines IH]; intros rt; [reflexivity|].
  simpl. rewrite IH.
  destruct (processLine_cases rt l)
    as (extra & _ & _ & _ & _ & [[-> _]|[(m & k & p & o & _ & _ & _ & _ & -> & _)
                                        |(m & k & p & _ & _ & _ & _ & _ & -> & _)]]);
    reflexivity.
Qed.

Lemma onData_fold (chunk : string) (rt : Runtime) :
  onData chunk rt
  = let lines := split_newline (buffer (client rt) +:+ chunk) in
    set_buffer (default "" (last lines)) (fold_left processLine (removelast lines) rt).
Proof.
  unfold onData. rewrite processBuffer_set_buffer. cbv zeta. simpl buffer.
  now rewrite fold_processLine_set_buffer, set_buffer_twice.
Qed.

(** A chunk boundary leaves no trace: two chunks give the state that
    their concatenation gives. *)
Lemma onData_append (c1 c2 : string) (rt : Runtime) :
  onData c2 (onData c1 rt) = onData (c1 +:+ c2) rt.
Proof.
  rewrite (onData_fold (c1 +:+ c2) rt). cbv zeta.
  rewrite <- append_assoc, (split_newline_app (buffer (client rt) +:+ c1) c2).
  rewrite (onData_fold c1 rt). cbv zeta.
  set (lines1 := split_newline (buffer (client rt) +:+ c1)).
  rewrite onData_fold. cbv zeta. simpl buffer.
  set (lines2 := split_newline (default "" (last lines1) +:+ c2)).
  assert (Hne : lines2 <> []) by apply split_newline_nonempty.
  rewrite removelast_app_nonempty, last_app_nonempty, fold_left_app by exact Hne.
  now rewrite fold_processLine_set_buffer, set_buffer_twice.
Qed.

Lemma logged_set_buffer (x : string) (rt : Runtime) :
  logged (set_buffer x rt) = logged rt.
Proof. reflexivity. Qed.

(** What one line adds to the parse errors logged: itself when it is
    not blank and does not parse, or parses to [null]; itself or nothing
    otherwise, and nothing when the error of its message can be made. *)
Lemma processLine_logged (rt : Runtime) (line : string) :
  responses (processLine rt line) = responses rt ++ option_list (emitted line)
  /\ exists extra,
       parse_errors (processLine rt line) = parse_errors rt ++ extra
       /\ option_list (rejected line) `sublist_of` extra
       /\ extra `sublist_of` (if is_blank line then [] else [line])
       /\ ((forall m, emitted line = Some m -> error_unmakeable m = false) ->
           extra = option_list (rejected line)).
Proof.
  unfold processLine, emitted, rejected, responses, parse_errors.
  destruct (is_blank line).
  { rewrite !app_nil_r. split; [reflexivity|]. exists [].
    rewrite app_nil_r. repeat split; reflexivity. }
  destruct (JSON_parse line) as [message|].
  2:{ simpl. rewrite !omap_app. simpl. rewrite ?app_nil_r. split; [reflexivity|].
      exists [line]. repeat split; reflexivity. }
  destruct (dispatch_cases message (log (LogResponse message) rt))
    as [[-> ->]|[(Hnn & Hno & ->)|[(k & p & o & Hk & Hp & Ho & _ & ->)
                                  |(k & p & Hk & Hp & He & ->)]]]; simpl;
    rewrite !omap_app; simpl; rewrite ?omap_app; simpl;
    rewrite ?app_nil_r, <- ?app_assoc; simpl.
  - split; [reflexivity|]. exists [line]. repeat split; reflexivity.
  - split; [reflexivity|]. exists []. rewrite app_nil_r.
    destruct message; try congruence;
      (split; [reflexivity|]; split; [reflexivity|];
       split; [apply sublist_nil_l|reflexivity]).
  - split; [reflexivity|]. exists []. rewrite app_nil_r.
    destruct message; try discriminate;
      (split; [reflexivity|]; split; [reflexivity|];
       split; [apply sublist_nil_l|reflexivity]).
  - split; [reflexivity|]. exists [line].
    destruct message; try discriminate.
    split; [reflexivity|]. split; [apply sublist_nil_l|]. split; [reflexivity|].
    intros Hok. rewrite (Hok _ eq_refl) in He. discriminate.
Qed.

Lemma fold_processLine_logged (lines : list string) (rt : Runtime) :
  responses (fold_left processLine lines rt) = responses rt ++ omap emitted lines
  /\ exists extra,
       parse_errors (fold_left processLine lines rt) = parse_errors rt ++ extra
       /\ omap rejected lines `sublist_of` extra
       /\ extra `sublist_of` List.filter (fun l => negb (is_blank l)) lines
       /\ (Forall (fun l => forall m, emitted l = Some m -> error_unmakeable m = false)
             lines ->
           extra = omap rejected lines).
Proof.
  revert rt. induction lines as [|l lines IH]; intros rt.
  - simpl. rewrite !app_nil_r. split; [reflexivity|]. exists [].
    rewrite app_nil_r. repeat split; reflexivity.
  - simpl fold_left.
    destruct (IH (processLine rt l)) as (-> & rest & -> & Hlow & Hhigh & Hexact).
    destruct (processLine_logged rt l) as (-> & first & -> & Hlow1 & Hhigh1 & Hexact1).
    rewrite <- !app_assoc. split.
    { f_equal. simpl. destruct (emitted l); reflexivity. }
    exists (first ++ rest). split; [reflexivity|]. split; [|split].
    + replace (omap rejected (l :: lines))
        with (option_list (rejected l) ++ omap rejected lines)
        by (simpl; destruct (rejected l); reflexivity).
      now apply sublist_app.
    + replace (List.filter (fun l0 => negb (is_blank l0)) (l :: lines))
        with ((if is_blank l then [] else [l])
              ++ List.filter (fun l0 => negb (is_blank l0)) lines)
        by (simpl; destruct (is_blank l); reflexivity).
      now apply sublist_app.
    + intros Hall. inversion Hall as [|? ? Hl Hrest]; subst.
      rewrite (Hexact1 Hl), (Hexact Hrest).
      simpl. destruct (rejected l); reflexivity.
Qed.

Lemma omap_one {A B} (f : A -> option B) (x : A) : omap f [x] = option_list (f x).
Proof. simpl. destruct (f x); reflexivity. Qed.

Lemma scenario_lines :
  split_newline first_chunk = [first_chunk]
  /\ split_newline (first_chunk +:+ second_chunk) = [scenario_line; ""]
  /\ is_blank scenario_line = false.
Proof. repeat split; reflexivity. Qed.

(** C3. The framer keeps the unfinished tail of the stream in [buffer], so
    that cutting the stream into chunks at any place changes nothing; each
    complete line that is not blank is parsed once, in order, and gives
    one message when it parses; a line that does not parse, or parses to
    [null], gives one logged parse error, no blank line and no unfinished
    line ever does, and a line that parsed does so only when the error
    of its message cannot be made; after any line the next lines are
    processed as before. The chunk [{"jsonrpc":"2.0","id":1,"resu] alone
    gives no message and no error, and the chunk [lt":5}\n] after it
    gives the one message of the whole line. *)
Theorem framer_reassembles_lines (rt : Runtime) :
  (forall c1 c2, onData c2 (onData c1 rt) = onData (c1 +:+ c2) rt)
  /\ (forall chunk,
        let lines := split_newline (buffer (client rt) +:+ chunk) in
        buffer (client (onData chunk rt)) = default "" (last lines)
        /\ responses (onData chunk rt)
           = responses rt ++ omap emitted (removelast lines)
        /\ exists extra,
             parse_errors (onData chunk rt) = parse_errors rt ++ extra
             /\ omap rejected (removelast lines) `sublist_of` extra
             /\ extra `sublist_of`
                  List.filter (fun l => negb (is_blank l)) (removelast lines)
             /\ (Forall
                   (fun l => forall m, emitted l = Some m -> error_unmakeable m = false)
                   (removelast lines) ->
                 extra = omap rejected (removelast lines)))
  /\ (forall bad rest,
        is_blank bad = false ->
        JSON_parse bad = None ->
        fold_left processLine (bad :: rest) rt
        = fold_left processLine rest (log (LogParseError bad) rt))
  /\ (buffer (client rt) = "" ->
      JSON_parse scenario_line = Some scenario_message ->
      let rt1 := onData first_chunk rt in
      let rt2 := onData second_chunk rt1 in
      logged rt1 = logged rt
      /\ settled rt1 = settled rt
      /\ buffer (client rt1) = first_chunk
      /\ responses rt2 = responses rt ++ [scenario_message]
      /\ parse_errors rt2 = parse_errors rt
      /\ buffer (client rt2) = "").
Proof.
  split; [|split; [|split]].
  - intros c1 c2. apply onData_append.
  - intros chunk lines. rewrite onData_fold. cbv zeta. fold lines.
    split; [reflexivity|].
    unfold responses, parse_errors. rewrite logged_set_buffer.
    apply fold_processLine_logged.
  - intros bad rest Hblank Hparse. simpl. unfold processLine at 2.
    now rewrite Hblank, Hparse.
  - intros Hbuf Hparse rt1 rt2.
    destruct scenario_lines as (Hs1 & Hs2 & Hnb).
    assert (Hrt1 : rt1 = set_buffer first_chunk rt).
    { unfold rt1. rewrite onData_fold. cbv zeta. rewrite Hbuf.
      change ("" +:+ first_chunk) with first_chunk. now rewrite Hs1. }
    assert (Hrt2 : rt2 = onData (first_chunk +:+ second_chunk) rt).
    { unfold rt2, rt1. apply onData_append. }
    split; [now rewrite Hrt1|]. split; [now rewrite Hrt1|].
    split; [now rewrite Hrt1|].
    rewrite Hrt2, onData_fold. cbv zeta. rewrite Hbuf.
    change ("" +:+ first_chunk +:+ second_chunk) with (first_chunk +:+ second_chunk).
    rewrite Hs2. simpl removelast. simpl last. simpl default.
    unfold responses, parse_errors. rewrite logged_set_buffer.
    assert (Hem : emitted scenario_line = Some scenario_message).
    { unfold emitted. now rewrite Hnb. }
    assert (Hrej : rejected scenario_line = None).
    { unfold rejected. now rewrite Hnb, Hparse. }
    destruct (fold_processLine_logged [scenario_line] rt)
      as (Hr & extra & He & _ & _ & Hexact).
    unfold responses, parse_errors in Hr, He. rewrite Hr, He, Hexact, !omap_one.
    + rewrite Hem, Hrej. simpl. rewrite app_nil_r. repeat split; reflexivity.
    + constructor; [|constructor]. intros m Hm. rewrite Hem in Hm.
      injection Hm as <-. reflexivity.
Qed.

(** C10. A line whose message names no entry of the pending table (it
    has no [id], or an [id] that is no key of the table, or it is [null])
    changes nothing but the log: the client's fields, the stdin of the
    child among them, are the same, no promise is settled, no timer is
    touched. *)
Theorem unmatched_line_changes_nothing (rt : Runtime) (line : string) (message : JSON) :
  is_blank line = false ->
  JSON_parse line = Some message ->
  (forall k, named_key message = Some k -> pendingRequests (client rt) !! k = None) ->
  client (processLine rt line) = client rt
  /\ settled (processLine rt line) = settled rt
  /\ timers (processLine rt line) = timers rt
  /\ promises (processLine rt line) = promises rt
  /\ requested (processLine rt line) = requested rt
  /\ exists extra, logged (processLine rt line) = logged rt ++ extra.
Proof.
  intros Hblank Hparse Hno.
  destruct (processLine_cases rt line)
    as (extra & Hlog & Hreq & Ht & Hp
        & [[Hc Hs]|[(m & k & p & o & Hm & Hk & Hpend & _)
                   |(m & k & p & Hm & Hk & Hpend & _)]]).
  - repeat split; try assumption.
    + unfold requested. rewrite Hlog, omap_app, Hreq. apply app_nil_r.
    + exists extra. exact Hlog.
  - exfalso. unfold emitted in Hm. rewrite Hblank, Hparse in Hm.
    injection Hm as <-. rewrite (Hno k Hk) in Hpend. discriminate.
  - exfalso. unfold emitted in Hm. rewrite Hblank, Hparse in Hm.
    injection Hm as <-. rewrite (Hno k Hk) in Hpend. discriminate.
Qed.

End ClientFacts.

(** ** One outcome for each request *)

Lemma outcomes_same (p : nat) (rt rt' : Runtime) :
  settled rt' = settled rt -> outcomes p rt' = outcomes p rt.
Proof. unfold outcomes. now intros ->. Qed.

Lemma outcomes_settled (p q : nat) (o : Outcome) (rt rt' : Runtime) :
  settled rt' = settled rt ++ [(q, o)] ->
  outcomes p rt' = outcomes p rt ++ (if decide (q = p) then [o] else []).
Proof.
  unfold outcomes. intros ->. rewrite omap_app. simpl.
  destruct (decide (q = p)); reflexivity.
Qed.

Lemma omap_none {A B} (f : A -> option B) (l : list A) :
  (forall x, x ∈ l -> f x = None) -> omap f l = [].
Proof.
  induction l as [|x l IH]; intros Hf; [reflexivity|].
  simpl. rewrite (Hf x) by apply list_elem_of_here.
  apply IH. intros y Hy. apply Hf. now apply list_elem_of_further.
Qed.

Lemma request_id_inj (p q : nat) : request_id p = request_id q -> p = q.
Proof. unfold request_id. lia. Qed.

Lemma consistent_newClient : consistent newClient.
Proof.
  split; try reflexivity.
  - intros k p Hk. simpl in Hk. rewrite lookup_empty in Hk. discriminate.
  - intros t Ht. apply elem_of_nil in Ht. contradiction.
  - intros p o Hp. apply elem_of_nil in Hp. contradiction.
  - intros p Hp. simpl in Hp. lia.
Qed.

(** What was dropped stays dropped while the log only grows. *)
Lemma dropped_mono (p : nat) (rt rt' : Runtime) :
  (forall l, l ∈ logged rt -> l ∈ logged rt') -> dropped p rt -> dropped p rt'.
Proof.
  intros Hlog (message & Hin & Hk & He). exists message.
  split; [now apply Hlog|]. now split.
Qed.

(** A step that touches neither the counter, the table, the promises,
    the outcomes, the timers nor the requests made, and only adds to the
    log. *)
Lemma consistent_grown (rt rt' : Runtime) :
  messageId (client rt') = messageId (client rt) ->
  pendingRequests (client rt') = pendingRequests (client rt) ->
  promises rt' = promises rt ->
  settled rt' = settled rt ->
  timers rt' = timers rt ->
  requested rt' = requested rt ->
  (forall l, l ∈ logged rt -> l ∈ logged rt') ->
  consistent rt -> consistent rt'.
Proof.
  intros Hm Hp Hn Hs Ht Hr Hl [C1 C2 C3 C4 C5 C6].
  split; rewrite ?Hm, ?Hp, ?Hn, ?Hs, ?Ht, ?Hr; try assumption.
  intros p Hlt. rewrite (outcomes_same p _ _ Hs).
  unfold waiting. rewrite Ht.
  destruct (C6 p Hlt) as [Hdone|[Hwait|(Hout & Hpend & Hdrop)]];
    [now left|now right; left|].
  right. right. split; [exact Hout|]. split; [exact Hpend|].
  exact (dropped_mono _ _ _ Hl Hdrop).
Qed.

(** A step that touches neither the counter, the table, the promises,
    the outcomes, the timers nor the log. *)
Lemma consistent_same (rt rt' : Runtime) :
  messageId (client rt') = messageId (client rt) ->
  pendingRequests (client rt') = pendingRequests (client rt) ->
  promises rt' = promises rt ->
  settled rt' = settled rt ->
  timers rt' = timers rt ->
  logged rt' = logged rt ->
  consistent rt -> consistent rt'.
Proof.
  intros Hm Hp Hn Hs Ht Hl. apply consistent_grown; try assumption.
  - unfold requested. now rewrite Hl.
  - intros l. now rewrite Hl.
Qed.

(** A step that deletes the entry of the promise [p] and settles it. *)
Lemma consistent_settle (rt rt' : Runtime) (k : Z) (p : nat) (o : Outcome) :
  consistent rt ->
  pendingRequests (client rt) !! k = Some p ->
  messageId (client rt') = messageId (client rt) ->
  pendingRequests (client rt') = delete k (pendingRequests (client rt)) ->
  promises rt' = promises rt ->
  settled rt' = settled rt ++ [(p, o)] ->
  requested rt' = requested rt ->
  (forall l, l ∈ logged rt -> l ∈ logged rt') ->
  (forall t, t ∈ timers rt' -> t ∈ timers rt) ->
  (forall q, q <> p -> waiting q rt -> waiting q rt') ->
  (forall text, o = Rejected (RequestTimeout text) ->
                exists method, requested rt !! p = Some method
                               /\ text = timeout_text method) ->
  consistent rt'.
Proof.
  intros [C1 C2 C3 C4 C5 C6] Hk Hm Hp Hn Hs Hr Hl Ht Hw Ho.
  destruct (C3 k p Hk) as [-> Hlt].
  split; rewrite ?Hm, ?Hp, ?Hn, ?Hr; try assumption.
  - intros k' p' Hk'. apply lookup_delete_Some in Hk' as [_ Hk']. now apply C3.
  - intros t Hin. now apply C4, Ht.
  - intros q o' Hin. rewrite Hs in Hin. apply elem_of_app in Hin as [Hin|Hin].
    + now apply C5.
    + apply list_elem_of_singleton in Hin. injection Hin as -> ->.
      split; [exact Hlt|exact Ho].
  - intros q Hq. rewrite (outcomes_settled q p o _ _ Hs).
    destruct (decide (p = q)) as [<-|Hne].
    + left. rewrite lookup_delete_eq. split; [|reflexivity].
      destruct (C6 p Hlt) as [[_ Hnone]|[[Hout _]|(_ & Hnone & _)]];
        [congruence| |congruence].
      exists o. now rewrite Hout.
    + rewrite app_nil_r, lookup_delete_ne
        by (intros Heq; apply request_id_inj in Heq; congruence).
      destruct (C6 q Hq) as [Hdone|[(Hout & Hpend & Hwait)|(Hout & Hpend & Hdrop)]];
        [now left| |].
      * right. left. split; [exact Hout|]. split; [exact Hpend|].
        apply Hw; [congruence|exact Hwait].
      * right. right. split; [exact Hout|]. split; [exact Hpend|].
        exact (dropped_mono _ _ _ Hl Hdrop).
Qed.

(** A step that deletes the entry of the promise [p] and settles
    nothing: the request is dropped. *)
Lemma consistent_drop (rt rt' : Runtime) (k : Z) (p : nat) :
  consistent rt ->
  pendingRequests (client rt) !! k = Some p ->
  messageId (client rt') = messageId (client rt) ->
  pendingRequests (client rt') = delete k (pendingRequests (client rt)) ->
  promises rt' = promises rt ->
  settled rt' = settled rt ->
  requested rt' = requested rt ->
  (forall l, l ∈ logged rt -> l ∈ logged rt') ->
  timers rt' = timers rt ->
  dropped p rt' ->
  consistent rt'.
Proof.
  intros [C1 C2 C3 C4 C5 C6] Hk Hm Hp Hn Hs Hr Hl Ht Hd.
  destruct (C3 k p Hk) as [-> Hlt].
  split; rewrite ?Hm, ?Hp, ?Hn, ?Hr, ?Hs, ?Ht; try assumption.
  - intros k' p' Hk'. apply lookup_delete_Some in Hk' as [_ Hk']. now apply C3.
  - intros q Hq. rewrite (outcomes_same q _ _ Hs). unfold waiting. rewrite Ht.
    destruct (decide (p = q)) as [<-|Hne].
    + right. right. rewrite lookup_delete_eq.
      destruct (C6 p Hlt) as [[_ Hnone]|[[Hout _]|(_ & Hnone & _)]];
        [congruence| |congruence].
      split; [exact Hout|]. split; [reflexivity|exact Hd].
    + rewrite lookup_delete_ne
        by (intros Heq; apply request_id_inj in Heq; congruence).
      destruct (C6 q Hq) as [Hdone|[Hwait|(Hout & Hpend & Hdrop)]];
        [now left|now right; left|].
      right. right. split; [exact Hout|]. split; [exact Hpend|].
      exact (dropped_mono _ _ _ Hl Hdrop).
Qed.

(** A timer that finds no entry goes away and changes nothing else. *)
Lemma consistent_expired (rt rt' : Runtime) (p : nat) :
  consistent rt ->
  pendingRequests (client rt) !! request_id p = None ->
  client rt' = client rt ->
  promises rt' = promises rt ->
  settled rt' = settled rt ->
  logged rt' = logged rt ->
  (forall t, t ∈ timers rt' -> t ∈ timers rt) ->
  (forall q, q <> p -> waiting q rt -> waiting q rt') ->
  consistent rt'.
Proof.
  intros [C1 C2 C3 C4 C5 C6] Hnone Hc Hn Hs Hl Ht Hw.
  assert (Hr : requested rt' = requested rt) by (unfold requested; now rewrite Hl).
  split; rewrite ?Hc, ?Hn, ?Hs, ?Hr; try assumption.
  - intros t Hin. now apply C4, Ht.
  - intros q Hq. rewrite (outcomes_same q _ _ Hs).
    destruct (C6 q Hq) as [Hdone|[(Hout & Hpend & Hwait)|(Hout & Hpend & Hdrop)]];
      [now left| |].
    + right. left. split; [exact Hout|]. split; [exact Hpend|].
      apply Hw; [|exact Hwait]. intros ->. congruence.
    + right. right. split; [exact Hout|]. split; [exact Hpend|].
      apply (dropped_mono _ rt); [|exact Hdrop]. intros l. now rewrite Hl.
Qed.

Lemma without_nth {A} (l : list A) (n : nat) (x y : A) :
  l !! n = Some x ->
  (y ∈ take n l ++ drop (S n) l -> y ∈ l)
  /\ (y ∈ l -> y <> x -> y ∈ take n l ++ drop (S n) l).
Proof.
  intros Hn. pose proof (take_drop_middle l n x Hn) as Hmid. split.
  - intros Hy. rewrite <- Hmid.
    apply elem_of_app in Hy as [Hy|Hy]; apply elem_of_app; [now left|].
    right. now apply list_elem_of_further.
  - intros Hy Hne. rewrite <- Hmid in Hy.
    apply elem_of_app in Hy as [Hy|Hy]; [apply elem_of_app; now left|].
    apply elem_of_cons in Hy as [->|Hy]; [congruence|].
    apply elem_of_app. now right.
Qed.

Lemma js_incr_exact (n : Z) : js_incr n < 2 ^ 53 -> js_incr n = n + 1.
Proof. unfold js_incr. destruct (Z.ltb_spec n (2 ^ 53)); lia. Qed.

Lemma js_incr_grows (n : Z) : n <= js_incr n.
Proof. unfold js_incr. destruct (Z.ltb_spec n (2 ^ 53)); lia. Qed.

Lemma requested_log (l : ClientLog) (rt : Runtime) :
  requested (log l rt)
  = requested rt ++ match l with LogRequest m => [m] | _ => [] end.
Proof. unfold requested. simpl. rewrite omap_app. destruct l; reflexivity. Qed.

Lemma consistent_sendRequest (method : string) (params : option JSON) (rt : Runtime) :
  messageId (client (sendRequest method params rt)) < 2 ^ 53 ->
  consistent rt -> consistent (sendRequest method params rt).
Proof.
  intros Hlt [C1 C2 C3 C4 C5 C6]. simpl in Hlt.
  pose proof (js_incr_exact _ Hlt) as Hid. rewrite C1 in Hid.
  assert (Hk : js_incr (messageId (client rt)) = request_id (promises rt)).
  { rewrite C1. exact Hid. }
  assert (Hreq : requested (sendRequest method params rt) = requested rt ++ [method]).
  { unfold requested. simpl. now rewrite omap_app. }
  split; rewrite ?Hreq; simpl; rewrite ?Hk.
  - unfold request_id. lia.
  - rewrite length_app, C2. simpl. lia.
  - intros k p Hin. apply lookup_insert_Some in Hin as [[<- <-]|[_ Hin]].
    + split; [reflexivity|lia].
    + destruct (C3 k p Hin). split; [assumption|lia].
  - intros t Hin. apply elem_of_app in Hin as [Hin|Hin].
    + destruct (C4 t Hin) as [Hid' Hm]. split; [exact Hid'|].
      rewrite lookup_app_l; [exact Hm|]. apply lookup_lt_Some in Hm. exact Hm.
    + apply list_elem_of_singleton in Hin. subst t. simpl. split; [reflexivity|].
      rewrite lookup_app_r by lia. now rewrite C2, Nat.sub_diag.
  - intros p o Hin. destruct (C5 p o Hin) as [Hp Ho]. split; [lia|].
    intros text Htext. destruct (Ho text Htext) as (m & Hm & ->).
    exists m. split; [|reflexivity].
    rewrite lookup_app_l; [exact Hm|]. apply lookup_lt_Some in Hm. exact Hm.
  - intros p Hp.
    change (outcomes p (sendRequest method params rt)) with (outcomes p rt).
    destruct (decide (p = promises rt)) as [->|Hne].
    + right. left. rewrite lookup_insert_eq. split; [|split; [reflexivity|]].
      * unfold outcomes. apply omap_none. intros [q o] Hin. simpl.
        destruct (C5 q o Hin) as [Hq _].
        destruct (decide (q = promises rt)); [lia|reflexivity].
      * exists (mkTimer (request_id (promises rt)) method (promises rt)).
        split; [|reflexivity]. apply elem_of_app. right.
        rewrite Hk. now apply list_elem_of_singleton.
    + assert (Hp' : (p < promises rt)%nat) by lia.
      rewrite lookup_insert_ne
        by (intros Heq; apply request_id_inj in Heq; congruence).
      destruct (C6 p Hp')
        as [Hdone|[(Hout & Hpend & t & Hin & Ht)|(Hout & Hpend & Hdrop)]];
        [now left| |].
      * right. left. split; [exact Hout|]. split; [exact Hpend|].
        exists t. split; [|exact Ht]. apply elem_of_app. now left.
      * right. right. split; [exact Hout|]. split; [exact Hpend|].
        apply (dropped_mono _ rt); [|exact Hdrop].
        intros l Hl. simpl. apply elem_of_app. now left.
Qed.

Lemma timeoutCallback_cases (t : Timer) (rt : Runtime) :
  (pendingRequests (client rt) !! timer_id t = None /\ timeoutCallback t rt = rt)
  \/ (exists p,
        pendingRequests (client rt) !! timer_id t = Some p
        /\ timeoutCallback t rt
           = settle (timer_promise t)
               (Rejected (RequestTimeout (timeout_text (timer_method t))))
               (set_pending (delete (timer_id t) (pendingRequests (client rt))) rt)).
Proof.
  unfold timeoutCallback.
  destruct (pendingRequests (client rt) !! timer_id t) as [p|].
  - right. exists p. split; reflexivity.
  - left. split; reflexivity.
Qed.

Lemma consistent_fireTimer (n : nat) (rt : Runtime) :
  consistent rt -> consistent (fireTimer n rt).
Proof.
  intros Hc. unfold fireTimer.
  destruct (timers rt !! n) as [t|] eqn:Hn; [|exact Hc].
  assert (Hin : t ∈ timers rt) by (apply list_elem_of_lookup; eauto).
  destruct (timers_own rt Hc t Hin) as [Hid Hm].
  set (rt0 := mkRuntime (client rt) (promises rt) (settled rt)
                (take n (timers rt) ++ drop (S n) (timers rt)) (logged rt)).
  assert (Hsub : forall t', t' ∈ timers rt0 -> t' ∈ timers rt).
  { intros t'. apply (without_nth _ _ _ _ Hn). }
  assert (Hwait : forall q, q <> timer_promise t -> waiting q rt -> waiting q rt0).
  { intros q Hq (t' & Hin' & Ht'). exists t'. split; [|exact Ht'].
    apply (without_nth _ _ _ _ Hn); [exact Hin'|]. intros ->. congruence. }
  destruct (timeoutCallback_cases t rt0) as [[Hnone ->]|(p & Hp & ->)].
  - apply (consistent_expired rt rt0 (timer_promise t)); try reflexivity;
      try assumption.
    rewrite <- Hid. exact Hnone.
  - change (pendingRequests (client rt0)) with (pendingRequests (client rt)) in *.
    destruct (pending_own rt Hc _ _ Hp) as [Hk _].
    rewrite Hid in Hk. apply request_id_inj in Hk. subst p.
    eapply (consistent_settle rt _ (timer_id t) (timer_promise t));
      try reflexivity; try assumption; [intros l Hl; exact Hl|].
    intros text [= <-]. exists (timer_method t). split; [exact Hm|reflexivity].
Qed.

Section ClientOutcomes.
Context `{Platform}.

Lemma consistent_processLine (rt : Runtime) (line : string) :
  consistent rt -> consistent (processLine rt line).
Proof.
  intros Hc.
  destruct (processLine_cases rt line)
    as (extra & Hlog & Hreq & Ht & Hp
        & [[Hcl Hs]|[(m & k & p & o & _ & _ & Hpend & Ho & Hcl & Hs)
                    |(m & k & p & _ & Hkey & Hpend & He & Hin & Hcl & Hs)]]).
  - apply (consistent_grown rt); try assumption; try now rewrite Hcl.
    + unfold requested. rewrite Hlog, omap_app, Hreq. apply app_nil_r.
    + intros l Hl. rewrite Hlog. apply elem_of_app. now left.
  - apply (consistent_settle rt _ k p o); try assumption; try now rewrite Hcl.
    + unfold requested. rewrite Hlog, omap_app, Hreq. apply app_nil_r.
    + intros l Hl. rewrite Hlog. apply elem_of_app. now left.
    + now rewrite Ht.
    + unfold waiting. now rewrite Ht.
    + intros text ->. now destruct (Ho text).
  - apply (consistent_drop rt _ k p); try assumption; try now rewrite Hcl.
    + unfold requested. rewrite Hlog, omap_app, Hreq. apply app_nil_r.
    + intros l Hl. rewrite Hlog. apply elem_of_app. now left.
    + exists m. split; [rewrite Hlog; apply elem_of_app; now right|].
      split; [|exact He].
      destruct (pending_own rt Hc _ _ Hpend) as [<- _]. exact Hkey.
Qed.

Lemma consistent_fold_processLine (lines : list string) (rt : Runtime) :
  consistent rt -> consistent (fold_left processLine lines rt).
Proof.
  revert rt. induction lines as [|l lines IH]; intros rt Hc; [exact Hc|].
  simpl. apply IH, consistent_processLine, Hc.
Qed.

Lemma consistent_onData (chunk : string) (rt : Runtime) :
  consistent rt -> consistent (onData chunk rt).
Proof.
  intros Hc. rewrite onData_fold. cbv zeta.
  eapply consistent_same; [..|apply consistent_fold_processLine, Hc]; reflexivity.
Qed.

Lemma messageId_fold_processLine (lines : list string) (rt : Runtime) :
  messageId (client (fold_left processLine lines rt)) = messageId (client rt).
Proof.
  revert rt. induction lines as [|l lines IH]; intros rt; [reflexivity|].
  simpl. rewrite IH.
  destruct (processLine_cases rt l)
    as (extra & _ & _ & _ & _ & [[-> _]|[(m & k & p & o & _ & _ & _ & _ & -> & _)
                                        |(m & k & p & _ & _ & _ & _ & _ & -> & _)]]);
    reflexivity.
Qed.

Lemma messageId_step (rt : Runtime) (e : Event) :
  messageId (client rt) <= messageId (client (step rt e)).
Proof.
  destruct e as [|method params| |chunk|n|]; simpl; try lia.
  - apply js_incr_grows.
  - rewrite onData_fold. cbv zeta. simpl. rewrite messageId_fold_processLine. lia.
  - unfold fireTimer. destruct (timers rt !! n) as [t|]; [|lia].
    match goal with
    | |- context [timeoutCallback t ?r] =>
        destruct (timeoutCallback_cases t r) as [[_ ->]|(p & _ & ->)]
    end; simpl; lia.
Qed.

Lemma consistent_step (rt : Runtime) (e : Event) :
  messageId (client (step rt e)) < 2 ^ 53 ->
  consistent rt -> consistent (step rt e).
Proof.
  intros Hlt Hc. destruct e as [|method params| |chunk|n|]; simpl in *.
  - eapply consistent_same; [..|exact Hc]; reflexivity.
  - now apply consistent_sendRequest.
  - unfold notifyInitialized. eapply consistent_same; [..|exact Hc]; reflexivity.
  - now apply consistent_onData.
  - now apply consistent_fireTimer.
  - eapply consistent_same; [..|exact Hc]; reflexivity.
Qed.

Lemma consistent_run (es : list Event) :
  messageId (client (run newClient es)) < 2 ^ 53 ->
  consistent (run newClient es).
Proof.
  induction es as [|e es IH] using rev_ind; intros Hlt.
  - apply consistent_newClient.
  - unfold run in *. rewrite fold_left_app in *. simpl in *.
    apply consistent_step; [exact Hlt|]. apply IH.
    pose proof (messageId_step (fold_left step es newClient) e). lia.
Qed.

Lemma elem_of_outcomes (p : nat) (o : Outcome) (rt : Runtime) :
  o ∈ outcomes p rt -> (p, o) ∈ settled rt.
Proof.
  unfold outcomes. intros Hin. apply list_elem_of_omap in Hin as ([q o'] & Hin & Hq).
  simpl in Hq. destruct (decide (q = p)) as [->|]; [|discriminate].
  now injection Hq as ->.
Qed.

(** ** A request that no response and no timer settles *)

Lemma abandoned_same (p : nat) (rt rt' : Runtime) :
  pendingRequests (client rt') = pendingRequests (client rt) ->
  promises rt' = promises rt ->
  settled rt' = settled rt ->
  timers rt' = timers rt ->
  abandoned p rt -> abandoned p rt'.
Proof.
  intros Hp Hn Hs Ht (Hlt & Hout & Hpend & Htimers).
  unfold abandoned. rewrite Hp, Hn, Ht, (outcomes_same p _ _ Hs). now repeat split.
Qed.

Lemma abandoned_processLine (p : nat) (rt : Runtime) (line : string) :
  abandoned p rt -> abandoned p (processLine rt line).
Proof.
  intros (Hlt & Hout & Hpend & Htimers).
  destruct (processLine_cases rt line)
    as (extra & _ & _ & Ht & Hn
        & [[Hcl Hs]|[(m & k & q & o & _ & _ & Hq & _ & Hcl & Hs)
                    |(m & k & q & _ & _ & Hq & _ & _ & Hcl & Hs)]]);
    unfold abandoned; rewrite Hn, Ht, Hcl.
  - rewrite (outcomes_same p _ _ Hs). now repeat split.
  - rewrite (outcomes_settled p q o _ _ Hs), Hout.
    destruct (decide (q = p)) as [->|Hne]; [now destruct (Hpend k)|].
    repeat split; try assumption.
    intros k' Hk'. simpl in Hk'. apply lookup_delete_Some in Hk' as [_ Hk'].
    now destruct (Hpend k').
  - rewrite (outcomes_same p _ _ Hs). repeat split; try assumption.
    intros k' Hk'. simpl in Hk'. apply lookup_delete_Some in Hk' as [_ Hk'].
    now destruct (Hpend k').
Qed.

Lemma abandoned_fold_processLine (p : nat) (lines : list string) (rt : Runtime) :
  abandoned p rt -> abandoned p (fold_left processLine lines rt).
Proof.
  revert rt. induction lines as [|l lines IH]; intros rt Ha; [exact Ha|].
  simpl. apply IH, abandoned_processLine, Ha.
Qed.

Lemma abandoned_fireTimer (p : nat) (n : nat) (rt : Runtime) :
  abandoned p rt -> abandoned p (fireTimer n rt).
Proof.
  intros (Hlt & Hout & Hpend & Htimers). unfold fireTimer.
  destruct (timers rt !! n) as [t|] eqn:Hn; [|now repeat split].
  assert (Hin : t ∈ timers rt) by (apply list_elem_of_lookup; eauto).
  assert (Hrest : forall t', t' ∈ take n (timers rt) ++ drop (S n) (timers rt) ->
                             timer_promise t' <> p).
  { intros t' Ht'. apply Htimers. now apply (without_nth _ _ _ _ Hn). }
  unfold timeoutCallback. simpl.
  destruct (pendingRequests (client rt) !! timer_id t) as [q|]; unfold abandoned; simpl.
  - split; [exact Hlt|]. split; [|split; [|exact Hrest]].
    + unfold outcomes in *. simpl. rewrite omap_app, Hout. simpl.
      destruct (decide (timer_promise t = p)) as [Heq|]; [|reflexivity].
      now destruct (Htimers t Hin).
    + intros k' Hk'. apply lookup_delete_Some in Hk' as [_ Hk'].
      now destruct (Hpend k').
  - now repeat split.
Qed.

Lemma abandoned_step (p : nat) (rt : Runtime) (e : Event) :
  abandoned p rt -> abandoned p (step rt e).
Proof.
  intros Ha. destruct e as [|method params| |chunk|n|]; simpl.
  - eapply abandoned_same; [..|exact Ha]; reflexivity.
  - destruct Ha as (Hlt & Hout & Hpend & Htimers).
    unfold abandoned. simpl. split; [lia|]. split; [exact Hout|]. split.
    + intros k Hk. apply lookup_insert_Some in Hk as [[_ Hk]|[_ Hk]]; [lia|].
      now destruct (Hpend k).
    + intros t Ht. apply elem_of_app in Ht as [Ht|Ht]; [now apply Htimers|].
      apply list_elem_of_singleton in Ht. subst t. simpl. lia.
  - eapply abandoned_same; [..|exact Ha]; reflexivity.
  - rewrite onData_fold. cbv zeta.
    eapply abandoned_same; [..|apply abandoned_fold_processLine, Ha]; reflexivity.
  - now apply abandoned_fireTimer.
  - eapply abandoned_same; [..|exact Ha]; reflexivity.
Qed.

Lemma abandoned_run (p : nat) (rt : Runtime) (es : list Event) :
  abandoned p rt -> abandoned p (run rt es).
Proof.
  revert rt. induction es as [|e es IH]; intros rt Ha; [exact Ha|].
  simpl. apply IH, abandoned_step, Ha.
Qed.

(** C1. The code at a failing input: the one request of a client is
    answered by the line [{"id":1,"error":{"message":{"toString":1}}}].
    The entry of the request is deleted, the error cannot be made, the
    line is logged as a parse error, and no outcome is delivered; the
    timer of the request then finds no entry and does nothing. The
    request has no outcome, and whatever happens later it never gets
    one. *)
Theorem unmakeable_error_loses_the_request :
  JSON_parse Sample.unmakeable_line = Some Sample.unmakeable_message ->
  let rt := run newClient Sample.lost in
  promises rt = 1%nat
  /\ requested rt = ["tools/list"]
  /\ outcomes 0 rt = []
  /\ pendingRequests (client rt) = ∅
  /\ timers rt = []
  /\ parse_errors rt = [Sample.unmakeable_line]
  /\ forall es, outcomes 0 (run rt es) = [].
Proof.
  intros Hparse rt.
  assert (Hdata :
            onData (Sample.unmakeable_line +:+ newline)
              (sendRequest "tools/list" None (spawn newClient))
            = log (LogParseError Sample.unmakeable_line)
                (set_pending ∅
                   (log (LogResponse Sample.unmakeable_message)
                      (sendRequest "tools/list" None (spawn newClient))))).
  { rewrite onData_fold. cbv zeta.
    assert (Hsplit : split_newline
                       (buffer (client (sendRequest "tools/list" None (spawn newClient)))
                        +:+ Sample.unmakeable_line +:+ newline)
                     = [Sample.unmakeable_line; ""]) by reflexivity.
    rewrite Hsplit. simpl removelast. simpl last. simpl default. simpl fold_left.
    unfold processLine.
    assert (Hblank : is_blank Sample.unmakeable_line = false) by reflexivity.
    rewrite Hblank, Hparse. reflexivity. }
  assert (Hrt : rt = fireTimer 0
                       (onData (Sample.unmakeable_line +:+ newline)
                          (sendRequest "tools/list" None (spawn newClient))))
    by reflexivity.
  rewrite Hdata in Hrt.
  assert (Hfinal : rt = mkRuntime (mkMCPClient (Some [RequestLine 1 "tools/list" None])
                                     1 ∅ "")
                          1 [] []
                          [LogRequest "tools/list";
                           LogResponse Sample.unmakeable_message;
                           LogParseError Sample.unmakeable_line]).
  { rewrite Hrt. reflexivity. }
  clear Hrt Hdata. clearbody rt. subst rt.
  split; [reflexivity|]. split; [reflexivity|]. split; [reflexivity|].
  split; [reflexivity|]. split; [reflexivity|]. split; [reflexivity|].
  intros es.
  refine (proj1 (proj2 (abandoned_run 0 _ es _))).
  split; [simpl; lia|]. split; [reflexivity|]. split.
  - intros k. simpl. rewrite lookup_empty. discriminate.
  - intros t Ht. simpl in Ht. now apply elem_of_nil in Ht.
Qed.

(** ** Every request at most once *)

(** X23. In every run of a client whose counter is still exact, no
    request gets two outcomes: each request made so far has received one
    outcome and lost its entry in the pending table, or none yet, with
    its entry in the table and its timer still to run, or none, with no
    entry, after a message naming it whose error could not be made. A
    timeout delivered to it names its method. While the entry is there,
    a response carrying the request's id deletes it, and settles the
    request with a result or an error that is not a timeout unless the
    error cannot be made, and the timer deletes it and rejects the
    request with the timeout; once the entry is gone, both do nothing. *)
Theorem request_settles_at_most_once (es : list Event) (p : nat) :
  let rt := run newClient es in
  messageId (client rt) < 2 ^ 53 ->
  (p < promises rt)%nat ->
  (((exists o, outcomes p rt = [o])
    /\ pendingRequests (client rt) !! request_id p = None)
   \/ (outcomes p rt = []
       /\ pendingRequests (client rt) !! request_id p = Some p
       /\ waiting p rt)
   \/ (outcomes p rt = []
       /\ pendingRequests (client rt) !! request_id p = None
       /\ dropped p rt))
  /\ (forall text,
        Rejected (RequestTimeout text) ∈ outcomes p rt ->
        exists method, requested rt !! p = Some method /\ text = timeout_text method)
  /\ (pendingRequests (client rt) !! request_id p = Some p ->
      (forall message,
         named_key message = Some (request_id p) ->
         error_unmakeable message = false ->
         exists o,
           (forall text, o <> Rejected (RequestTimeout text))
           /\ dispatch message rt
              = Completed
                  (settle p o
                     (set_pending (delete (request_id p) (pendingRequests (client rt)))
                        rt)))
      /\ (forall message,
            named_key message = Some (request_id p) ->
            error_unmakeable message = true ->
            dispatch message rt
            = Threw (set_pending (delete (request_id p) (pendingRequests (client rt)))
                       rt))
      /\ (forall method,
            timeoutCallback (mkTimer (request_id p) method p) rt
            = settle p (Rejected (RequestTimeout (timeout_text method)))
                (set_pending (delete (request_id p) (pendingRequests (client rt))) rt)))
  /\ (pendingRequests (client rt) !! request_id p = None ->
      (forall message,
         named_key message = Some (request_id p) -> dispatch message rt = Completed rt)
      /\ (forall method, timeoutCallback (mkTimer (request_id p) method p) rt = rt)).
Proof.
  intros rt Hlt Hp. pose proof (consistent_run es Hlt) as Hc. fold rt in Hc.
  split; [exact (settled_once rt Hc p Hp)|]. split; [|split].
  - intros text Hin. apply elem_of_outcomes in Hin.
    destruct (settled_own rt Hc _ _ Hin) as [_ Ho]. now apply Ho.
  - intros Hpend. split; [|split].
    + intros message Hkey Hmake.
      destruct (dispatch_cases message rt)
        as [[-> _]|[(_ & Hno & _)|[(k & q & o & Hk & Hq & Ho & _ & Hd)
                                  |(k & q & Hk & Hq & He & _)]]].
      * discriminate.
      * rewrite (Hno _ Hkey) in Hpend. discriminate.
      * rewrite Hkey in Hk. injection Hk as <-. rewrite Hpend in Hq.
        injection Hq as <-. exists o. split; assumption.
      * congruence.
    + intros message Hkey Hmake.
      destruct (dispatch_cases message rt)
        as [[-> _]|[(_ & Hno & _)|[(k & q & o & Hk & Hq & Ho & He & _)
                                  |(k & q & Hk & Hq & He & Hd)]]].
      * discriminate.
      * rewrite (Hno _ Hkey) in Hpend. discriminate.
      * congruence.
      * rewrite Hkey in Hk. injection Hk as <-. exact Hd.
    + intros method. unfold timeoutCallback. simpl. now rewrite Hpend.
  - intros Hnone. split.
    + intros message Hkey.
      destruct (dispatch_cases message rt)
        as [[-> _]|[(_ & _ & Hd)|[(k & q & o & Hk & Hq & _)
                                 |(k & q & Hk & Hq & _)]]].
      * discriminate.
      * exact Hd.
      * rewrite Hkey in Hk. injection Hk as <-. rewrite Hnone in Hq. discriminate.
      * rewrite Hkey in Hk. injection Hk as <-. rewrite Hnone in Hq. discriminate.
    + intros method. unfold timeoutCallback. simpl. now rewrite Hnone.
Qed.

End ClientOutcomes.

(** * The theorems at concrete inputs, on the reference runtime *)

Section Concrete.
#[local] Existing Instance Reference.platform.
(** C1 on the reference runtime, which reads the line as the message it
    denotes. *)
Lemma unmakeable_error_loses_the_request_witness :
  outcomes 0 (run newClient Sample.lost) = []
  /\ pendingRequests (client (run newClient Sample.lost)) = ∅
  /\ timers (run newClient Sample.lost) = [].
Proof.
  assert (Hparse : JSON_parse Sample.unmakeable_line = Some Sample.unmakeable_message)
    by (vm_compute; reflexivity).
  destruct (unmakeable_error_loses_the_request Hparse)
    as (_ & _ & Hout & Hpend & Htimers & _).
  split; [exact Hout|]. split; [exact Hpend|exact Htimers].
Defined.

(** X23 at the run [Sample.answered], for its one request. *)
Lemma request_settles_at_most_once_witness :
  let rt := run newClient Sample.answered in
  (exists o, outcomes 0 rt = [o])
  /\ pendingRequests (client rt) !! request_id 0 = None.
Proof.
  assert (Hlt : messageId (client (run newClient Sample.answered)) < 2 ^ 53)
    by (vm_compute; reflexivity).
  assert (Hp : (0 < promises (run newClient Sample.answered))%nat)
    by (vm_compute; lia).
  destruct (request_settles_at_most_once Sample.answered 0 Hlt Hp)
    as [[Hone|[(Hnone & _)|(_ & _ & Hdrop)]] _].
  - exact Hone.
  - vm_compute in Hnone. discriminate.
  - exfalso. destruct Hdrop as (message & Hin & _ & He).
    assert (Hlog : logged (run newClient Sample.answered)
                   = [LogRequest "tools/list"; LogResponse scenario_message])
      by (vm_compute; reflexivity).
    rewrite Hlog in Hin.
    apply elem_of_cons in Hin as [[=]|Hin].
    apply list_elem_of_singleton in Hin. injection Hin as ->.
    vm_compute in He. discriminate.
Defined.

(** C2 at [Sample.on_disk]: the task of the scenario is overdue after the
    load. *)
Lemma load_derives_overdue_witness :
  exists st',
    loadTasks Sample.on_disk = (inr tt, st')
    /\ (status <$> tasks st' !! 0%nat) = Some (Some overdue).
Proof.
  assert (Hparse : Date_parse "2020-01-01T00:00:00Z" = Some 1577836800000)
    by (vm_compute; reflexivity).
  assert (Hpast : 1577836800000 < current (world Sample.on_disk))
    by (vm_compute; reflexivity).
  destruct (load_derives_overdue Sample.on_disk Sample.document eq_refl eq_refl)
    as (st' & Hload & _ & _ & _ & _ & _ & Hscenario).
  exists st'. split; [exact Hload|].
  destruct (Hscenario 0%nat Sample.old_task eq_refl eq_refl eq_refl eq_refl
              Hparse Hpast)
    as (t' & Hi & _ & Hs).
  rewrite Hi. simpl. now rewrite Hs.
Defined.

(** C3 at the client [Sample.asked]: the first chunk of the scenario
    gives nothing, the second gives the one message. *)
Lemma framer_reassembles_lines_witness :
  responses (onData first_chunk Sample.asked) = []
  /\ responses (onData second_chunk (onData first_chunk Sample.asked))
     = [scenario_message]
  /\ parse_errors (onData second_chunk (onData first_chunk Sample.asked)) = [].
Proof.
  assert (Hparse : JSON_parse scenario_line = Some scenario_message)
    by (vm_compute; reflexivity).
  destruct (framer_reassembles_lines Sample.asked) as (_ & _ & _ & Hscenario).
  destruct (Hscenario eq_refl Hparse) as (Hlog & _ & _ & Hresp & Herr & _).
  split; [|split].
  - unfold responses. rewrite Hlog. reflexivity.
  - exact Hresp.
  - exact Herr.
Defined.

(** C4: within one millisecond the second of two additions gets the id
    of the first, which is then an existing task. *)
Lemma add_repeats_an_id_within_a_millisecond :
  exists t1 st1 t2 st2,
    addTask Sample.input Sample.quick = (inr t1, st1)
    /\ addTask Sample.input st1 = (inr t2, st2)
    /\ t1 ∈ tasks st1
    /\ task_id t2 = task_id t1.
Proof.
  eexists. eexists. eexists. eexists.
  split; [run_store|]. split; [run_store|].
  split; [apply list_elem_of_here|reflexivity].
Qed.

(** C4, amended, at [Sample.loaded]. *)
Lemma add_creates_and_persists_witness :
  exists st',
    addTask Sample.input Sample.loaded
    = (inr (added (world Sample.loaded) Sample.input), st')
    /\ tasks st' = [Sample.old_task; added (world Sample.loaded) Sample.input].
Proof.
  destruct (add_creates_and_persists Sample.loaded Sample.input eq_refl)
    as (st' & Hadd & _ & _ & _ & Htasks & _).
  exists st'. split; [exact Hadd|exact Htasks].
Defined.

(** C5: [add_task] without any argument is carried out and its result
    carries no error flag. *)
Lemma add_task_without_arguments_is_accepted :
  exists t st',
    callToolHandler Sample.bare_add Sample.loaded
    = (inr (mkToolResult [TxtJson ("Задача создана:" +:+ newline) (STask t)] None), st')
    /\ title t = None
    /\ priority t = medium
    /\ tasks st' = [Sample.old_task; t].
Proof.
  eexists. eexists. split; [run_store|]. repeat split.
Qed.

(** C5, amended, at [Sample.bare_add] and [Sample.loaded]. *)
Lemma handler_never_throws_witness :
  exists r st',
    callToolHandler Sample.bare_add Sample.loaded = (inr r, st')
    /\ isError r = None.
Proof.
  destruct (handler_never_throws Sample.bare_add Sample.loaded)
    as (r & st' & Hcall & _ & _ & _ & Hadd).
  exists r, st'. split; [exact Hcall|]. now destruct (Hadd eq_refl eq_refl).
Defined.

(** On a machine whose time zone is UTC every local day has 24 hours. *)
Lemma utc_day_of_24_hours (t : Z) : day_of_24_hours t.
Proof.
  intros u. simpl. unfold Reference.utc_midnight.
  change day_ms with 86400000.
  pose proof (Z.mod_pos_bound t 86400000 ltac:(lia)) as Ht.
  pose proof (Z.mod_pos_bound u 86400000 ltac:(lia)) as Hu.
  pose proof (Z.div_mod t 86400000 ltac:(lia)) as Htd.
  pose proof (Z.div_mod u 86400000 ltac:(lia)) as Hud.
  split; [lia|]. intros Hin.
  assert (Hq : u / 86400000 = t / 86400000).
  { symmetry. apply (Z.div_unique_pos u 86400000 (t / 86400000)
                       (u - 86400000 * (t / 86400000))); lia. }
  lia.
Qed.

(** C6, amended, on the reference runtime: there the list of the 24
    hours from local midnight is the list of the local calendar day. *)
Lemma summary_meets_spec_witness :
  summary_spec Sample.today [Sample.old_task]
  = summary_claimed Sample.today [Sample.old_task].
Proof.
  destruct (summary_meets_spec Sample.on_disk) as [_ Hsame].
  exact (Hsame Sample.today (utc_day_of_24_hours Sample.today) [Sample.old_task]).
Defined.

(** C7 at [Sample.loaded], which has no task "2". *)
Lemma missing_id_changes_nothing_witness :
  deleteTask (Some "2") Sample.loaded = (inr false, Sample.loaded)
  /\ updateTaskStatus (Some "2") (Some completed) Sample.loaded
     = (inr None, Sample.loaded).
Proof.
  apply missing_id_changes_nothing.
  constructor; [discriminate|constructor].
Defined.

(** C8: the one task of [Sample.postdated] has its timestamps in order,
    and not any more once its status was updated. *)
Lemma status_update_can_precede_creation :
  Forall stamps_ordered (tasks Sample.postdated)
  /\ ~ Forall stamps_ordered
        (tasks (snd (updateTaskStatus (Some "1") (Some completed) Sample.postdated))).
Proof.
  split.
  - constructor; [|constructor].
    exists 1893456000000, 1893456000000. repeat split; [reflexivity..|lia].
  - assert (Hts : tasks (snd (updateTaskStatus (Some "1") (Some completed)
                                 Sample.postdated))
                  = [with_status Sample.future_task (Some completed)
                       "2026-11-02T16:00:00.000Z"])
      by (vm_compute; reflexivity).
    rewrite Hts. intros Hall.
    inversion Hall as [|t ts (c & u & Hc & Hu & Hle) _].
    vm_compute in Hc, Hu. injection Hc as <-. injection Hu as <-. lia.
Qed.

(** C8, amended, at [Sample.loaded]. *)
Lemma stamps_stay_ordered_witness :
  Forall stamps_ordered
    (tasks (snd (updateTaskStatus (Some "1") (Some completed) Sample.loaded))).
Proof.
  assert (Hiso : Date_parse (toISOString (current (world Sample.loaded)))
                 = Some (current (world Sample.loaded)))
    by (vm_compute; reflexivity).
  destruct (stamps_stay_ordered Sample.loaded Hiso) as (_ & Hupdate & _).
  apply Hupdate. constructor; [|constructor]. split.
  - exists 1575158400000, 1575158400000.
    repeat split; [vm_compute; reflexivity..|lia].
  - exists 1575158400000. split; [vm_compute; reflexivity|].
    vm_compute. discriminate.
Defined.

(** C9: on a file system that refuses to write, [addTask] throws, keeps
    the new task in memory and logs nothing. *)
Lemma failed_save_escapes_addTask :
  exists st',
    addTask Sample.input Sample.read_only = (inl WriteFailed, st')
    /\ length (tasks st') = 2%nat
    /\ console (world st') = [].
Proof.
  eexists. split; [run_store|]. split; reflexivity.
Qed.

(** C9, amended, at [Sample.read_only]. *)
Lemma persistence_failures_witness :
  loadTasks Sample.read_only
  = (inr tt,
     mkState []
       (report (LoadError WriteFailed) (advance (advance (world Sample.read_only))))).
Proof.
  destruct (persistence_failures Sample.read_only) as (_ & _ & Hload & _).
  apply (Hload Sample.document eq_refl eq_refl).
  apply Exists_cons_hd. split; [|split; discriminate].
  exists 1577836800000. split; vm_compute; reflexivity.
Defined.

(** C10 at a client with an empty table, for the line of the scenario. *)
Lemma unmatched_line_changes_nothing_witness :
  client (processLine newClient scenario_line) = client newClient
  /\ settled (processLine newClient scenario_line) = [].
Proof.
  assert (Hblank : is_blank scenario_line = false) by (vm_compute; reflexivity).
  assert (Hparse : JSON_parse scenario_line = Some scenario_message)
    by (vm_compute; reflexivity).
  destruct (unmatched_line_changes_nothing newClient scenario_line scenario_message
              Hblank Hparse (fun k _ => lookup_empty k))
    as (Hclient & Hsettled & _).
  split; [exact Hclient|exact Hsettled].
Defined.

End Concrete.

Section ConcreteBerlin.
#[local] Existing Instance Berlin.platform.

(** C6: in Berlin at noon of 2026-10-25, a day of 25 hours, a task that
    is not completed and due at 23:30 of that day is on the local
    calendar day of the reading and is not in the today list, which ends
    at 23:00. *)
Lemma today_list_ends_before_a_long_day :
  exists summary st',
    getSummary Berlin.store = (inr summary, st')
    /\ tasks st' = [Berlin.late_task]
    /\ not_completed Berlin.late_task = true
    /\ due_on_local_day Berlin.noon Berlin.late_task = true
    /\ todayTasks (summary_claimed Berlin.noon (tasks st')) = [Berlin.late_task]
    /\ todayTasks summary = [].
Proof.
  assert (Hload : loadTasks Berlin.store
                  = (inr tt, mkState [Berlin.late_task] (advance (world Berlin.store))))
    by (vm_compute; reflexivity).
  rewrite getSummary_run, Hload.
  eexists. eexists. split; [reflexivity|]. cbn [tasks].
  repeat split; vm_compute; reflexivity.
Qed.

End ConcreteBerlin.

(** * Further properties of the task store *)

Lemma filter_twice {A} (p q : A -> bool) (l : list A) :
  List.filter q (List.filter p l) = List.filter (fun x => p x && q x) l.
Proof.
  induction l as [|x l IH]; [reflexivity|].
  simpl. destruct (p x); simpl; [|exact IH].
  destruct (q x); now rewrite IH.
Qed.

Lemma filter_all {A} (l : list A) : List.filter (fun _ => true) l = l.
Proof. induction l as [|x l IH]; [reflexivity|]. simpl. now rewrite IH. Qed.

Lemma filter_is_sublist {A} (p : A -> bool) (l : list A) :
  List.filter p l `sublist_of` l.
Proof.
  induction l as [|x l IH]; [constructor|].
  simpl. destruct (p x); now constructor.
Qed.

Lemma filter_none {A} (p : A -> bool) (l : list A) :
  (forall x, p x = false) -> List.filter p l = [].
Proof.
  intros Hp. induction l as [|x l IH]; [reflexivity|]. simpl. now rewrite Hp.
Qed.

Lemma filter_holds {A} (p : A -> bool) (l : list A) :
  Forall (fun x => p x = true) (List.filter p l).
Proof.
  induction l as [|x l IH]; [constructor|].
  simpl. destruct (p x) eqn:Hx; [constructor|]; assumption.
Qed.

Section FilterFacts.
Context `{Platform}.

Lemma applyFilter_matches (filter : TaskFilter) (ts : list Task) :
  applyFilter filter ts = List.filter (matches filter) ts.
Proof.
  unfold applyFilter, matches.
  set (p1 := fun t : Task =>
               match filter_status filter with
               | Some s => status_is s t
               | None => true
               end).
  set (p2 := fun t : Task =>
               match filter_priority filter with
               | Some p => bool_decide (priority t = p)
               | None => true
               end).
  set (p3 := fun t : Task =>
               if truthy (filter_tag filter) then
                 match tags t, filter_tag filter with
                 | Some l, Some tag => bool_decide (tag ∈ l)
                 | _, _ => false
                 end
               else true).
  set (p4 := fun t : Task =>
               if truthy (dueBefore filter) then
                 truthy (dueDate t)
                 && date_leb (dueDate t ≫= Date_parse) (dueBefore filter ≫= Date_parse)
               else true).
  set (p5 := fun t : Task =>
               if truthy (dueAfter filter) then
                 truthy (dueDate t)
                 && date_leb (dueAfter filter ≫= Date_parse) (dueDate t ≫= Date_parse)
               else true).
  transitivity
    (List.filter p5 (List.filter p4 (List.filter p3 (List.filter p2 (List.filter p1 ts))))).
  - unfold p1, p2, p3, p4, p5.
    destruct (filter_status filter), (filter_priority filter),
      (truthy (filter_tag filter)), (truthy (dueBefore filter)),
      (truthy (dueAfter filter));
      cbv beta iota; rewrite ?filter_all; reflexivity.
  - rewrite !filter_twice. apply List.filter_ext. intros t.
    now rewrite !andb_assoc.
Qed.

(** X1. [getTasks] reloads and returns, in document order, the tasks of
    the reloaded collection that pass all the predicates given, and all of
    them when no filter is given; filtering a result again by the same
    filter changes nothing. *)
Theorem filters_select_conjunctively (st st1 : State) (filter : TaskFilter) :
  loadTasks st = (inr tt, st1) ->
  getTasks None st = (inr (tasks st1), st1)
  /\ getTasks (Some filter) st = (inr (List.filter (matches filter) (tasks st1)), st1)
  /\ List.filter (matches filter) (tasks st1) `sublist_of` tasks st1
  /\ applyFilter filter (applyFilter filter (tasks st1))
     = applyFilter filter (tasks st1).
Proof.
  intros Hload. split; [|split; [|split]].
  - unfold getTasks, reloadTasks. unfold_store. now rewrite Hload.
  - unfold getTasks, reloadTasks. unfold_store. rewrite Hload. simpl.
    now rewrite applyFilter_matches.
  - apply filter_is_sublist.
  - rewrite !applyFilter_matches, filter_twice. apply List.filter_ext.
    intros t. apply andb_diag.
Qed.

(** X2. A date bound that is given but cannot be read as a date selects
    no task at all, an empty bound is ignored, and under a bound that is
    given no task without a readable due date is selected. *)
Theorem date_bounds_at_the_edges (filter : TaskFilter) (ts : list Task) :
  (truthy (dueBefore filter) = true \/ truthy (dueAfter filter) = true ->
     Forall (fun t => exists due, due_time t = Some due) (applyFilter filter ts))
  /\ (truthy (dueBefore filter) = true ->
      dueBefore filter ≫= Date_parse = None -> applyFilter filter ts = [])
  /\ (truthy (dueAfter filter) = true ->
      dueAfter filter ≫= Date_parse = None -> applyFilter filter ts = [])
  /\ (dueBefore filter = Some "" ->
      applyFilter filter ts
      = applyFilter
          (mkTaskFilter (filter_status filter) (filter_priority filter)
             (filter_tag filter) None (dueAfter filter)) ts)
  /\ (dueAfter filter = Some "" ->
      applyFilter filter ts
      = applyFilter
          (mkTaskFilter (filter_status filter) (filter_priority filter)
             (filter_tag filter) (dueBefore filter) None) ts).
Proof.
  rewrite !applyFilter_matches. split; [|split; [|split; [|split]]].
  - intros Hbound. eapply Forall_impl; [apply filter_holds|].
    intros t Hm. simpl in Hm. unfold matches in Hm.
    apply andb_true_iff in Hm as [Hm Hafter].
    apply andb_true_iff in Hm as [_ Hbefore].
    unfold due_time.
    destruct Hbound as [Hb|Hb]; rewrite Hb in *.
    + apply andb_true_iff in Hbefore as [-> Hle].
      destruct (dueDate t ≫= Date_parse) as [due|]; [eauto|discriminate].
    + apply andb_true_iff in Hafter as [-> Hle].
      destruct (dueDate t ≫= Date_parse) as [due|]; [eauto|].
      destruct (dueAfter filter ≫= Date_parse); discriminate.
  - intros Hb Hnone. apply filter_none. intros t. unfold matches.
    rewrite Hb, Hnone.
    destruct (dueDate t ≫= Date_parse); simpl;
      rewrite ?andb_false_r; reflexivity.
  - intros Hb Hnone. apply filter_none. intros t. unfold matches.
    rewrite Hb, Hnone. simpl. rewrite ?andb_false_r. reflexivity.
  - intros Hb. unfold matches. simpl. rewrite Hb. reflexivity.
  - intros Hb. unfold matches. simpl. rewrite Hb. reflexivity.
Qed.

End FilterFacts.

(** ** Where a task with a given id sits in the collection *)

Lemma has_id_true (id : option string) (t : Task) :
  has_id id t = true <-> Some (task_id t) = id.
Proof. unfold has_id. apply bool_decide_eq_true. Qed.

Lemma has_id_false (id : option string) (t : Task) :
  has_id id t = false <-> Some (task_id t) <> id.
Proof. unfold has_id. apply bool_decide_eq_false. Qed.

Lemma find_task_split (id : option string) (ts : list Task) (task : Task) :
  find_task id ts = Some task ->
  exists before after,
    ts = before ++ task :: after
    /\ Forall (fun t => Some (task_id t) <> id) before
    /\ Some (task_id task) = id.
Proof.
  unfold find_task. induction ts as [|t ts IH]; [discriminate|].
  simpl. destruct (has_id id t) eqn:Ht.
  - intros [= ->]. exists [], ts. split; [reflexivity|]. split; [constructor|].
    now apply has_id_true.
  - intros Hfind. destruct (IH Hfind) as (before & after & -> & Hb & Hid).
    exists (t :: before), after. split; [reflexivity|]. split; [|exact Hid].
    constructor; [now apply has_id_false|exact Hb].
Qed.

Lemma find_task_at (id : option string) (before after : list Task) (task : Task) :
  Forall (fun t => Some (task_id t) <> id) before ->
  Some (task_id task) = id ->
  find_task id (before ++ task :: after) = Some task.
Proof.
  intros Hb Hid. unfold find_task. induction Hb as [|t before Ht _ IH]; simpl.
  - now rewrite (proj2 (has_id_true id task) Hid).
  - now rewrite (proj2 (has_id_false id t) Ht).
Qed.

Lemma find_task_past (id : option string) (before after : list Task) :
  Forall (fun t => Some (task_id t) <> id) before ->
  find_task id (before ++ after) = find_task id after.
Proof.
  intros Hb. unfold find_task. induction Hb as [|t before Ht _ IH]; simpl;
    [reflexivity|].
  now rewrite (proj2 (has_id_false id t) Ht).
Qed.

Lemma assign_status_at (id : option string) (s : option TaskStatus) (stamp : string)
    (before after : list Task) (task : Task) :
  Forall (fun t => Some (task_id t) <> id) before ->
  Some (task_id task) = id ->
  assign_status id s stamp (before ++ task :: after)
  = before ++ with_status task s stamp :: after.
Proof.
  intros Hb Hid. induction Hb as [|t before Ht _ IH]; simpl.
  - now rewrite (proj2 (has_id_true id task) Hid).
  - now rewrite (proj2 (has_id_false id t) Ht), IH.
Qed.

Lemma findIndex_at (id : option string) (before after : list Task) (task : Task) :
  Forall (fun t => Some (task_id t) <> id) before ->
  Some (task_id task) = id ->
  findIndex id (before ++ task :: after) = Some (length before)
  /\ splice1 (length before) (before ++ task :: after) = before ++ after.
Proof.
  intros Hb Hid. induction Hb as [|t before Ht _ [IH1 IH2]]; simpl.
  - now rewrite (proj2 (has_id_true id task) Hid).
  - rewrite (proj2 (has_id_false id t) Ht), IH1, IH2. split; reflexivity.
Qed.

Section StoreCompositions.
Context `{Platform}.

(** X3. A status update of an id that some task has, on a writable
    document, changes the first task with that id, and of it the status
    and [updatedAt] only; the collection keeps its other tasks, its order
    and its length, and the record returned is the one now stored. *)
Theorem status_update_touches_one_task (st : State) (id : option string)
    (s : option TaskStatus) (task : Task) :
  find_task id (tasks st) = Some task ->
  writable (world st) = true ->
  let stamp := toISOString (current (world st)) in
  let task' := with_status task s stamp in
  exists st' before after,
    updateTaskStatus id s st = (inr (Some task'), st')
    /\ tasks st = before ++ task :: after
    /\ Forall (fun t => Some (task_id t) <> id) before
    /\ tasks st' = before ++ task' :: after
    /\ status task' = s /\ updatedAt task' = stamp
    /\ (task_id task', title task', description task', priority task',
        dueDate task', tags task', createdAt task')
       = (task_id task, title task, description task, priority task,
          dueDate task, tags task, createdAt task).
Proof.
  intros Hfind Hw stamp task'.
  destruct (find_task_split _ _ _ Hfind) as (before & after & Hts & Hb & Hid).
  rewrite updateTaskStatus_run, Hfind. cbv zeta. rewrite saveTasks_run. simpl.
  rewrite Hw. eexists. exists before, after. split; [reflexivity|]. simpl.
  rewrite Hts at 2. rewrite (assign_status_at _ _ _ _ _ _ Hb Hid).
  repeat split; assumption.
Qed.

(** X4. Deleting an id that some task has, on a writable document,
    removes the first task with that id and no other; a second deletion
    of the id returns [false] when no later task had it, and otherwise
    finds the next task with the id. *)
Theorem delete_removes_the_first_match (st : State) (id : option string) (task : Task) :
  find_task id (tasks st) = Some task ->
  writable (world st) = true ->
  exists st' before after,
    deleteTask id st = (inr true, st')
    /\ tasks st = before ++ task :: after
    /\ Forall (fun t => Some (task_id t) <> id) before
    /\ tasks st' = before ++ after
    /\ (Forall (fun t => Some (task_id t) <> id) after ->
        deleteTask id st' = (inr false, st'))
    /\ (forall next, find_task id after = Some next ->
                     find_task id (tasks st') = Some next).
Proof.
  intros Hfind Hw.
  destruct (find_task_split _ _ _ Hfind) as (before & after & Hts & Hb & Hid).
  destruct (findIndex_at id before after task Hb Hid) as [Hindex Hsplice].
  rewrite deleteTask_run, Hts, Hindex, saveTasks_run. simpl. rewrite Hw, Hsplice.
  eexists. exists before, after. split; [reflexivity|]. simpl.
  repeat split; try assumption.
  - intros Hafter. rewrite deleteTask_run. simpl.
    rewrite findIndex_absent; [reflexivity|]. apply Forall_app. now split.
  - intros next Hnext. now rewrite find_task_past.
Qed.


(** ** Loads that succeed *)

Lemma overdueCallback_id (now : Z) (t : Task) :
  task_id (fst (overdueCallback now t)) = task_id t.
Proof.
  destruct (falls_overdue_cases now t) as [Hf|Hf].
  - now rewrite (overdueCallback_falls _ _ Hf).
  - now rewrite (overdueCallback_stays _ _ Hf).
Qed.

Lemma unchanged_map (now : Z) (ts : list Task) :
  existsb (fun t => snd (overdueCallback now t)) ts = false ->
  map (fun t => fst (overdueCallback now t)) ts = ts.
Proof.
  induction ts as [|t ts IH]; [reflexivity|].
  simpl. intros Hex. apply orb_false_iff in Hex as [Ht Hts].
  rewrite (IH Hts). f_equal.
  destruct (falls_overdue_cases now t) as [Hf|Hf].
  - rewrite (overdueCallback_falls _ _ Hf) in Ht. discriminate.
  - now rewrite (overdueCallback_stays _ _ Hf).
Qed.

(** A load of a readable document on a writable file: the collection is
    the derivation of the document's tasks, and the file holds it. *)
Lemma loadTasks_writable (st : State) (d : TasksData) :
  disk (world st) = Some (Document d) ->
  writable (world st) = true ->
  exists st',
    loadTasks st = (inr tt, st')
    /\ tasks st'
       = map (fun t => fst (overdueCallback (current (world st)) t)) (data_tasks d)
    /\ written_through st'
    /\ writable (world st') = true
    /\ clock (world st') = clock (world st)
    /\ (reads (world st) < reads (world st'))%nat.
Proof.
  intros Hd Hw. rewrite (loadTasks_document _ _ Hd), updateOverdueStatus_run.
  cbv zeta. cbn [tasks world].
  destruct (existsb _ (data_tasks d)) eqn:Hch.
  - rewrite saveTasks_run. simpl. rewrite Hw.
    eexists. split; [reflexivity|]. simpl. split; [reflexivity|].
    split; [eexists; reflexivity|]. split; [exact Hw|]. split; [reflexivity|lia].
  - eexists. split; [reflexivity|]. simpl. split; [reflexivity|].
    split; [|split; [exact Hw|split; [reflexivity|lia]]].
    exists (lastUpdated d). simpl. rewrite Hd, (unchanged_map _ _ Hch).
    now destruct d.
Qed.

Lemma find_task_map (id : option string) (f : Task -> Task) (ts : list Task) :
  (forall t, task_id (f t) = task_id t) ->
  find_task id (map f ts) = f <$> find_task id ts.
Proof.
  intros Hf. unfold find_task. induction ts as [|t ts IH]; [reflexivity|].
  simpl. unfold has_id at 1 3. rewrite Hf.
  destruct (bool_decide (Some (task_id t) = id)); [reflexivity|exact IH].
Qed.

Lemma getTaskById_writable (st : State) (d : TasksData) (id : option string) :
  disk (world st) = Some (Document d) ->
  writable (world st) = true ->
  exists st',
    getTaskById id st
    = (inr ((fun t => fst (overdueCallback (current (world st)) t))
              <$> find_task id (data_tasks d)), st').
Proof.
  intros Hd Hw.
  destruct (loadTasks_writable st d Hd Hw) as (st' & Hl & Hts & _).
  exists st'. unfold getTaskById, reloadTasks. unfold_store. rewrite Hl. simpl.
  rewrite Hts, find_task_map; [reflexivity|]. intros t. apply overdueCallback_id.
Qed.

Lemma find_task_none (id : option string) (ts : list Task) :
  find_task id ts = None -> Forall (fun t => Some (task_id t) <> id) ts.
Proof.
  unfold find_task. induction ts as [|t ts IH]; [constructor|].
  simpl. destruct (has_id id t) eqn:Ht; [discriminate|].
  intros Hfind. constructor; [now apply has_id_false|now apply IH].
Qed.

Lemma deleteTask_at (st : State) (id : option string) (before after : list Task)
    (task : Task) :
  tasks st = before ++ task :: after ->
  Forall (fun t => Some (task_id t) <> id) before ->
  Some (task_id task) = id ->
  writable (world st) = true ->
  exists st',
    deleteTask id st = (inr true, st')
    /\ tasks st' = before ++ after
    /\ written_through st'
    /\ writable (world st') = true.
Proof.
  intros Hts Hb Hid Hw.
  destruct (findIndex_at id before after task Hb Hid) as [Hindex Hsplice].
  rewrite deleteTask_run, Hts, Hindex, saveTasks_run. simpl. rewrite Hw, Hsplice.
  eexists. split; [reflexivity|]. simpl. split; [reflexivity|].
  split; [eexists; reflexivity|exact Hw].
Qed.

(** X5. What [addTask] added is removed again by deleting the id it
    returned, provided no older task has that id: the collection is then
    the one before the addition. When an older task has the id, it is the
    older task that the deletion removes, and the new one stays. *)
Theorem add_then_delete (st : State) (input : TaskInput) :
  writable (world st) = true ->
  let newTask := added (world st) input in
  exists st1 st2,
    addTask input st = (inr newTask, st1)
    /\ deleteTask (Some (task_id newTask)) st1 = (inr true, st2)
    /\ (Forall (fun t => task_id t <> task_id newTask) (tasks st) ->
        tasks st2 = tasks st)
    /\ (forall old,
          find_task (Some (task_id newTask)) (tasks st) = Some old ->
          exists before after,
            tasks st = before ++ old :: after
            /\ tasks st2 = before ++ after ++ [newTask]).
Proof.
  intros Hw newTask. rewrite addTask_run. cbv zeta. rewrite Hw. fold newTask.
  match goal with
  | |- exists st1 st2, (_, ?s) = (_, st1) /\ _ => set (st1 := s)
  end.
  exists st1.
  assert (Hw1 : writable (world st1) = true) by exact Hw.
  destruct (find_task (Some (task_id newTask)) (tasks st)) as [old|] eqn:Hfind.
  - destruct (find_task_split _ _ _ Hfind) as (before & after & Hts & Hb & Hid).
    assert (Hts1 : tasks st1 = before ++ old :: (after ++ [newTask])).
    { unfold st1. simpl. rewrite Hts, <- app_assoc. reflexivity. }
    destruct (deleteTask_at st1 _ _ _ _ Hts1 Hb Hid Hw1) as (st2 & Hdel & Hts2 & _).
    exists st2. split; [reflexivity|]. split; [exact Hdel|]. split.
    + intros Hfresh. exfalso. rewrite Hts in Hfresh.
      apply Forall_app in Hfresh as [_ Hfresh].
      apply Forall_cons in Hfresh as [Hold _]. congruence.
    + intros old' [= <-]. exists before, after. split; [exact Hts|exact Hts2].
  - pose proof (find_task_none _ _ Hfind) as Hb.
    assert (Hts1 : tasks st1 = tasks st ++ newTask :: []) by reflexivity.
    destruct (deleteTask_at st1 _ _ _ _ Hts1 Hb eq_refl Hw1) as (st2 & Hdel & Hts2 & _).
    exists st2. split; [reflexivity|]. split; [exact Hdel|]. split.
    + intros _. rewrite Hts2. apply app_nil_r.
    + intros old [=].
Qed.


(** X6. After an addition on a writable document, a lookup of the id
    returned finds a task with that id: the added record as the reload
    derives it (itself, or overdue if its due date has passed) when no
    older task has the id, and the older task otherwise. *)
Theorem added_task_is_found (st : State) (input : TaskInput) :
  writable (world st) = true ->
  let newTask := added (world st) input in
  exists st1 found st2,
    addTask input st = (inr newTask, st1)
    /\ getTaskById (Some (task_id newTask)) st1 = (inr (Some found), st2)
    /\ task_id found = task_id newTask
    /\ (Forall (fun t => task_id t <> task_id newTask) (tasks st) ->
        derived (current (world st1)) newTask found)
    /\ (forall old,
          find_task (Some (task_id newTask)) (tasks st) = Some old ->
          derived (current (world st1)) old found).
Proof.
  intros Hw newTask. rewrite addTask_run. cbv zeta. rewrite Hw. fold newTask.
  match goal with
  | |- exists st1 found st2, (_, ?s) = (_, st1) /\ _ => set (st1 := s)
  end.
  exists st1.
  destruct (getTaskById_writable st1 _ (Some (task_id newTask)) eq_refl Hw)
    as (st2 & Hget).
  cbn [data_tasks] in Hget.
  destruct (find_task (Some (task_id newTask)) (tasks st)) as [old|] eqn:Hfind.
  - destruct (find_task_split _ _ _ Hfind) as (before & after & Hts & Hb & Hid).
    assert (Hfind1 : find_task (Some (task_id newTask)) (tasks st ++ [newTask])
                     = Some old).
    { rewrite Hts, <- app_assoc. now apply find_task_at. }
    rewrite Hfind1 in Hget. eexists. exists st2.
    split; [reflexivity|]. split; [exact Hget|]. split; [|split].
    + rewrite overdueCallback_id. congruence.
    + intros Hfresh. exfalso. rewrite Hts in Hfresh.
      apply Forall_app in Hfresh as [_ Hfresh].
      apply Forall_cons in Hfresh as [Hold _]. congruence.
    + intros old' [= <-]. apply overdueCallback_derived.
  - assert (Hfind1 : find_task (Some (task_id newTask)) (tasks st ++ [newTask])
                     = Some newTask).
    { apply find_task_at; [now apply find_task_none|reflexivity]. }
    rewrite Hfind1 in Hget. eexists. exists st2.
    split; [reflexivity|]. split; [exact Hget|]. split; [|split].
    + apply overdueCallback_id.
    + intros _. apply overdueCallback_derived.
    + intros old [=].
Qed.

(** X7. On a writable file every change of the collection is written
    through: after an addition, after a status update or a deletion of an
    id that is there, and after a load of a document or of no file at
    all, the file holds the collection that is in memory. *)
Theorem changes_are_written_through (st : State) :
  writable (world st) = true ->
  (forall input, written_through (snd (addTask input st)))
  /\ (forall id s task,
        find_task id (tasks st) = Some task ->
        written_through (snd (updateTaskStatus id s st)))
  /\ (forall id task,
        find_task id (tasks st) = Some task ->
        written_through (snd (deleteTask id st)))
  /\ (disk (world st) <> Some Unusable ->
      disk (world st) <> Some Malformed ->
      written_through (snd (loadTasks st))).
Proof.
  intros Hw. split; [|split; [|split]].
  - intros input. rewrite addTask_run. cbv zeta. rewrite Hw. eexists. reflexivity.
  - intros id s task Hfind. rewrite updateTaskStatus_run, Hfind. cbv zeta.
    rewrite saveTasks_run. simpl. rewrite Hw. eexists. reflexivity.
  - intros id task Hfind.
    destruct (find_task_split _ _ _ Hfind) as (before & after & Hts & Hb & Hid).
    destruct (deleteTask_at st _ _ _ _ Hts Hb Hid Hw) as (st' & -> & _ & Hwt & _).
    exact Hwt.
  - intros Hd Hm.
    destruct (disk (world st)) as [[| |d]|] eqn:Hdisk; [congruence|congruence| |].
    + destruct (loadTasks_writable st d Hdisk Hw) as (st' & -> & _ & Hwt & _).
      exact Hwt.
    + unfold loadTasks, createSampleTasks. unfold_store. rewrite Hdisk. simpl.
      rewrite Hw. simpl. rewrite updateOverdueStatus_run. cbv zeta. cbn [tasks world].
      match goal with
      | |- context [existsb ?f ?l] => destruct (existsb f l) eqn:Hch
      end.
      * rewrite saveTasks_run. simpl. rewrite Hw. eexists. reflexivity.
      * pose proof (unchanged_map _ _ Hch) as Hsame.
        unfold written_through. cbn [snd tasks world disk store] in *.
        rewrite Hsame. eexists. reflexivity.
Qed.

(** X8. A status that is neither completed nor kept by the due date does
    not last: after an update of a task whose due date has passed to any
    status but completed, the next lookup, which reloads, finds the task
    overdue; an update to completed is found as completed. *)
Theorem reopened_task_turns_overdue_again (st : State) (id : option string)
    (s : option TaskStatus) (task : Task) (due : Z) :
  find_task id (tasks st) = Some task ->
  writable (world st) = true ->
  due_time task = Some due ->
  due < current (advance (advance (world st))) ->
  exists st1 found st2,
    updateTaskStatus id s st
    = (inr (Some (with_status task s (toISOString (current (world st))))), st1)
    /\ getTaskById id st1 = (inr (Some found), st2)
    /\ (s <> Some completed -> status found = Some overdue)
    /\ (s = Some completed -> found = with_status task s (toISOString (current (world st)))).
Proof.
  intros Hfind Hw Hdue Hpast.
  destruct (find_task_split _ _ _ Hfind) as (before & after & Hts & Hb & Hid).
  rewrite updateTaskStatus_run, Hfind. cbv zeta. rewrite saveTasks_run. simpl.
  rewrite Hw.
  match goal with
  | |- exists st1 found st2, (_, ?s) = (_, st1) /\ _ => set (st1 := s)
  end.
  exists st1.
  destruct (getTaskById_writable st1 _ id eq_refl Hw) as (st2 & Hget).
  cbn [data_tasks] in Hget.
  rewrite Hts, (assign_status_at _ _ _ _ _ _ Hb Hid) in Hget.
  rewrite (find_task_at _ _ _ _ Hb) in Hget by exact Hid.
  eexists. exists st2. split; [reflexivity|]. split; [exact Hget|].
  set (now := current (world st1)).
  set (updated := with_status task s (toISOString (current (world st)))).
  simpl fmap. split.
  - intros Hs. destruct (decide (s = Some overdue)) as [->|Ho].
    + rewrite overdueCallback_stays; [reflexivity|].
      intros (_ & _ & Hno). now apply Hno.
    + rewrite overdueCallback_falls; [reflexivity|].
      split; [|split; assumption]. exists due. split; [exact Hdue|exact Hpast].
  - intros ->. rewrite overdueCallback_stays; [reflexivity|].
    intros (_ & Hno & _). now apply Hno.
Qed.

(** X9. The overdue derivation is idempotent and touches nothing else: a
    second pass at the same instant changes no task and reports no
    change, and a pass keeps the number of tasks, their order, and every
    field of every task but [status] and [updatedAt]. *)
Theorem derivation_is_idempotent (now : Z) (ts : list Task) :
  let ts' := fst (forEachOverdue now ts false) in
  forEachOverdue now ts' false = (ts', false)
  /\ Forall2
       (fun t t' =>
          (task_id t', title t', description t', priority t', dueDate t',
           tags t', createdAt t')
          = (task_id t, title t, description t, priority t, dueDate t,
             tags t, createdAt t))
       ts ts'.
Proof.
  cbv zeta. rewrite !forEachOverdue_map. simpl. split.
  - induction ts as [|t ts IH]; [reflexivity|].
    simpl. injection IH as IHmap IHflag. rewrite IHmap, IHflag.
    assert (Hstay : overdueCallback now (fst (overdueCallback now t))
                    = (fst (overdueCallback now t), false)).
    { apply overdueCallback_stays.
      destruct (falls_overdue_cases now t) as [Hf|Hf].
      - rewrite (overdueCallback_falls _ _ Hf). intros (_ & _ & Hno). now apply Hno.
      - now rewrite (overdueCallback_stays _ _ Hf). }
    rewrite Hstay. reflexivity.
  - induction ts as [|t ts IH]; simpl; constructor; [|exact IH].
    destruct (falls_overdue_cases now t) as [Hf|Hf].
    + now rewrite (overdueCallback_falls _ _ Hf).
    + now rewrite (overdueCallback_stays _ _ Hf).
Qed.


(** ** The counters of the summary *)





(** X11. The first load on a path with no file, the path being
    writable, writes the starter set and leaves in memory, and in the
    file, five tasks with the ids "1" to "5"; the file then exists, so
    that no later load writes the starter set again. The third of them,
    due a day before, is overdue after that load when the clock has not
    gone back by a day meanwhile. *)
Theorem first_load_creates_the_document (st : State) :
  disk (world st) = None ->
  writable (world st) = true ->
  let now := current (world st) in
  exists st',
    constructor st = (inr tt, st')
    /\ written_through st'
    /\ map task_id (tasks st') = ["1"; "2"; "3"; "4"; "5"]
    /\ (exists more,
          written (world st')
          = written (world st)
            ++ mkTasksData (sampleTasks now) (toISOString now) :: more)
    /\ (String.eqb (toISOString (now - day_ms)) "" = false ->
        Date_parse (toISOString (now - day_ms)) = Some (now - day_ms) ->
        now - day_ms < current (advance (world st)) ->
        (status <$> tasks st' !! 2%nat) = Some (Some overdue)).
Proof.
  intros Hd Hw now.
  unfold constructor, loadTasks, createSampleTasks. unfold_store.
  rewrite Hd. simpl. rewrite Hw. simpl. rewrite updateOverdueStatus_run.
  cbv zeta. cbn [tasks world]. fold now.
  set (w1 := store _ (advance (world st))).
  set (now1 := current w1).
  assert (Hids : map task_id (map (fun t => fst (overdueCallback now1 t)) (sampleTasks now))
                 = ["1"; "2"; "3"; "4"; "5"]).
  { rewrite map_map. simpl. now rewrite !overdueCallback_id. }
  assert (Hthird : String.eqb (toISOString (now - day_ms)) "" = false ->
                   Date_parse (toISOString (now - day_ms)) = Some (now - day_ms) ->
                   now - day_ms < now1 ->
                   (status <$> map (fun t => fst (overdueCallback now1 t))
                                 (sampleTasks now) !! 2%nat)
                   = Some (Some overdue)).
  { intros Hne Hiso Hlt. simpl. rewrite overdueCallback_falls; [reflexivity|].
    split; [|split; discriminate]. exists (now - day_ms). split; [|exact Hlt].
    unfold due_time. simpl. now rewrite Hne. }
  destruct (existsb _ (sampleTasks now)) eqn:Hch.
  - rewrite saveTasks_run. simpl. rewrite Hw.
    eexists. split; [reflexivity|]. simpl.
    split; [eexists; reflexivity|]. split; [exact Hids|].
    split; [|exact Hthird]. eexists. rewrite <- app_assoc. reflexivity.
  - eexists. split; [reflexivity|]. cbn [tasks world].
    split; [|split; [exact Hids|split; [|exact Hthird]]].
    + unfold written_through. cbn [tasks world]. rewrite (unchanged_map _ _ Hch).
      eexists. reflexivity.
    + exists []. reflexivity.
Qed.

End StoreCompositions.

(** ** The tool handler over the store *)

Section HandlerCompositions.
Context `{Platform}.

Lemma getTasks_run (filter : option TaskFilter) (st : State) :
  getTasks filter st
  = match loadTasks st with
    | (inr tt, st1) =>
        (inr (match filter with
              | Some f => applyFilter f (tasks st1)
              | None => tasks st1
              end), st1)
    | (inl e, st1) => (inl e, st1)
    end.
Proof.
  unfold getTasks, reloadTasks. unfold_store.
  destruct (loadTasks st) as [[e|[]] st1]; reflexivity.
Qed.

Lemma getTaskById_run (id : option string) (st : State) :
  getTaskById id st
  = match loadTasks st with
    | (inr tt, st1) => (inr (find_task id (tasks st1)), st1)
    | (inl e, st1) => (inl e, st1)
    end.
Proof.
  unfold getTaskById, reloadTasks. unfold_store.
  destruct (loadTasks st) as [[e|[]] st1]; reflexivity.
Qed.

Lemma same_store_refl (st : State) : same_store st st.
Proof. repeat split. Qed.

Lemma same_store_advance (st : State) :
  same_store (mkState (tasks st) (advance (world st))) st.
Proof. repeat split. Qed.

(** X12. The catalogue and the [switch] name the same tools: a call is
    answered with the unknown-tool text exactly when its name is not
    among the names the server lists. *)
Theorem listed_tools_are_the_handled_ones (request : CallToolRequest) (st : State) :
  exists r st',
    callToolHandler request st = (inr r, st')
    /\ (name request ∈ tool_names
        <-> content r <> [Txt ("Неизвестный инструмент: " +:+ name request)]).
Proof.
  rewrite callToolHandler_catches.
  destruct (decide (name request ∈ tool_names)) as [Hin|Hout].
  - assert (Hr : forall r st', handleCall request st = (inr r, st') ->
                 content r <> [Txt ("Неизвестный инструмент: " +:+ name request)]).
    { intros r st'. unfold handleCall. unfold tool_names in Hin.
      repeat (apply elem_of_cons in Hin as [->|Hin]);
        [..|now apply elem_of_nil in Hin]; pick_case; unfold_store.
      - destruct (getTasks _ st) as [[e|ts] st1]; intros [= <- <-]; discriminate.
      - destruct (getSummary st) as [[e|s] st1]; intros [= <- <-]; discriminate.
      - destruct (getTaskById _ st) as [[e|[t|]] st1]; intros [= <- <-]; discriminate.
      - destruct (addTask _ st) as [[e|t] st1]; intros [= <- <-]; discriminate.
      - destruct (updateTaskStatus _ _ st) as [[e|[t|]] st1]; intros [= <- <-];
          discriminate.
      - destruct (deleteTask _ st) as [[e|[]] st1]; intros [= <- <-]; discriminate.
      - destruct (getSummary st) as [[e|s] st1]; intros [= <- <-]; discriminate.
      - destruct (getSummary st) as [[e|s] st1]; intros [= <- <-]; discriminate. }
    destruct (handleCall request st) as [[e|r] st1].
    + eexists. eexists. split; [reflexivity|]. split; [discriminate|]. intros _. exact Hin.
    + exists r, st1. split; [reflexivity|]. split; [|intros _; exact Hin].
      intros _. now apply (Hr r st1).
  - rewrite (handleCall_unknown _ _ Hout). eexists. eexists.
    split; [reflexivity|]. simpl. split; [intros Hin; contradiction|].
    intros Hne. now contradict Hne.
Qed.

(** X13. The tool [get_overdue_tasks] answers what [get_tasks] answers
    under the filter [{ status: 'overdue' }], whatever the arguments it is
    given, and leaves the store in the same state up to one more reading
    of the clock. *)
Theorem overdue_tool_is_the_status_filter (args : option ToolArguments)
    (st : State) :
  let by_tool := callToolHandler (mkCallToolRequest "get_overdue_tasks" args) st in
  let by_filter :=
    callToolHandler (mkCallToolRequest "get_tasks" (Some overdue_only)) st in
  fst by_tool = fst by_filter
  /\ same_store (snd by_tool) (snd by_filter).
Proof.
  cbv zeta. rewrite !callToolHandler_catches. unfold handleCall.
  cbn [name arguments]. pick_case. unfold_store.
  rewrite getSummary_run, getTasks_run.
  destruct (loadTasks st) as [[e|[]] st1]; simpl.
  - split; [reflexivity|apply same_store_refl].
  - split; [reflexivity|apply same_store_advance].
Qed.

(** X14. The five reading tools are not free of effects: each of them
    reloads the file, and leaves the collection, the file, the console
    and the list of documents written exactly as a load alone leaves
    them, whatever its arguments and its answer. *)
Theorem reading_tools_only_reload (request : CallToolRequest) (st : State) :
  name request ∈ reading_tools ->
  same_store (snd (callToolHandler request st)) (snd (loadTasks st)).
Proof.
  intros Hin. rewrite callToolHandler_catches. unfold handleCall.
  unfold reading_tools in Hin.
  repeat (apply elem_of_cons in Hin as [->|Hin]); [..|now apply elem_of_nil in Hin];
    pick_case; unfold_store;
    rewrite ?getSummary_run, ?getTasks_run, ?getTaskById_run;
    destruct (loadTasks st) as [[e|[]] st1]; simpl;
    try apply same_store_refl; try apply same_store_advance.
Qed.

End HandlerCompositions.

(** ** The framer and the wire *)





Section ClientCompositions.
Context `{Platform}.

Lemma serverProcess_processLine (rt : Runtime) (line : string) :
  serverProcess (client (processLine rt line)) = serverProcess (client rt)
  /\ messageId (client (processLine rt line)) = messageId (client rt)
  /\ requested (processLine rt line) = requested rt.
Proof.
  destruct (processLine_cases rt line)
    as (extra & Hlog & Hreq & _ & _
        & [[Hc _]|[(m & k & p & o & _ & _ & _ & _ & Hc & _)
                  |(m & k & p & _ & _ & _ & _ & _ & Hc & _)]]);
    rewrite Hc; (split; [reflexivity|split; [reflexivity|]]);
    unfold requested; rewrite Hlog, omap_app, Hreq; apply app_nil_r.
Qed.

Lemma serverProcess_fold_processLine (lines : list string) (rt : Runtime) :
  serverProcess (client (fold_left processLine lines rt)) = serverProcess (client rt)
  /\ messageId (client (fold_left processLine lines rt)) = messageId (client rt)
  /\ requested (fold_left processLine lines rt) = requested rt.
Proof.
  revert rt. induction lines as [|l lines IH]; intros rt; [repeat split|].
  simpl. destruct (IH (processLine rt l)) as (-> & -> & ->).
  apply serverProcess_processLine.
Qed.

Lemma serverProcess_onData (chunk : string) (rt : Runtime) :
  serverProcess (client (onData chunk rt)) = serverProcess (client rt)
  /\ messageId (client (onData chunk rt)) = messageId (client rt)
  /\ requested (onData chunk rt) = requested rt.
Proof.
  rewrite onData_fold. cbv zeta.
  apply (serverProcess_fold_processLine _ rt).
Qed.

Lemma serverProcess_fireTimer (n : nat) (rt : Runtime) :
  serverProcess (client (fireTimer n rt)) = serverProcess (client rt)
  /\ messageId (client (fireTimer n rt)) = messageId (client rt)
  /\ requested (fireTimer n rt) = requested rt.
Proof.
  unfold fireTimer. destruct (timers rt !! n) as [t|]; [|repeat split].
  unfold timeoutCallback. simpl.
  destruct (pendingRequests (client rt) !! timer_id t); repeat split.
Qed.

Lemma wire_in_order_same (rt rt' : Runtime) :
  serverProcess (client rt') = serverProcess (client rt)
  /\ messageId (client rt') = messageId (client rt)
  /\ requested rt' = requested rt ->
  wire_in_order rt -> wire_in_order rt'.
Proof.
  intros (Hs & Hm & Hr). unfold wire_in_order, written_requests.
  now rewrite Hs, Hm, Hr.
Qed.

Lemma wire_in_order_empty (rt : Runtime) :
  written_requests rt = [] -> wire_in_order rt.
Proof.
  intros Hw. unfold wire_in_order. rewrite Hw. split; [|constructor].
  intros i j a b _ Hi. discriminate.
Qed.

Lemma wire_in_order_sendRequest (method : string) (params : option JSON) (rt : Runtime) :
  messageId (client (sendRequest method params rt)) < 2 ^ 53 ->
  consistent rt -> wire_in_order rt -> wire_in_order (sendRequest method params rt).
Proof.
  intros Hlt Hc [Hsorted Hall]. simpl in Hlt.
  pose proof (js_incr_exact _ Hlt) as Hid.
  pose proof (counter_exact _ Hc) as Hcount.
  destruct (serverProcess (client rt)) as [lines|] eqn:Hs.
  2:{ apply wire_in_order_empty. unfold written_requests. simpl. now rewrite Hs. }
  assert (Hw : written_requests (sendRequest method params rt)
               = written_requests rt ++ [(js_incr (messageId (client rt)), method)]).
  { unfold written_requests. simpl. rewrite Hs. simpl. now rewrite omap_app. }
  assert (Hreq : requested (sendRequest method params rt) = requested rt ++ [method]).
  { unfold requested. simpl. now rewrite omap_app. }
  split.
  - rewrite Hw. intros i j a b Hij Hi Hj.
    assert (Hlen : (i < length (written_requests rt))%nat).
    { apply lookup_lt_Some in Hj. rewrite length_app in Hj. simpl in Hj. lia. }
    rewrite lookup_app_l in Hi by exact Hlen.
    destruct (decide (j < length (written_requests rt))%nat) as [Hj'|Hj'].
    + rewrite lookup_app_l in Hj by exact Hj'. exact (Hsorted i j a b Hij Hi Hj).
    + rewrite lookup_app_r in Hj by lia.
      apply list_lookup_singleton_Some in Hj as [_ <-]. simpl.
      rewrite Forall_lookup in Hall. destruct (Hall i a Hi) as [Ha _]. lia.
  - rewrite Hw, Hreq. apply Forall_app. split.
    + eapply Forall_impl; [exact Hall|]. intros r [Hr Hm]. simpl. split; [lia|].
      now apply lookup_app_l_Some.
    + constructor; [|constructor]. simpl. split; [lia|].
      rewrite Hid.
      replace (Z.to_nat (messageId (client rt) + 1 - 1)) with (length (requested rt)).
      * rewrite lookup_app_r by lia. now rewrite Nat.sub_diag.
      * rewrite (requested_all _ Hc), (counter_exact _ Hc). lia.
Qed.

Lemma wire_in_order_step (rt : Runtime) (e : Event) :
  messageId (client (step rt e)) < 2 ^ 53 ->
  consistent rt -> wire_in_order rt -> wire_in_order (step rt e).
Proof.
  intros Hlt Hc Hw. destruct e as [|method params| |chunk|n|]; simpl in *.
  - now apply wire_in_order_empty.
  - now apply wire_in_order_sendRequest.
  - destruct Hw as [Hsorted Hall].
    assert (Heq : written_requests (notifyInitialized rt) = written_requests rt).
    { unfold written_requests. simpl.
      destruct (serverProcess (client rt)); [|reflexivity].
      simpl. rewrite omap_app. apply app_nil_r. }
    unfold wire_in_order. rewrite Heq. split; assumption.
  - eapply wire_in_order_same; [apply serverProcess_onData|exact Hw].
  - eapply wire_in_order_same; [apply serverProcess_fireTimer|exact Hw].
  - now apply wire_in_order_empty.
Qed.

Lemma wire_in_order_run (es : list Event) :
  messageId (client (run newClient es)) < 2 ^ 53 ->
  wire_in_order (run newClient es).
Proof.
  induction es as [|e es IH] using rev_ind; intros Hlt.
  - now apply wire_in_order_empty.
  - unfold run in *. rewrite fold_left_app in *. simpl in *.
    pose proof (messageId_step (fold_left step es newClient) e) as Hle.
    apply wire_in_order_step; [exact Hlt| |apply IH; lia].
    apply (consistent_run es). unfold run. lia.
Qed.

(** X15. Along every run of a client whose counter is still exact, the
    requests written to one child carry strictly increasing ids, so that
    no two of them share an id, and each carries the id and the method of
    one call of [sendRequest]; a call made while there is no child writes
    nothing, yet takes an id and an entry in the pending table. *)
Theorem requests_on_the_wire_are_numbered (es : list Event) :
  let rt := run newClient es in
  messageId (client rt) < 2 ^ 53 ->
  (forall i j a b,
     (i < j)%nat ->
     written_requests rt !! i = Some a ->
     written_requests rt !! j = Some b ->
     a.1 < b.1)
  /\ (forall id method,
        (id, method) ∈ written_requests rt ->
        exists p, id = request_id p /\ requested rt !! p = Some method)
  /\ (forall method params,
        serverProcess (client rt) = None ->
        let rt' := sendRequest method params rt in
        serverProcess (client rt') = None
        /\ written_requests rt' = []
        /\ pendingRequests (client rt') !! messageId (client rt') = Some (promises rt)).
Proof.
  intros rt Hlt. destruct (wire_in_order_run es Hlt) as [Hsorted Hall].
  fold rt in Hsorted, Hall. split; [exact Hsorted|]. split.
  - intros id method Hin. rewrite Forall_forall in Hall.
    destruct (Hall _ Hin) as [Hid Hm]. simpl in *.
    exists (Z.to_nat (id - 1)). split; [unfold request_id; lia|exact Hm].
  - intros method params Hnone. cbv zeta. unfold written_requests. simpl.
    rewrite Hnone. simpl.
    split; [reflexivity|]. split; [reflexivity|]. apply lookup_insert_eq.
Qed.


End ClientCompositions.

(** ** What the client makes of a response *)

Lemma or_else_truthy (v : option JSON) (d : JSON) :
  truthy_json (Some (or_else v d)) = true \/ or_else v d = d.
Proof.
  unfold or_else. destruct v as [x|]; [|now right].
  destruct (truthy_json (Some x)) eqn:Hx; [now left|now right].
Qed.

Lemma result_property_throws (result : option JSON) (key : string) :
  result_property result key = None <-> result = None \/ result = Some JNull.
Proof.
  unfold result_property. destruct result as [[]|]; simpl; split;
    try discriminate; try (intros [|]; discriminate); try (intros _; now right);
    try (intros _; now left); try reflexivity.
Qed.

(** X17. [callTool] returns the [text] of the first item of the
    [content] of the result when that is a non-empty string, and the
    empty string when there is no such item or text; it looks at nothing
    else of the result, so that an error-flagged result is returned like
    any other; it never returns a falsy value other than the empty
    string; and it throws only what the request was rejected with, or a
    TypeError when the response carried no result or [null]. *)
Theorem callTool_returns_the_first_text (o : Outcome) :
  (forall failure,
     callTool_resumed o = inl failure
     <-> (exists reason, o = Rejected reason /\ failure = Passed reason)
         \/ (failure = TypeError /\ (o = Resolved None \/ o = Resolved (Some JNull))))
  /\ (forall v,
        callTool_resumed o = inr v -> truthy_json (Some v) = true \/ v = JString "")
  /\ (forall fields item rest s,
        o = Resolved (Some (JObject fields)) ->
        lookup_field "content" fields = Some (JArray (item :: rest)) ->
        get_property item "text" = Some (Some (JString s)) ->
        s <> "" ->
        callTool_resumed o = inr (JString s))
  /\ (forall fields,
        o = Resolved (Some (JObject fields)) ->
        first_text (lookup_field "content" fields) = None ->
        callTool_resumed o = inr (JString ""))
  /\ (forall fields fields',
        o = Resolved (Some (JObject fields)) ->
        lookup_field "content" fields' = lookup_field "content" fields ->
        callTool_resumed (Resolved (Some (JObject fields'))) = callTool_resumed o).
Proof.
  split; [|split; [|split; [|split]]].
  - intros failure. destruct o as [result|reason]; simpl.
    + destruct (result_property result "content") as [content|] eqn:Hres.
      * split; [discriminate|]. intros [(reason & [=] & _)|[_ Hnull]].
        assert (Hthrows : result_property result "content" = None).
        { apply result_property_throws. destruct Hnull as [[= ->]|[= ->]]; auto. }
        rewrite Hthrows in Hres. discriminate.
      * apply result_property_throws in Hres. split.
        -- intros [= <-]. right. split; [reflexivity|].
           destruct Hres as [->| ->]; auto.
        -- intros [(reason & [=] & _)|[-> _]]. reflexivity.
    + split.
      * intros [= <-]. left. now exists reason.
      * intros [(r & [= ->] & ->)|[_ [[=]|[=]]]]. reflexivity.
  - intros v. destruct o as [result|reason]; simpl; [|discriminate].
    destruct (result_property result "content") as [content|]; [|discriminate].
    intros [= <-]. apply or_else_truthy.
  - intros fields item rest s -> Hcontent Htext Hs. simpl. rewrite Hcontent. simpl.
    unfold optional_text. simpl. rewrite Htext. simpl.
    destruct (String.eqb_spec s ""); [contradiction|reflexivity].
  - intros fields -> Hnone. simpl. now rewrite Hnone.
  - intros fields fields' -> Hsame. simpl. now rewrite Hsame.
Qed.

Lemma toCompletionTool_object (tool : JSON) :
  tool <> JNull ->
  exists c,
    toCompletionTool tool = Some c
    /\ get_property tool "name" = Some (tool_name c)
    /\ get_property tool "description" = Some (tool_description c)
    /\ get_property tool "inputSchema" = Some (tool_parameters c).
Proof.
  intros Hnn. destruct tool; try contradiction;
    (eexists; split; [reflexivity|]; repeat split).
Qed.

Lemma mapM_toCompletionTool (items : list JSON) :
  Forall (fun t => t <> JNull) items ->
  exists tools,
    mapM toCompletionTool items = Some tools
    /\ Forall2
         (fun t c =>
            get_property t "name" = Some (tool_name c)
            /\ get_property t "description" = Some (tool_description c)
            /\ get_property t "inputSchema" = Some (tool_parameters c))
         items tools.
Proof.
  induction 1 as [|t items Ht _ (tools & Hmap & Hall)].
  - exists []. split; [reflexivity|constructor].
  - destruct (toCompletionTool_object t Ht) as (c & Hc & Hprops).
    exists (c :: tools). split; [|now constructor].
    simpl. rewrite Hc. simpl. now rewrite Hmap.
Qed.

(** X18. The tool table of the agent follows the listing: for a result
    whose [tools] is an array without [null], the table has one entry for
    each element, in order, with the [name], [description] and
    [inputSchema] of that element; a result without [tools], or with a
    falsy one, gives the empty table and no failure; a response with no
    result, a [tools] that is truthy and no array, or a [null] among the
    elements makes the initialisation throw a TypeError. *)
Theorem tool_table_follows_the_listing (fields : list (string * JSON)) :
  let o := Resolved (Some (JObject fields)) in
  (forall items,
     lookup_field "tools" fields = Some (JArray items) ->
     Forall (fun t => t <> JNull) items ->
     exists tools,
       loadTools o = inr tools
       /\ Forall2
            (fun t c =>
               get_property t "name" = Some (tool_name c)
               /\ get_property t "description" = Some (tool_description c)
               /\ get_property t "inputSchema" = Some (tool_parameters c))
            items tools)
  /\ (truthy_json (lookup_field "tools" fields) = false -> loadTools o = inr [])
  /\ (forall items,
        lookup_field "tools" fields = Some (JArray items) ->
        JNull ∈ items ->
        loadTools o = inl TypeError)
  /\ (forall tools,
        lookup_field "tools" fields = Some tools ->
        truthy_json (Some tools) = true ->
        (forall items, tools <> JArray items) ->
        loadTools o = inl TypeError)
  /\ loadTools (Resolved None) = inl TypeError
  /\ loadTools (Resolved (Some JNull)) = inl TypeError.
Proof.
  assert (Hload : loadTools (Resolved (Some (JObject fields)))
                  = convertTools (or_else (lookup_field "tools" fields) (JArray []))).
  { reflexivity. }
  cbv zeta. rewrite Hload.
  split; [|split; [|split; [|split; [|split; reflexivity]]]].
  - intros items -> Hall. simpl.
    destruct (mapM_toCompletionTool items Hall) as (tools & -> & Hprops).
    now exists tools.
  - intros Hfalsy. unfold or_else.
    destruct (lookup_field "tools" fields) as [tools|]; [|reflexivity].
    now rewrite Hfalsy.
  - intros items -> Hin. simpl.
    destruct (mapM toCompletionTool items) as [tools|] eqn:Hmap; [|reflexivity].
    exfalso. apply mapM_Some in Hmap.
    apply list_elem_of_lookup in Hin as [i Hi].
    destruct (Forall2_lookup_l _ _ _ _ _ Hmap Hi) as (c & _ & Hc). discriminate.
  - intros tools -> Htruthy Hno. unfold or_else. rewrite Htruthy.
    destruct tools; try reflexivity. exfalso. now apply (Hno items).
Qed.

(** ** The tool loop of the agent *)

Lemma answered_from_app (expected : list string) (a b : list Agent.Message) :
  Agent.answered_from expected a = true ->
  Agent.answered_from expected (a ++ b) = Agent.answered_from [] b.
Proof.
  revert expected. induction a as [|m a IH]; intros expected Ha; simpl in *.
  - apply bool_decide_eq_true in Ha as ->. reflexivity.
  - destruct m as [text|text|message|id result].
    + apply andb_true_iff in Ha as [-> Ha]. simpl. now apply IH.
    + apply andb_true_iff in Ha as [-> Ha]. simpl. now apply IH.
    + apply andb_true_iff in Ha as [-> Ha]. simpl. now apply IH.
    + destruct expected as [|next later]; [discriminate|].
      apply andb_true_iff in Ha as [-> Ha]. simpl. now apply IH.
Qed.

Lemma answered_from_tool_messages (toolCalls : list Agent.ToolCall)
    (results : list Agent.ToolContent) :
  length results = length toolCalls ->
  Agent.answered_from (Agent.call_id <$> toolCalls)
    (zip_with Agent.ToolMessage (Agent.call_id <$> toolCalls) results) = true.
Proof.
  revert results. induction toolCalls as [|c cs IH]; intros [|r rs] Hlen;
    try discriminate; [reflexivity|].
  simpl. rewrite bool_decide_eq_true_2 by reflexivity. simpl.
  apply IH. simpl in Hlen. lia.
Qed.

Section AgentFacts.
Context `{Platform}.
Variable services : Agent.Services.

Lemma answerToolCalls_cons (c : Agent.ToolCall) (cs : list Agent.ToolCall)
    (messages : list Agent.Message) (s : Agent.Session) :
  Agent.answerToolCalls services (c :: cs) messages s
  = Agent.answerToolCalls services cs
      (messages ++ [Agent.ToolMessage (Agent.call_id c)
                      (fst (Agent.runToolCall services c s))])
      (snd (Agent.runToolCall services c s)).
Proof.
  unfold Agent.answerToolCalls. simpl.
  destruct (Agent.runToolCall services c s) as [result s1]. reflexivity.
Qed.

Lemma runToolCall_session (c : Agent.ToolCall) (s : Agent.Session) :
  let s' := snd (Agent.runToolCall services c s) in
  Agent.tools s' = Agent.tools s
  /\ Agent.sent s' = Agent.sent s
  /\ Agent.announced s' = Agent.announced s ++ [Agent.function_name c]
  /\ Agent.called s'
     = Agent.called s
       ++ match Agent.parsed_arguments c with
          | Some args => [(Agent.function_name c, args)]
          | None => []
          end.
Proof.
  unfold Agent.runToolCall, Agent.parsed_arguments. cbv zeta.
  destruct (JSON_parse _) as [args|]; simpl.
  - destruct (callTool_resumed _); simpl; repeat split.
  - rewrite app_nil_r. repeat split.
Qed.

Lemma answerToolCalls_run (toolCalls : list Agent.ToolCall)
    (messages : list Agent.Message) (s : Agent.Session) :
  exists results,
    length results = length toolCalls
    /\ fst (Agent.answerToolCalls services toolCalls messages s)
       = messages ++ zip_with Agent.ToolMessage (Agent.call_id <$> toolCalls) results
    /\ Forall2
         (fun c result =>
            (Agent.parsed_arguments c = None
             <-> exists raw, result = Agent.ErrorText (Agent.ArgumentsSyntaxError raw)))
         toolCalls results
    /\ let s' := snd (Agent.answerToolCalls services toolCalls messages s) in
       Agent.tools s' = Agent.tools s
       /\ Agent.sent s' = Agent.sent s
       /\ Agent.announced s' = Agent.announced s ++ (Agent.function_name <$> toolCalls)
       /\ Agent.called s'
          = Agent.called s
            ++ omap (fun c => args ← Agent.parsed_arguments c;
                              Some (Agent.function_name c, args)) toolCalls.
Proof.
  revert messages s. induction toolCalls as [|c cs IH]; intros messages s.
  - exists []. simpl. rewrite !app_nil_r. repeat split; constructor.
  - rewrite answerToolCalls_cons.
    destruct (IH (messages ++ [Agent.ToolMessage (Agent.call_id c)
                                 (fst (Agent.runToolCall services c s))])
                 (snd (Agent.runToolCall services c s)))
      as (results & Hlen & Hmsg & Hres & Ht & Hs & Ha & Hc).
    destruct (runToolCall_session c s) as (Ht1 & Hs1 & Ha1 & Hc1).
    exists (fst (Agent.runToolCall services c s) :: results).
    split; [simpl; now rewrite Hlen|]. split; [|split].
    + rewrite Hmsg, <- app_assoc. reflexivity.
    + constructor; [|exact Hres].
      unfold Agent.runToolCall, Agent.parsed_arguments. cbv zeta.
      destruct (JSON_parse _) as [args|]; simpl.
      * split; [discriminate|]. intros [raw Hraw].
        destruct (callTool_resumed _); discriminate.
      * split; [|reflexivity]. intros _. eexists. reflexivity.
    + cbv zeta. rewrite Ht, Hs, Ha, Hc, Ht1, Hs1, Ha1, Hc1.
      split; [reflexivity|]. split; [reflexivity|].
      split; [now rewrite <- app_assoc|].
      rewrite <- app_assoc. f_equal. simpl.
      destruct (Agent.parsed_arguments c); reflexivity.
Qed.

Lemma round_well_answered (message : Agent.AssistantMessage)
    (toolCalls : list Agent.ToolCall) (messages : list Agent.Message)
    (s : Agent.Session) :
  Agent.tool_calls message = Some toolCalls ->
  Agent.well_answered messages ->
  Agent.well_answered
    (fst (Agent.answerToolCalls services toolCalls
            (messages ++ [Agent.AssistantTurn message]) s)).
Proof.
  intros Hcalls Hwell.
  destruct (answerToolCalls_run toolCalls (messages ++ [Agent.AssistantTurn message]) s)
    as (results & Hlen & -> & _).
  unfold Agent.well_answered. rewrite <- app_assoc.
  rewrite (answered_from_app _ _ _ Hwell). simpl. rewrite Hcalls. simpl.
  now apply answered_from_tool_messages.
Qed.

Lemma requested_calls_Some (response : Agent.ChatCompletion)
    (message : Agent.AssistantMessage) (toolCalls : list Agent.ToolCall) :
  Agent.requested_calls response = Some (message, toolCalls) ->
  head response = Some message
  /\ Agent.tool_calls message = Some toolCalls
  /\ toolCalls <> [].
Proof.
  unfold Agent.requested_calls. destruct (head response) as [m|]; [|discriminate].
  destruct (Agent.tool_calls m) as [[|c cs]|] eqn:Hm; try discriminate.
  intros [= <- <-]. repeat split; [exact Hm|discriminate].
Qed.

Lemma toolLoop_well_answered (fuel : nat) (fallback : string)
    (messages : list Agent.Message) (response : Agent.ChatCompletion)
    (s : Agent.Session) (ending : Agent.Ending) (messages' : list Agent.Message)
    (s' : Agent.Session) :
  Agent.well_answered messages ->
  Forall Agent.well_answered (Agent.sent s) ->
  Agent.toolLoop services fuel fallback messages response s
  = Some (ending, messages', s') ->
  Agent.well_answered messages' /\ Forall Agent.well_answered (Agent.sent s').
Proof.
  revert messages response s. induction fuel as [|fuel IH];
    intros messages response s Hwell Hsent; simpl;
    destruct (Agent.requested_calls response) as [[message toolCalls]|] eqn:Hreq;
    try discriminate; try (intros [= <- <- <-]; now split).
  apply requested_calls_Some in Hreq as (_ & Hcalls & _).
  pose proof (round_well_answered message toolCalls messages s Hcalls Hwell) as Hround.
  destruct (answerToolCalls_run toolCalls (messages ++ [Agent.AssistantTurn message]) s)
    as (results & _ & _ & _ & _ & Hs & _).
  destruct (Agent.answerToolCalls services toolCalls
              (messages ++ [Agent.AssistantTurn message]) s) as [messages1 s1].
  simpl in Hround, Hs. unfold Agent.complete.
  assert (Hsent1 : Forall Agent.well_answered (Agent.sent s1 ++ [messages1])).
  { rewrite Hs. apply Forall_app. split; [exact Hsent|]. now constructor. }
  destruct (Agent.create services _ _ messages1) as [response1|].
  - apply IH; [exact Hround|exact Hsent1].
  - intros [= <- <- <-]. now split.
Qed.

Lemma converse_well_answered (fuel : nat) (fallback : string)
    (messages : list Agent.Message) (s : Agent.Session) (ending : Agent.Ending)
    (messages' : list Agent.Message) (s' : Agent.Session) :
  Agent.well_answered messages ->
  Forall Agent.well_answered (Agent.sent s) ->
  Agent.converse services fuel fallback messages s = Some (ending, messages', s') ->
  Agent.well_answered messages' /\ Forall Agent.well_answered (Agent.sent s').
Proof.
  intros Hwell Hsent. unfold Agent.converse, Agent.complete.
  assert (Hsent1 : Forall Agent.well_answered (Agent.sent s ++ [messages])).
  { apply Forall_app. split; [exact Hsent|]. now constructor. }
  destruct (Agent.create services _ _ messages) as [response|].
  - now apply toolLoop_well_answered.
  - intros [= <- <- <-]. now split.
Qed.

(** X19. Every conversation that [getSummary] and [chat] send to the
    model, and the one they end with, answers every tool call: each
    assistant message is followed by exactly one tool message for each of
    its calls, with the id of the call, in the order of the calls,
    whether the call succeeded, failed or had arguments that are no
    JSON. *)
Theorem conversations_answer_every_tool_call (fuel : nat) (s : Agent.Session) :
  Forall Agent.well_answered (Agent.sent s) ->
  (forall ending messages s',
     Agent.getSummary services fuel s = Some (ending, messages, s') ->
     Agent.well_answered messages /\ Forall Agent.well_answered (Agent.sent s'))
  /\ (forall userMessage ending messages s',
        Agent.chat services fuel userMessage s = Some (ending, messages, s') ->
        Agent.well_answered messages /\ Forall Agent.well_answered (Agent.sent s')).
Proof.
  intros Hsent. split.
  - intros ending messages s'. now apply converse_well_answered.
  - intros userMessage ending messages s'. now apply converse_well_answered.
Qed.








End AgentFacts.

(** * More theorems at concrete inputs, on the reference runtime *)

Section MoreConcrete.
#[local] Existing Instance Reference.platform.

(** X1 at [Sample.on_disk], for the overdue tasks of high priority. *)
Lemma filters_select_conjunctively_witness :
  exists st1,
    getTasks (Some Example.high_overdue) Sample.on_disk
    = (inr (List.filter (matches Example.high_overdue) (tasks st1)), st1).
Proof.
  assert (Hload : exists st1, loadTasks Sample.on_disk = (inr tt, st1))
    by (eexists; run_store).
  destruct Hload as [st1 Hload].
  destruct (filters_select_conjunctively _ _ Example.high_overdue Hload)
    as (_ & Hget & _).
  exists st1. exact Hget.
Defined.

(** X2 at a bound that is no date. *)
Lemma date_bounds_at_the_edges_witness :
  applyFilter Example.due_before_soon [Sample.old_task] = [].
Proof.
  assert (Hparse : dueBefore Example.due_before_soon ≫= Date_parse = None)
    by (vm_compute; reflexivity).
  destruct (date_bounds_at_the_edges Example.due_before_soon [Sample.old_task])
    as (_ & Hbefore & _).
  exact (Hbefore eq_refl Hparse).
Defined.

(** X3 at [Sample.loaded]: its task is completed. *)
Lemma status_update_touches_one_task_witness :
  exists st',
    updateTaskStatus (Some "1") (Some completed) Sample.loaded
    = (inr (Some (with_status Sample.old_task (Some completed)
                    (toISOString (current (world Sample.loaded))))), st')
    /\ length (tasks st') = 1%nat.
Proof.
  destruct (status_update_touches_one_task Sample.loaded (Some "1") (Some completed)
              Sample.old_task eq_refl eq_refl)
    as (st' & before & after & Hupdate & Hbefore & _ & Hafter & _).
  exists st'. split; [exact Hupdate|].
  rewrite Hafter. change (tasks Sample.loaded) with [Sample.old_task] in Hbefore.
  apply (f_equal length) in Hbefore. rewrite length_app in *. simpl in *. lia.
Defined.

(** X4 at [Sample.loaded]: its one task is deleted, and a second
    deletion finds nothing. *)
Lemma delete_removes_the_first_match_witness :
  exists st',
    deleteTask (Some "1") Sample.loaded = (inr true, st')
    /\ length (tasks st') = 0%nat.
Proof.
  destruct (delete_removes_the_first_match Sample.loaded (Some "1") Sample.old_task
              eq_refl eq_refl)
    as (st' & before & after & Hdelete & Hbefore & _ & Hafter & _).
  exists st'. split; [exact Hdelete|].
  rewrite Hafter. change (tasks Sample.loaded) with [Sample.old_task] in Hbefore.
  apply (f_equal length) in Hbefore. rewrite length_app in *. simpl in *. lia.
Defined.

(** X5 at [Sample.loaded]: an addition and the deletion of what was
    added. *)
Lemma add_then_delete_witness :
  exists st1 st2,
    addTask Sample.input Sample.loaded
    = (inr (added (world Sample.loaded) Sample.input), st1)
    /\ deleteTask (Some (task_id (added (world Sample.loaded) Sample.input))) st1
       = (inr true, st2).
Proof.
  destruct (add_then_delete Sample.loaded Sample.input eq_refl)
    as (st1 & st2 & Hadd & Hdelete & _).
  exists st1, st2. split; [exact Hadd|exact Hdelete].
Defined.

(** X6 at [Sample.loaded]. *)
Lemma added_task_is_found_witness :
  exists st1 found st2,
    getTaskById (Some (task_id (added (world Sample.loaded) Sample.input))) st1
    = (inr (Some found), st2)
    /\ task_id found = task_id (added (world Sample.loaded) Sample.input).
Proof.
  destruct (added_task_is_found Sample.loaded Sample.input eq_refl)
    as (st1 & found & st2 & _ & Hget & Hid & _).
  exists st1, found, st2. split; [exact Hget|exact Hid].
Defined.

(** X7 at [Sample.loaded], for an addition. *)
Lemma changes_are_written_through_witness :
  written_through (snd (addTask Sample.input Sample.loaded)).
Proof.
  destruct (changes_are_written_through Sample.loaded eq_refl) as (Hadd & _).
  exact (Hadd Sample.input).
Defined.

(** X8 at [Sample.loaded]: its task, due in 2020, is set to in_progress
    and found overdue. *)
Lemma reopened_task_turns_overdue_again_witness :
  exists st1 found st2,
    getTaskById (Some "1") st1 = (inr (Some found), st2)
    /\ status found = Some overdue.
Proof.
  assert (Hdue : due_time Sample.old_task = Some 1577836800000)
    by (vm_compute; reflexivity).
  assert (Hpast : 1577836800000 < current (advance (advance (world Sample.loaded))))
    by (vm_compute; reflexivity).
  destruct (reopened_task_turns_overdue_again Sample.loaded (Some "1")
              (Some in_progress) Sample.old_task 1577836800000
              eq_refl eq_refl Hdue Hpast)
    as (st1 & found & st2 & _ & Hget & Hoverdue & _).
  exists st1, found, st2. split; [exact Hget|]. apply Hoverdue. discriminate.
Defined.


(** X11 at [Example.fresh]. *)
Lemma first_load_creates_the_document_witness :
  exists st',
    constructor Example.fresh = (inr tt, st')
    /\ map task_id (tasks st') = ["1"; "2"; "3"; "4"; "5"].
Proof.
  destruct (first_load_creates_the_document Example.fresh eq_refl eq_refl)
    as (st' & Hnew & _ & Hids & _).
  exists st'. split; [exact Hnew|exact Hids].
Defined.

(** X14 at [Example.list_overdue] and [Sample.loaded]. *)
Lemma reading_tools_only_reload_witness :
  same_store (snd (callToolHandler Example.list_overdue Sample.loaded))
    (snd (loadTasks Sample.loaded)).
Proof.
  apply reading_tools_only_reload. apply list_elem_of_here.
Defined.

(** X15 at the run [Sample.answered]: its one request went out as
    number 1. *)
Lemma requests_on_the_wire_are_numbered_witness :
  exists p,
    1 = request_id p
    /\ requested (run newClient Sample.answered) !! p = Some "tools/list".
Proof.
  assert (Hlt : messageId (client (run newClient Sample.answered)) < 2 ^ 53)
    by (vm_compute; reflexivity).
  assert (Hwire : written_requests (run newClient Sample.answered)
                  = [(1, "tools/list")])
    by (vm_compute; reflexivity).
  destruct (requests_on_the_wire_are_numbered Sample.answered Hlt) as (_ & Hall & _).
  apply Hall. rewrite Hwire. apply list_elem_of_here.
Defined.

(** X17 at [Example.tool_result]: the text of an error-flagged result is
    returned. *)
Lemma callTool_returns_the_first_text_witness :
  callTool_resumed (Resolved (Some Example.tool_result))
  = inr (JString "Задача не найдена").
Proof.
  destruct (callTool_returns_the_first_text (Resolved (Some Example.tool_result)))
    as (_ & _ & Hfirst & _).
  eapply Hfirst; [reflexivity|reflexivity|reflexivity|discriminate].
Defined.

(** X18 at [Example.listing]. *)
Lemma tool_table_follows_the_listing_witness :
  exists tool,
    loadTools (Resolved (Some (JObject Example.listing))) = inr [tool]
    /\ tool_name tool = Some (JString "get_task_summary").
Proof.
  destruct (tool_table_follows_the_listing Example.listing) as (Hload & _).
  destruct (Hload _ eq_refl) as (tools & Htools & Hall).
  { constructor; [discriminate|constructor]. }
  inversion Hall as [|t c ts cs (Hname & _) Hrest]; subst.
  inversion Hrest; subst.
  exists c. split; [exact Htools|]. simpl in Hname. now injection Hname as <-.
Defined.

(** X19 at [Example.services]: the summary after one round of tools. *)
Lemma conversations_answer_every_tool_call_witness :
  exists ending messages s',
    Agent.getSummary Example.services 1 Example.idle = Some (ending, messages, s')
    /\ Agent.well_answered messages.
Proof.
  destruct (Agent.getSummary Example.services 1 Example.idle)
    as [[[ending messages] s']|] eqn:Hrun; [|vm_compute in Hrun; discriminate].
  destruct (conversations_answer_every_tool_call Example.services 1 Example.idle)
    as (Hsummary & _); [constructor|].
  exists ending, messages, s'. split; [reflexivity|].
  now destruct (Hsummary _ _ _ Hrun).
Defined.


End MoreConcrete.

(** ** The handshake of [connect] *)

Lemma outcomes_grow (p : nat) (rt rt' : Runtime) (more : list (nat * Outcome)) :
  settled rt' = settled rt ++ more ->
  exists extra, outcomes p rt' = outcomes p rt ++ extra.
Proof.
  intros Hs. unfold outcomes. rewrite Hs, omap_app. eexists. reflexivity.
Qed.

Lemma outcomes_at_most_one (p : nat) (rt : Runtime) :
  consistent rt -> (p < promises rt)%nat ->
  outcomes p rt = [] \/ exists o, outcomes p rt = [o].
Proof.
  intros Hc Hp.
  destruct (settled_once rt Hc p Hp) as [[Hone _]|[[Hnone _]|[Hnone _]]].
  - now right.
  - now left.
  - now left.
Qed.

Lemma verdicts_app (c : Connecting) (rt : Runtime) (b : bool) (a : option nat)
    (calls : list ConnectCall) :
  verdicts (mkConnecting rt b a (connect_calls c ++ calls))
  = verdicts c
    ++ List.filter
         (fun call => match call with
                      | ConnectReject (ChildError _) => false
                      | _ => true
                      end) calls.
Proof. unfold verdicts. simpl. apply List.filter_app. Qed.

Section HandshakeFacts.
Context `{Platform}.

Lemma settled_fold_processLine (lines : list string) (rt : Runtime) :
  promises (fold_left processLine lines rt) = promises rt
  /\ exists more, settled (fold_left processLine lines rt) = settled rt ++ more.
Proof.
  revert rt. induction lines as [|l lines IH]; intros rt.
  - split; [reflexivity|]. exists []. now rewrite app_nil_r.
  - simpl. destruct (IH (processLine rt l)) as (-> & more & ->).
    destruct (processLine_cases rt l)
      as (extra & _ & _ & _ & ->
          & [[_ ->]|[(m & k & p & o & _ & _ & _ & _ & _ & ->)
                    |(m & k & p & _ & _ & _ & _ & _ & _ & ->)]]).
    + split; [reflexivity|]. now exists more.
    + split; [reflexivity|]. exists ((p, o) :: more). now rewrite <- app_assoc.
    + split; [reflexivity|]. now exists more.
Qed.

Lemma settled_onData (chunk : string) (rt : Runtime) :
  promises (onData chunk rt) = promises rt
  /\ exists more, settled (onData chunk rt) = settled rt ++ more.
Proof.
  rewrite onData_fold. cbv zeta.
  apply (settled_fold_processLine _ rt).
Qed.

Lemma settled_fireTimer (n : nat) (rt : Runtime) :
  promises (fireTimer n rt) = promises rt
  /\ exists more, settled (fireTimer n rt) = settled rt ++ more.
Proof.
  unfold fireTimer. destruct (timers rt !! n) as [t|].
  - unfold timeoutCallback. simpl.
    destruct (pendingRequests (client rt) !! timer_id t); simpl.
    + split; [reflexivity|]. eexists. reflexivity.
    + split; [reflexivity|]. exists []. now rewrite app_nil_r.
  - split; [reflexivity|]. exists []. now rewrite app_nil_r.
Qed.

(** A turn that leaves the wire, the calls made and the verdicts as they
    are, and only adds outcomes, keeps the connection in one of its
    stages once the continuations have run. *)
Lemma resumeInitialize_keeps (c c' : Connecting) :
  in_handshake c ->
  consistent (runtime c') ->
  startup c' = startup c ->
  awaited c' = awaited c ->
  verdicts c' = verdicts c ->
  promises (runtime c') = promises (runtime c) ->
  requested (runtime c') = requested (runtime c) ->
  serverProcess (client (runtime c')) = serverProcess (client (runtime c)) ->
  (exists more, settled (runtime c') = settled (runtime c) ++ more) ->
  in_handshake (resumeInitialize c').
Proof.
  intros [Hc Hstage] Hc' Hstart Hawait Hverdicts Hpromises Hrequested Hwire [more Hmore].
  destruct (outcomes_grow 0 _ _ _ Hmore) as [extra Hextra].
  unfold resumeInitialize.
  destruct Hstage as [(Hs & Ha & Hp & Hw & Hv)
                     |(Hs & Hp & Hr & [(Ha & Ho & Hw & Hv)
                                      |[(result & Ha & Ho & Hw & Hv)
                                       |(reason & Ha & Ho & Hw & Hv)]])].
  - rewrite Hawait, Ha. split; [exact Hc'|]. left.
    repeat split; congruence.
  - rewrite Hawait, Ha.
    assert (Hlt : (0 < promises (runtime c'))%nat) by (rewrite Hpromises, Hp; lia).
    destruct (outcomes_at_most_one 0 _ Hc' Hlt) as [Hnone|[o Hone]].
    + rewrite Hnone. split; [exact Hc'|]. right.
      split; [congruence|]. split; [congruence|]. split; [congruence|].
      left. repeat split; congruence.
    + rewrite Hone. destruct o as [result|reason].
      * split.
        { unfold notifyInitialized.
          eapply consistent_same; [..|exact Hc']; reflexivity. }
        right. cbn [runtime startup awaited].
        change (promises (notifyInitialized (runtime c'))) with (promises (runtime c')).
        change (requested (notifyInitialized (runtime c')))
          with (requested (runtime c')).
        change (outcomes 0 (notifyInitialized (runtime c')))
          with (outcomes 0 (runtime c')).
        split; [congruence|]. split; [congruence|].
        split; [congruence|]. right. left. exists result.
        split; [reflexivity|]. split; [exact Hone|]. split.
        -- cbn [runtime]. simpl. rewrite Hwire, Hw. reflexivity.
        -- rewrite verdicts_app, Hverdicts, Hv. reflexivity.
      * split; [exact Hc'|]. right. cbn [runtime startup awaited].
        split; [congruence|]. split; [congruence|]. split; [congruence|].
        right. right. exists reason.
        split; [reflexivity|]. split; [exact Hone|].
        split; [cbn [runtime]; congruence|].
        rewrite verdicts_app, Hverdicts, Hv. reflexivity.
  - rewrite Hawait, Ha.
    assert (Hlt : (0 < promises (runtime c'))%nat) by (rewrite Hpromises, Hp; lia).
    assert (Hsame : outcomes 0 (runtime c') = [Resolved result]).
    { rewrite Hextra, Ho.
      destruct (outcomes_at_most_one 0 _ Hc' Hlt) as [Hnone|[o Hone]];
        rewrite Hextra, Ho in *; [discriminate|].
      destruct extra; [reflexivity|discriminate]. }
    split; [exact Hc'|]. right.
    split; [congruence|]. split; [congruence|]. split; [congruence|].
    right. left. exists result. repeat split; congruence.
  - rewrite Hawait, Ha.
    assert (Hlt : (0 < promises (runtime c'))%nat) by (rewrite Hpromises, Hp; lia).
    assert (Hsame : outcomes 0 (runtime c') = [Rejected reason]).
    { rewrite Hextra, Ho.
      destruct (outcomes_at_most_one 0 _ Hc' Hlt) as [Hnone|[o Hone]];
        rewrite Hextra, Ho in *; [discriminate|].
      destruct extra; [reflexivity|discriminate]. }
    split; [exact Hc'|]. right.
    split; [congruence|]. split; [congruence|]. split; [congruence|].
    right. right. exists reason. repeat split; congruence.
Qed.

Lemma resumeInitialize_same (c : Connecting) :
  in_handshake c -> in_handshake (resumeInitialize c).
Proof.
  intros Hin. apply (resumeInitialize_keeps c c); try reflexivity; try exact Hin.
  - apply Hin.
  - exists []. now rewrite app_nil_r.
Qed.

Lemma startupCallback_keeps (c : Connecting) :
  in_handshake c -> startup c = true -> in_handshake (startupCallback c).
Proof.
  intros [Hc Hstage] Hstart.
  destruct Hstage as [(_ & Ha & Hp & Hw & Hv)|(Hs & _)]; [|congruence].
  pose proof (counter_exact _ Hc) as Hid. rewrite Hp in Hid. simpl in Hid.
  pose proof (requested_all _ Hc) as Hlen. rewrite Hp in Hlen.
  assert (Hreq : requested (runtime c) = []) by now apply nil_length_inv.
  assert (Hnone : settled (runtime c) = []).
  { destruct (settled (runtime c)) as [|[q o] rest] eqn:Hs; [reflexivity|].
    destruct (settled_own _ Hc q o) as [Hlt _]; [rewrite Hs; apply list_elem_of_here|].
    lia. }
  split.
  - apply consistent_sendRequest; [|exact Hc]. simpl. rewrite Hid. reflexivity.
  - right. unfold startupCallback. cbn [startup runtime awaited connect_calls].
    split; [reflexivity|]. split; [simpl; now rewrite Hp|]. split.
    { unfold requested. simpl. rewrite omap_app. fold (requested (runtime c)).
      now rewrite Hreq. }
    left. split; [now rewrite Hp|]. split.
    { unfold outcomes. simpl. now rewrite Hnone. }
    split; [|exact Hv].
    simpl. rewrite Hw, Hid. reflexivity.
Qed.

Lemma connect_step_keeps (c : Connecting) (e : ConnectEvent) :
  in_handshake c -> in_handshake (connect_step c e).
Proof.
  intros Hin. unfold connect_step. destruct e as [|message|chunk|n].
  - destruct (startup c) eqn:Hstart.
    + apply resumeInitialize_same. now apply startupCallback_keeps.
    + now apply resumeInitialize_same.
  - apply (resumeInitialize_keeps c);
      [exact Hin|apply Hin|reflexivity|reflexivity| |reflexivity..|].
    + rewrite verdicts_app. simpl. apply app_nil_r.
    + exists []. cbn [runtime]. now rewrite app_nil_r.
  - destruct (serverProcess_onData chunk (runtime c)) as (Hw & _ & Hr).
    destruct (settled_onData chunk (runtime c)) as (Hp & Hmore).
    apply (resumeInitialize_keeps c); try reflexivity; try assumption.
    apply consistent_onData, Hin.
  - destruct (serverProcess_fireTimer n (runtime c)) as (Hw & _ & Hr).
    destruct (settled_fireTimer n (runtime c)) as (Hp & Hmore).
    apply (resumeInitialize_keeps c); try reflexivity; try assumption.
    apply consistent_fireTimer, Hin.
Qed.

Lemma connect_in_handshake : in_handshake (connect newClient).
Proof.
  split.
  - eapply consistent_same; [..|apply consistent_newClient]; reflexivity.
  - left. repeat split.
Qed.

Lemma connect_run_in_handshake (es : list ConnectEvent) :
  in_handshake (fold_left connect_step es (connect newClient)).
Proof.
  induction es as [|e es IH] using rev_ind; [apply connect_in_handshake|].
  rewrite fold_left_app. simpl. now apply connect_step_keeps.
Qed.

(** X22. Whatever happens during [connect], the connection is in one of
    four stages: nothing is written before the timer of 500 ms runs; then
    the [initialize] request, with id 1, is the only line written while
    it is not settled; the [initialized] notification is written, and
    [resolve] called, once and only when that request was resolved; and
    when it was rejected, no notification is ever written and [reject] is
    called once with the reason, which for a timeout names the method
    [initialize]. An ['error'] of the child changes none of this. *)
Theorem the_handshake_is_in_order (es : list ConnectEvent) :
  let c := fold_left connect_step es (connect newClient) in
  (before_startup c
   \/ initializing c
   \/ (exists result, connected c result)
   \/ (exists reason,
         refused c reason
         /\ forall text,
              reason = RequestTimeout text ->
              text = "Request timeout for method: initialize"))
  /\ (forall message,
        let c' := connect_step c (ChildFails message) in
        runtime c' = runtime c
        /\ verdicts c' = verdicts c
        /\ awaited c' = awaited c).
Proof.
  intros c. destruct (connect_run_in_handshake es) as [Hc Hstage]. fold c in Hc, Hstage.
  split.
  - destruct Hstage as [Hbefore|(_ & Hp & Hr & [Hinit|[Hconn|(reason & Href)]])];
      [now left|now right; left|now right; right; left|].
    right. right. right. exists reason. split; [exact Href|].
    intros text ->. destruct Href as (_ & Ho & _).
    assert (Hin : (0%nat, Rejected (RequestTimeout text)) ∈ settled (runtime c)).
    { apply elem_of_outcomes. rewrite Ho. apply list_elem_of_here. }
    destruct (settled_own _ Hc _ _ Hin) as [_ Htext].
    destruct (Htext text eq_refl) as (method & Hm & ->).
    rewrite Hr in Hm. now injection Hm as <-.
  - intros message. cbv zeta. unfold connect_step.
    assert (Hsame : forall calls,
              resumeInitialize
                (mkConnecting (runtime c) (startup c) (awaited c) calls)
              = mkConnecting (runtime c) (startup c) (awaited c) calls).
    { intros calls. unfold resumeInitialize. simpl.
      destruct Hstage as [(_ & -> & _)
                         |(_ & _ & _ & [(-> & -> & _)
                                       |[(result & -> & _)|(reason & -> & _)]])];
        reflexivity. }
    rewrite Hsame. simpl. split; [reflexivity|]. split; [|reflexivity].
    rewrite verdicts_app. simpl. apply app_nil_r.
Qed.

End HandshakeFacts.

Section HandshakeConcrete.
#[local] Existing Instance Reference.platform.

(** X22 at [Example.handshake]: the connection is made. *)
Lemma the_handshake_is_in_order_witness :
  connected (fold_left connect_step Example.handshake (connect newClient))
    (Some (JNumber (Integer 5))).
Proof.
  assert (Ho : outcomes 0 (runtime (fold_left connect_step Example.handshake
                                      (connect newClient)))
               = [Resolved (Some (JNumber (Integer 5)))])
    by (vm_compute; reflexivity).
  assert (Hs : startup (fold_left connect_step Example.handshake (connect newClient))
               = false)
    by (vm_compute; reflexivity).
  destruct (the_handshake_is_in_order Example.handshake)
    as ([(Hb & _)|[(_ & Hi & _)|[(result & Hc)|(reason & (_ & Hr & _) & _)]]] & _).
  - rewrite Hs in Hb. discriminate.
  - rewrite Ho in Hi. discriminate.
  - destruct Hc as (Ha & Hres & Hrest). rewrite Ho in Hres.
    injection Hres as <-. split; [exact Ha|]. split; [exact Ho|exact Hrest].
  - rewrite Ho in Hr. discriminate.
Defined.

End HandshakeConcrete.
